(** * gem-scrape: the resumable date-range crawl-and-download engine

    A shallow embedding of [src/scraper.js] (date helpers, [scrapeRange],
    [runScraper]) and of the prompt validators of [src/index.js], with the
    properties the specification states about them.

    Layout:
    - [JsString]: the JavaScript string primitives the code calls
      ([split], [trim], [padStart], [String(n)], [Number(s)]) and the two
      regular expressions of [scrapeRange], written as scanners;
    - [JsDate]: the part of the JavaScript [Date] object the code uses;
    - the date helpers [parseDate], [formatDate], [addMonths], [addDays];
    - a state-and-exception monad over the file system, the remote portal
      and the two shared mutable objects ([stats], [cachedIds]);
    - [scrapeRange] and [runScraper], and the prompt validators;
    - what the menu of [index.js] reaches besides the scraper: the
      throttle filter, the text helpers and the search for documents of
      the extractor, and the database functions of [db.js] and
      [manager.js];
    - the observations the theorems are stated with (event histories,
      listing calls, periods, the identifier log) and a small portal
      [Demo] on which the program is run;
    - the theorems, grouped by subject: counters, items, the on-disk
      record, the listing walk, errors, dates, windows, configuration,
      re-runs, then the calendar, the planner's bounds, pacing, the
      records of a run, the scanners, the text helpers, the search for
      documents and the database; then the runs on the demo worlds. *)

From Stdlib Require Import ZArith Ascii String Lia Bool.
From stdpp Require Import gmap strings list.

(* ===================================================================== *)
(** * JavaScript strings *)
(* ===================================================================== *)

(** JavaScript strings are modelled by [string]: sequences of code units
    restricted to the range 0..255. *)
Module JsString.

Definition code (c : ascii) : Z := Z.of_N (N_of_ascii c).

Definition chr (n : Z) : ascii := ascii_of_N (Z.to_N n).

Definition is_digit (c : ascii) : bool :=
  (48 <=? code c)%Z && (code c <=? 57)%Z.

Definition digit_val (c : ascii) : Z := (code c - 48)%Z.

Definition digit_chr (d : Z) : ascii := chr (48 + d).

Fixpoint all_digits (s : string) : bool :=
  match s with
  | EmptyString => true
  | String c s' => is_digit c && all_digits s'
  end.

(** [s.split(sep)] for a one-character separator. *)
Fixpoint split (sep : ascii) (s : string) : list string :=
  match s with
  | EmptyString => [EmptyString]
  | String c s' =>
      if Ascii.eqb c sep then EmptyString :: split sep s'
      else match split sep s' with
           | [] => [String c EmptyString]
           | h :: t => String c h :: t
           end
  end.

(** White space and line terminators of ECMAScript that fit in one
    code unit below 256: TAB, LF, VT, FF, CR, SP, NBSP. *)
Definition is_white_space (c : ascii) : bool :=
  let n := code c in
  ((9 <=? n)%Z && (n <=? 13)%Z) || (n =? 32)%Z || (n =? 160)%Z.

Fixpoint trimStart (s : string) : string :=
  match s with
  | EmptyString => EmptyString
  | String c s' => if is_white_space c then trimStart s' else s
  end.

Fixpoint trimEnd (s : string) : string :=
  match s with
  | EmptyString => EmptyString
  | String c s' =>
      match trimEnd s' with
      | EmptyString => if is_white_space c then EmptyString
                       else String c EmptyString
      | r => String c r
      end
  end.

(** [s.trim()] *)
Definition trim (s : string) : string := trimEnd (trimStart s).

(** A string is truthy when it is not empty. *)
Definition truthy (s : string) : bool :=
  match s with EmptyString => false | _ => true end.

(** [s.padStart(2, '0')] *)
Definition padStart2 (s : string) : string :=
  match s with
  | EmptyString => "00"
  | String c EmptyString => String "0" s
  | _ => s
  end.

(** Decimal digits of a non-negative integer, most significant first,
    prepended to [acc]. *)
Fixpoint digits_go (fuel : nat) (n : Z) (acc : string) : string :=
  match fuel with
  | O => acc
  | S fuel' =>
      if (n <=? 0)%Z then acc
      else digits_go fuel' (n / 10)%Z (String (digit_chr (n mod 10)) acc)
  end.

Definition digits (n : Z) : string :=
  if (n <=? 0)%Z then "0" else digits_go (Z.to_nat n) n EmptyString.

(** [String(n)] for an integer [n]. *)
Definition String_of_Z (n : Z) : string :=
  if (n <? 0)%Z then String "-" (digits (- n)) else digits n.

Fixpoint digits_value (acc : Z) (s : string) : Z :=
  match s with
  | EmptyString => acc
  | String c s' => digits_value (10 * acc + digit_val c)%Z s'
  end.

(** [Number(s)], with [None] for [NaN].  Modelled on the strings the
    date helpers meet: surrounding white space is dropped, the empty
    string is 0, a run of decimal digits is its value, and anything else
    is [NaN].  Signs, fractions, exponents, radix prefixes and
    [Infinity] are outside the modelled fragment, and so are runs of
    digits past 2^53, which JavaScript rounds: the theorems that depend
    on what a date string reads as are stated for strings of the form
    the prompt asks for and for strings [formatDate] printed, whose
    fields are short runs of digits, or for strings with too few fields
    to be read at all. *)
Definition Number (s : string) : option Z :=
  let t := trim s in
  match t with
  | EmptyString => Some 0%Z
  | _ => if all_digits t then Some (digits_value 0 t) else None
  end.

(** ** The regular expressions of [scrapeRange], as scanners *)

Definition dquote : ascii := Eval cbv in chr 34.
Definition backslash : ascii := Eval cbv in chr 92.
Definition newline : ascii := Eval cbv in chr 10.

(** The characters before the first [stop] and those after it; [None]
    when [stop] does not occur. *)
Fixpoint take_until (stop : ascii) (s : string) : option (string * string) :=
  match s with
  | EmptyString => None
  | String c s' =>
      if Ascii.eqb c stop then Some (EmptyString, s')
      else match take_until stop s' with
           | Some (run, rest) => Some (String c run, rest)
           | None => None
           end
  end.

(** [s.match(/'([^']+)'/)], giving group 1 of the leftmost match: the
    first non-empty run of characters between two single quotes. *)
Fixpoint match_quoted (s : string) : option string :=
  match s with
  | EmptyString => None
  | String c s' =>
      if Ascii.eqb c "'" then
        match take_until "'" s' with
        | Some (String a run, _) => Some (String a run)
        | _ => match_quoted s'
        end
      else match_quoted s'
  end.

Fixpoint strip_prefix (p s : string) : option string :=
  match p, s with
  | EmptyString, _ => Some s
  | String a p', String b s' => if Ascii.eqb a b then strip_prefix p' s' else None
  | String _ _, EmptyString => None
  end.

(** One attempt, anchored at the start of [s], of the link pattern of
    [scrapeRange]: the text href=, an optional backslash, a double quote,
    a group of one or more characters other than the double quote, an
    optional backslash, a double quote.  The greedy group takes every
    character up to the next double quote, a trailing backslash
    included, so the optional backslash before the closing quote always
    matches empty. *)
Definition match_href_here (s : string) : option string :=
  match strip_prefix "href=" s with
  | None => None
  | Some r =>
      let r' := match r with
                | String c q => if Ascii.eqb c backslash then q else r
                | EmptyString => r
                end in
      match r' with
      | String c q =>
          if Ascii.eqb c dquote then
            match take_until dquote q with
            | Some (String a run, _) => Some (String a run)
            | _ => None
            end
          else None
      | EmptyString => None
      end
  end.

(** [s.match] of the link pattern: group 1 of the leftmost match. *)
Fixpoint match_href (s : string) : option string :=
  match match_href_here s with
  | Some u => Some u
  | None => match s with
            | EmptyString => None
            | String _ s' => match_href s'
            end
  end.

(** [s.replace(/\\\//g, '/')]: every backslash-slash pair becomes a slash. *)
Fixpoint unescape_slashes (s : string) : string :=
  match s with
  | EmptyString => EmptyString
  | String c r =>
      match r with
      | String "/" r' =>
          if Ascii.eqb c backslash then String "/" (unescape_slashes r')
          else String c (unescape_slashes r)
      | _ => String c (unescape_slashes r)
      end
  end.

End JsString.

(* ===================================================================== *)
(** * JavaScript dates *)
(* ===================================================================== *)

(** A [Date] is modelled by its local calendar fields: the absolute month
    index [12 * year + month] (month 0 is January), the day of the month
    and the milliseconds since local midnight.  Two dates compare as their
    time values do, which in a zone without clock changes is the
    lexicographic order of these fields.  ECMAScript restricts time values
    to 10^8 days around the epoch; the model does not clip to that range,
    and the theorems on dates that could leave it are stated for dates
    within it ([in_date_range], [clock_reading] below).  [None] stands
    for the [Invalid Date]. *)
Module JsDate.
Local Open Scope Z_scope.

Record t := mk { ym : Z; dom : Z; tod : Z }.

Definition is_leap (y : Z) : bool :=
  ((y mod 4 =? 0) && negb (y mod 100 =? 0)) || (y mod 400 =? 0).

Definition days_in_month (ym : Z) : Z :=
  let m := ym mod 12 in
  if m =? 1 then (if is_leap (ym / 12) then 29 else 28)
  else if (m =? 3) || (m =? 5) || (m =? 8) || (m =? 10) then 30
  else 31.

(** Day overflow and underflow of [MakeDay]: a day below 1 borrows from
    the previous months, a day past the end of the month carries into
    the next ones. *)
Fixpoint roll (fuel : nat) (ym d : Z) : Z * Z :=
  match fuel with
  | O => (ym, d)
  | S fuel' =>
      if d <? 1 then roll fuel' (ym - 1) (d + days_in_month (ym - 1))
      else if days_in_month ym <? d then roll fuel' (ym + 1) (d - days_in_month ym)
      else (ym, d)
  end.

(** [MakeDay(year, month, date)] on the month index [12 * year + month]. *)
Definition make_day (ym d : Z) : Z * Z :=
  roll (S (Z.to_nat (Z.abs d))) ym d.

Definition of_fields (ym d ms : Z) : t :=
  let '(ym', d') := make_day ym d in mk ym' d' ms.

(** [new Date(y, m, d)]: a year from 0 to 99 means 1900 + year; the time
    of day is local midnight. *)
Definition new_ymd (y m d : Z) : t :=
  let y' := if (0 <=? y) && (y <=? 99) then 1900 + y else y in
  of_fields (12 * y' + m) d 0.

Definition getFullYear (x : t) : Z := ym x / 12.
Definition getMonth (x : t) : Z := ym x mod 12.
Definition getDate (x : t) : Z := dom x.

(** [x.setMonth(m)] keeps the year and the day of the month *)
Definition setMonth (x : t) (m : Z) : t :=
  of_fields (12 * getFullYear x + m) (dom x) (tod x).

(** [x.setDate(d)] keeps the year and the month *)
Definition setDate (x : t) (d : Z) : t :=
  of_fields (ym x) d (tod x).

(** [a > b] on time values *)
Definition gtb (a b : t) : bool :=
  (ym b <? ym a)
  || ((ym a =? ym b)
      && ((dom b <? dom a) || ((dom a =? dom b) && (tod b <? tod a)))).

(** [a > b] where either side may be the [Invalid Date]: a comparison
    with [NaN] is false. *)
Definition gt (a b : option t) : bool :=
  match a, b with
  | Some x, Some y => gtb x y
  | _, _ => false
  end.

(** The dates the constructors produce: a day that exists in its month
    and a time of day within one day. *)
Definition wf (x : t) : Prop :=
  1 <= dom x <= days_in_month (ym x) /\ 0 <= tod x < 86400000.

Definition lt (a b : t) : Prop :=
  ym a < ym b \/ (ym a = ym b /\ (dom a < dom b \/ (dom a = dom b /\ tod a < tod b))).

Definition le (a b : t) : Prop := lt a b \/ a = b.

End JsDate.

(* ===================================================================== *)
(** * Date helpers of [scraper.js] *)
(* ===================================================================== *)

Definition parseDate (dateStr : string) : option JsDate.t :=
  match map JsString.Number (JsString.split "-" dateStr) with
  | Some d :: Some m :: Some y :: _ => Some (JsDate.new_ymd y (m - 1) d)
  | _ => None
  end.

Definition formatDate (date : option JsDate.t) : string :=
  match date with
  | None => "NaN-NaN-NaN"
  | Some x =>
      let d := JsString.padStart2 (JsString.String_of_Z (JsDate.getDate x)) in
      let m := JsString.padStart2 (JsString.String_of_Z (JsDate.getMonth x + 1)) in
      let y := JsString.String_of_Z (JsDate.getFullYear x) in
      d +:+ "-" +:+ m +:+ "-" +:+ y
  end.

Definition addMonths (date : option JsDate.t) (months : Z) : option JsDate.t :=
  match date with
  | None => None
  | Some x =>
      let d := JsDate.setMonth x (JsDate.getMonth x + months) in
      if negb (JsDate.getDate d =? JsDate.getDate x)%Z
      then Some (JsDate.setDate d 0)
      else Some d
  end.

Definition addDays (date : option JsDate.t) (days : Z) : option JsDate.t :=
  match date with
  | None => None
  | Some x => Some (JsDate.setDate x (JsDate.getDate x + days))
  end.


(* ===================================================================== *)
(** * The world [scraper.js] runs in *)
(* ===================================================================== *)

(** Values of a parsed JSON body ([dlRes.data]).  An object lists its
    properties, the effective binding of a name first. *)
Inductive JsVal :=
| JUndefined
| JNull
| JBool (b : bool)
| JNum (n : Z)
| JStr (s : string)
| JObj (props : JsProps)
with JsProps :=
| PNil
| PCons (key : string) (value : JsVal) (rest : JsProps).

Definition js_truthy (v : JsVal) : bool :=
  match v with
  | JUndefined | JNull => false
  | JBool b => b
  | JNum n => negb (n =? 0)%Z
  | JStr s => JsString.truthy s
  | JObj _ => true
  end.

Fixpoint assoc (k : string) (props : JsProps) : JsVal :=
  match props with
  | PNil => JUndefined
  | PCons k' v rest => if String.eqb k k' then v else assoc k rest
  end.

(** [v.k] for a truthy [v]: only objects carry [status] and [code]. *)
Definition js_prop (v : JsVal) (k : string) : JsVal :=
  match v with
  | JObj props => assoc k props
  | _ => JUndefined
  end.

(** [v === '1'] *)
Definition is_status_ok (v : JsVal) : bool :=
  match v with
  | JStr s => String.eqb s "1"
  | _ => false
  end.

Inductive Exn :=
| TransportError (message : string)
| TypeError (message : string)
| StorageError (message : string).

Definition exn_message (e : Exn) : string :=
  match e with
  | TransportError m | TypeError m | StorageError m => m
  end.

(** The axios instance of [runScraper]; of its headers only the cookie
    varies. *)
Record Client := { client_cookie : string }.

(** The form body of a listing request. *)
Record ListingPayload := {
  pl_fromDate : string;
  pl_toDate : string;
  pl_department : string;
  pl_bno : string;
  pl_buyer_category : string;
  pl_page : string
}.

Record Options := {
  opt_throttleTime : Z;
  opt_department : string;
  opt_bno : string;
  opt_buyer_category : string
}.

(** The answers object [startScraper] hands to [runScraper]. *)
Record Answers := {
  cookie : string;
  throttleTime : Z;
  fromDate : string;
  toDate : string;
  department : string;
  bno : string;
  buyer_category : string;
  repeatTillDate : bool
}.

(** The counters of a run. *)
Record Stats := {
  scraped : nat;
  downloaded : nat;
  skipped : nat;
  failed : nat
}.

(** Everything the program does to the outside, in the order it does it,
    with what the outside answered.  [EvLogPeriod from to] is the line
    [--- Scraping Period: from to to ---] that opens a window. *)
Inductive Event :=
| EvLog (line : string)
| EvLogStats (summary : Stats)
| EvLogPeriod (fromDateStr toDateStr : string)
| EvSleep (ms : Z)
| EvNow (today : JsDate.t)
| EvEnsureDir (path : string) (ok : bool)
| EvPathExists (path : string) (found : bool)
| EvReadFile (path : string) (res : option string)
| EvWriteFile (path data : string) (ok : bool)
| EvAppendFile (path data : string) (ok : bool)
| EvPostListing (payload : ListingPayload) (res : Exn + string)
| EvPostCaptcha (oid : string) (res : Exn + JsVal)
| EvGet (url : string) (res : Exn + string)
| EvCacheAdd (id : string).

Inductive FsOp :=
| OpEnsureDir (path : string)
| OpReadFile (path : string)
| OpWriteFile (path data : string)
| OpAppendFile (path data : string).

(** The outside: the portal, the disk's failures, the clock and the
    cheerio queries.  Each answer may depend on everything that happened
    before (the events so far, newest first), so any sequence of answers
    is some [Env].  For a listing or a download, [inl e] is the request
    throwing [e]. *)
Class Env := {
  post_contract_details : list Event -> Client -> ListingPayload -> Exn + string;
  post_sbtCaptcha : list Event -> Client -> string -> Exn + JsVal;
  get_arraybuffer : list Event -> Client -> string -> Exn + string;
  fs_fails : list Event -> FsOp -> bool;
  clock : list Event -> JsDate.t;
  (** [$('.block_header')] on a listing body: for each block, in document
      order, [$(el).find('a').attr('onclick')] *)
  block_header_onclicks : string -> list (option string);
  (** [cheerio.load(code)('a').attr('href')] *)
  first_anchor_href : string -> option string
}.

(** The file system, the two objects [runScraper] shares with
    [scrapeRange] ([stats] and [cachedIds]), and the events so far, newest
    first. *)
Record State := {
  fs_dirs : gset string;
  fs_files : gmap string string;
  stats : Stats;
  cachedIds : gset string;
  trace : list Event
}.

Definition set_dirs (f : gset string -> gset string) (s : State) : State :=
  {| fs_dirs := f (fs_dirs s); fs_files := fs_files s; stats := stats s;
     cachedIds := cachedIds s; trace := trace s |}.

Definition set_files (f : gmap string string -> gmap string string) (s : State) : State :=
  {| fs_dirs := fs_dirs s; fs_files := f (fs_files s); stats := stats s;
     cachedIds := cachedIds s; trace := trace s |}.

Definition set_stats (f : Stats -> Stats) (s : State) : State :=
  {| fs_dirs := fs_dirs s; fs_files := fs_files s; stats := f (stats s);
     cachedIds := cachedIds s; trace := trace s |}.

Definition set_cachedIds (f : gset string -> gset string) (s : State) : State :=
  {| fs_dirs := fs_dirs s; fs_files := fs_files s; stats := stats s;
     cachedIds := f (cachedIds s); trace := trace s |}.

Definition add_event (e : Event) (s : State) : State :=
  {| fs_dirs := fs_dirs s; fs_files := fs_files s; stats := stats s;
     cachedIds := cachedIds s; trace := e :: trace s |}.

(* ===================================================================== *)
(** * The monad: state, exceptions, fuel *)
(* ===================================================================== *)

Inductive Outcome (A : Type) :=
| Ok (a : A)
| Throw (e : Exn)
| OutOfFuel.
Arguments Ok {A} a.
Arguments Throw {A} e.
Arguments OutOfFuel {A}.

Definition M (A : Type) : Type := State -> State * Outcome A.

Definition ret {A} (a : A) : M A := fun s => (s, Ok a).

Definition bind {A B} (m : M A) (k : A -> M B) : M B := fun s =>
  match m s with
  | (s', Ok a) => k a s'
  | (s', Throw e) => (s', Throw e)
  | (s', OutOfFuel) => (s', OutOfFuel)
  end.

Definition throw {A} (e : Exn) : M A := fun s => (s, Throw e).

Definition out_of_fuel {A} : M A := fun s => (s, OutOfFuel).

(** [try { body } catch (err) { handler }] *)
Definition try_catch {A} (body : M A) (handler : Exn -> M A) : M A := fun s =>
  match body s with
  | (s', Throw e) => handler e s'
  | r => r
  end.

Definition gets {A} (f : State -> A) : M A := fun s => (s, Ok (f s)).

Definition modify (f : State -> State) : M unit := fun s => (f s, Ok tt).

Declare Scope scraper_scope.
Delimit Scope scraper_scope with scraper.
Notation "x <- m ;; k" := (bind m (fun x => k))
  (at level 100, m at next level, right associativity) : scraper_scope.
Notation "m ;; k" := (bind m (fun _ => k))
  (at level 100, right associativity) : scraper_scope.
Open Scope scraper_scope.

(** [for (const x of l) { body x }] *)
Fixpoint for_of {A} (l : list A) (body : A -> M unit) : M unit :=
  match l with
  | [] => ret tt
  | x :: rest => body x ;; for_of rest body
  end.

Definition exec {A} (m : M A) (s : State) : State := fst (m s).
Definition outcome {A} (m : M A) (s : State) : Outcome A := snd (m s).

(* ===================================================================== *)
(** * [scraper.js] *)
(* ===================================================================== *)

Definition BASE_URL : string := "https://gem.gov.in".
Definition CACHE_FILE : string := "temp-cache.txt".
Definition PDF_ROOT : string := "pdfs".

Definition newline_str : string := String JsString.newline EmptyString.

(** [path.join(a, b)] on the paths the scraper builds: the two parts with
    a separator; the normalisation Node applies to dots and repeated
    separators is not modelled. *)
Definition path_join (a b : string) : string := a +:+ "/" +:+ b.

(** The console lines of [scrapeRange] and [runScraper]. *)
Definition error_line (err : Exn) : string :=
  newline_str +:+ "Error scraping page: " +:+ exn_message err.

Definition saving_line (outputDir : string) : string := "Saving to: " +:+ outputDir.

Definition loaded_line (n : nat) : string :=
  "Loaded " +:+ JsString.String_of_Z (Z.of_nat n) +:+ " cached contracts.".

Definition all_done_line : string := newline_str +:+ "All done!".

(** [path.join(outputDir, `${contractId}.pdf`)] *)
Definition pdf_path (outputDir contractId : string) : string :=
  path_join outputDir (contractId +:+ ".pdf").

(** [`${contractId}\n`] *)
Definition cache_line (contractId : string) : string := contractId +:+ newline_str.

Section Scraper.
Context `{Env}.

(** ** Primitive operations *)

Definition console_log (line : string) : M unit :=
  modify (add_event (EvLog line)).

Definition console_error (line : string) : M unit :=
  modify (add_event (EvLog line)).

Definition sleep (ms : Z) : M unit :=
  modify (add_event (EvSleep ms)).

(** [new Date()] *)
Definition new_Date_now : M JsDate.t := fun s =>
  let d := clock (trace s) in (add_event (EvNow d) s, Ok d).

Definition fs_ensureDir (path : string) : M unit := fun s =>
  if fs_fails (trace s) (OpEnsureDir path)
  then (add_event (EvEnsureDir path false) s, Throw (StorageError path))
  else (add_event (EvEnsureDir path true) (set_dirs (fun d => {[path]} ∪ d) s), Ok tt).

(** [fs.pathExists] never throws. *)
Definition fs_pathExists (path : string) : M bool := fun s =>
  let found := bool_decide (is_Some (fs_files s !! path))
               || bool_decide (path ∈ fs_dirs s) in
  (add_event (EvPathExists path found) s, Ok found).

Definition fs_readFile (path : string) : M string := fun s =>
  match (if fs_fails (trace s) (OpReadFile path) then None else fs_files s !! path) with
  | Some content => (add_event (EvReadFile path (Some content)) s, Ok content)
  | None => (add_event (EvReadFile path None) s, Throw (StorageError path))
  end.

Definition fs_writeFile (path data : string) : M unit := fun s =>
  if fs_fails (trace s) (OpWriteFile path data)
  then (add_event (EvWriteFile path data false) s, Throw (StorageError path))
  else (add_event (EvWriteFile path data true) (set_files (insert path data) s), Ok tt).

Definition fs_appendFile (path data : string) : M unit := fun s =>
  if fs_fails (trace s) (OpAppendFile path data)
  then (add_event (EvAppendFile path data false) s, Throw (StorageError path))
  else (add_event (EvAppendFile path data true)
          (set_files (fun fs => <[path := default EmptyString (fs !! path) +:+ data]> fs) s),
        Ok tt).

(** [client.post('/view_contracts/contract_details', qs.stringify(payload))],
    giving [response.data] *)
Definition client_post_contract_details (client : Client) (payload : ListingPayload)
  : M string := fun s =>
  let r := post_contract_details (trace s) client payload in
  let s' := add_event (EvPostListing payload r) s in
  match r with
  | inl e => (s', Throw e)
  | inr data => (s', Ok data)
  end.

(** [client.post('/view_contracts/sbtCaptcha', qs.stringify({ oid }))],
    giving [dlRes.data] *)
Definition client_post_sbtCaptcha (client : Client) (oid : string) : M JsVal := fun s =>
  let r := post_sbtCaptcha (trace s) client oid in
  let s' := add_event (EvPostCaptcha oid r) s in
  match r with
  | inl e => (s', Throw e)
  | inr data => (s', Ok data)
  end.

(** [client.get(url, { responseType: 'arraybuffer' })], giving [pdfRes.data] *)
Definition client_get (client : Client) (url : string) : M string := fun s =>
  let r := get_arraybuffer (trace s) client url in
  let s' := add_event (EvGet url r) s in
  match r with
  | inl e => (s', Throw e)
  | inr data => (s', Ok data)
  end.

(** [cachedIds.has(id)] *)
Definition cachedIds_has (id : string) : M bool :=
  gets (fun s => bool_decide (id ∈ cachedIds s)).

(** [cachedIds.add(id)] *)
Definition cachedIds_add (id : string) : M unit :=
  modify (fun s => add_event (EvCacheAdd id) (set_cachedIds (fun c => {[id]} ∪ c) s)).

Definition incr_scraped : M unit :=
  modify (set_stats (fun st =>
    {| scraped := S (scraped st); downloaded := downloaded st;
       skipped := skipped st; failed := failed st |})).

Definition incr_downloaded : M unit :=
  modify (set_stats (fun st =>
    {| scraped := scraped st; downloaded := S (downloaded st);
       skipped := skipped st; failed := failed st |})).

Definition incr_skipped : M unit :=
  modify (set_stats (fun st =>
    {| scraped := scraped st; downloaded := downloaded st;
       skipped := S (skipped st); failed := failed st |})).

Definition incr_failed : M unit :=
  modify (set_stats (fun st =>
    {| scraped := scraped st; downloaded := downloaded st;
       skipped := skipped st; failed := S (failed st) |})).

(** ** [scrapeRange]

    The progress bar calls and the [Date.now()] timing only feed the
    display and are left out. *)

(** Lines 76-85: the ids the [contractNodes.each] callback pushes. *)
Definition extract_contract_id (onclick : option string) : option string :=
  match onclick with
  | Some oc => if JsString.truthy oc then JsString.match_quoted oc else None
  | None => None
  end.

Definition contractsOnPage (contractNodes : list (option string)) : list string :=
  omap extract_contract_id contractNodes.

(** Lines 117-126: the link in [dlRes.data.code]; [None] for [undefined]. *)
Definition extract_downloadUrl (code : string) : option string :=
  match JsString.match_href code with
  | Some m => Some (JsString.unescape_slashes m)
  | None => first_anchor_href code
  end.

Definition url_truthy (u : option string) : option string :=
  match u with
  | Some (String c r) => Some (String c r)
  | _ => None
  end.

(** [dlRes.data.code.match(...)] needs [code] to be a string. *)
Definition code_of (data : JsVal) : M string :=
  match js_prop data "code" with
  | JStr c => ret c
  | _ => throw (TypeError "dlRes.data.code.match is not a function")
  end.

(** Lines 108-149: the body of the [try] around one item. *)
Definition download_contract (client : Client) (outputDir : string)
    (options : Options) (contractId : string) : M unit :=
  sleep (opt_throttleTime options) ;;
  data <- client_post_sbtCaptcha client contractId ;;
  if js_truthy data && is_status_ok (js_prop data "status") then
    code <- code_of data ;;
    match url_truthy (extract_downloadUrl code) with
    | Some downloadUrl =>
        pdf <- client_get client downloadUrl ;;
        fs_writeFile (pdf_path outputDir contractId) pdf ;;
        fs_appendFile CACHE_FILE (cache_line contractId) ;;
        cachedIds_add contractId ;;
        incr_downloaded
    | None => incr_failed
    end
  else incr_failed.

(** Lines 94-155: the body of [for (const contractId of contractsOnPage)]. *)
Definition process_contract (client : Client) (outputDir : string)
    (options : Options) (contractId : string) : M unit :=
  incr_scraped ;;
  cached <- cachedIds_has contractId ;;
  if cached then incr_skipped
  else try_catch (download_contract client outputDir options contractId)
                 (fun _ => incr_failed).

Definition listing_payload (fromDateStr toDateStr : string) (options : Options)
    (page : nat) : ListingPayload :=
  {| pl_fromDate := fromDateStr; pl_toDate := toDateStr;
     pl_department := opt_department options; pl_bno := opt_bno options;
     pl_buyer_category := opt_buyer_category options;
     pl_page := JsString.String_of_Z (Z.of_nat page) |}.

(** Lines 57-158: the body of the [try] around one page; the result is
    whether the loop goes on to the next page. *)
Definition scrape_page (client : Client) (fromDateStr toDateStr outputDir : string)
    (options : Options) (page : nat) : M bool :=
  data <- client_post_contract_details client
            (listing_payload fromDateStr toDateStr options page) ;;
  let contractNodes := block_header_onclicks data in
  if (length contractNodes =? 0)%nat then ret false
  else
    let ids := contractsOnPage contractNodes in
    if (length ids =? 0)%nat then ret false
    else
      for_of ids (process_contract client outputDir options) ;;
      sleep 1000 ;;
      ret true.

(** Lines 55-164: [while (hasNext)], at most [fuel] pages. *)
Fixpoint page_loop (fuel : nat) (client : Client) (fromDateStr toDateStr outputDir : string)
    (options : Options) (page : nat) : M unit :=
  match fuel with
  | O => out_of_fuel
  | S fuel' =>
      hasNext <- try_catch
                   (scrape_page client fromDateStr toDateStr outputDir options page)
                   (fun err =>
                      console_error (error_line err) ;;
                      ret false) ;;
      if hasNext
      then page_loop fuel' client fromDateStr toDateStr outputDir options (S page)
      else ret tt
  end.

Definition scrapeRange (fuel : nat) (client : Client) (fromDateStr toDateStr : string)
    (options : Options) : M unit :=
  let rangeFolder := fromDateStr +:+ "_to_" +:+ toDateStr in
  let outputDir := path_join PDF_ROOT rangeFolder in
  fs_ensureDir outputDir ;;
  modify (add_event (EvLogPeriod fromDateStr toDateStr)) ;;
  console_log (saving_line outputDir) ;;
  page_loop fuel client fromDateStr toDateStr outputDir options 0.

(** ** [runScraper] *)

(** Line 189: the ids of a cache log. *)
Definition cache_lines (content : string) : list string :=
  List.filter JsString.truthy
    (map JsString.trim (JsString.split JsString.newline content)).

Definition load_cache (content : string) : gset string :=
  list_to_set (cache_lines content).

(** Lines 220-240: the window after the one ending at [currentToStr], or
    [None] when the loop is done. *)
Definition next_window (today : JsDate.t) (currentToStr : string)
  : option (string * string) :=
  let lastEndDate := parseDate currentToStr in
  let nextStartDate := addDays lastEndDate 1 in
  if JsDate.gt nextStartDate (Some today) then None
  else
    let nextEndDate := addDays (addMonths nextStartDate 3) (-1) in
    let nextEndDate := if JsDate.gt nextEndDate (Some today)
                       then Some today else nextEndDate in
    if JsDate.gt nextStartDate nextEndDate then None
    else Some (formatDate nextStartDate, formatDate nextEndDate).

(** Lines 205-242: [while (!done)], at most [fuel] windows, each of at
    most [fuel] pages. *)
Fixpoint window_loop (fuel : nat) (pages : nat) (client : Client) (options : Options)
    (repeat : bool) (today : JsDate.t) (currentFromStr currentToStr : string) : M unit :=
  match fuel with
  | O => out_of_fuel
  | S fuel' =>
      scrapeRange pages client currentFromStr currentToStr options ;;
      if negb repeat then ret tt
      else match next_window today currentToStr with
           | None => ret tt
           | Some (nextFrom, nextTo) =>
               window_loop fuel' pages client options repeat today nextFrom nextTo
           end
  end.

Definition zero_stats : Stats :=
  {| scraped := 0; downloaded := 0; skipped := 0; failed := 0 |}.

(** Lines 184-190: the completion cache, read from the log if there is one. *)
Definition setup_cache : M unit :=
  modify (set_cachedIds (fun _ => ∅)) ;;
  fs_ensureDir PDF_ROOT ;;
  found <- fs_pathExists CACHE_FILE ;;
  if found
  then content <- fs_readFile CACHE_FILE ;;
       modify (set_cachedIds (fun c => load_cache content ∪ c))
  else ret tt.

Definition runScraper (fuel : nat) (answers : Answers) : M unit :=
  let client := {| client_cookie := cookie answers |} in
  setup_cache ;;
  n <- gets (fun s => size (cachedIds s)) ;;
  console_log (loaded_line n) ;;
  modify (set_stats (fun _ => zero_stats)) ;;
  today <- new_Date_now ;;
  window_loop fuel fuel client
    {| opt_throttleTime := throttleTime answers; opt_department := department answers;
       opt_bno := bno answers; opt_buyer_category := buyer_category answers |}
    (repeatTillDate answers) today (fromDate answers) (toDate answers) ;;
  console_log all_done_line ;;
  st <- gets stats ;;
  modify (add_event (EvLogStats st)).

End Scraper.

(* ===================================================================== *)
(** * The prompt validators of [index.js] *)
(* ===================================================================== *)

(** [validate: (input) => input ? true : 'Cookie cannot be empty'];
    [None] is [true], [Some msg] the message shown before asking again. *)
Definition validate_cookie (input : string) : option string :=
  if JsString.truthy input then None else Some "Cookie cannot be empty".

(** [/^\d{2}-\d{2}-\d{4}$/.test(input)] *)
Definition date_format_test (input : string) : bool :=
  match input with
  | String d1 (String d2 (String h1 (String m1 (String m2 (String h2
      (String y1 (String y2 (String y3 (String y4 EmptyString))))))))) =>
      JsString.is_digit d1 && JsString.is_digit d2 && Ascii.eqb h1 "-"
      && JsString.is_digit m1 && JsString.is_digit m2 && Ascii.eqb h2 "-"
      && JsString.is_digit y1 && JsString.is_digit y2
      && JsString.is_digit y3 && JsString.is_digit y4
  | _ => false
  end.

Definition validate_date (input : string) : option string :=
  if date_format_test input then None else Some "Invalid format".

(** The answers the prompt lets through to [runScraper]: inquirer asks a
    question again until its [validate] callback returns [true]. *)
Definition prompt_accepts (a : Answers) : bool :=
  bool_decide (validate_cookie (cookie a) = None)
  && bool_decide (validate_date (fromDate a) = None)
  && bool_decide (validate_date (toDate a) = None).

(* ===================================================================== *)
(** * The throttle filter of [index.js] *)
(* ===================================================================== *)

(** The longest run of decimal digits at the start of [s]. *)
Fixpoint leading_digits (s : string) : string :=
  match s with
  | EmptyString => EmptyString
  | String c r => if JsString.is_digit c then String c (leading_digits r) else EmptyString
  end.

(** The numbers [parseInt] returns: [NaN], an infinity, or a double
    whose value is an integer.  The sign of a zero is not kept. *)
Inductive JsInt :=
| IntNaN
| IntInfinity (negative : bool)
| IntVal (z : Z).

(** The double nearest to the integer [n >= 0], as the conversion of an
    integer to a JavaScript number gives it: up to 53 significant bits
    the integer itself; beyond, the bits below the 53rd are rounded off,
    to the nearest and in a tie to the even significand; [None] stands
    for the infinity, reached from 2^1024 on. *)
Definition nearest_double (n : Z) : option Z :=
  let bits := (Z.log2 n + 1)%Z in
  if (bits <=? 53)%Z then Some n
  else
    let sh := (bits - 53)%Z in
    let q := Z.shiftr n sh in
    let r := (n - Z.shiftl q sh)%Z in
    let half := Z.shiftl 1 (sh - 1) in
    let q' := if (half <? r)%Z || ((r =? half)%Z && Z.odd q) then (q + 1)%Z else q in
    let v := Z.shiftl q' sh in
    if (v <? 2 ^ 1024)%Z then Some v else None.

(** [parseInt(s, 10)]: leading white space is dropped, one sign is read,
    then the longest run of decimal digits; the result is [NaN] when
    that run is empty, and otherwise the double nearest to the integer
    the run spells.  With the radix given as 10 no [0x] prefix is
    recognised. *)
Definition parseInt (s : string) : JsInt :=
  let t := JsString.trimStart s in
  let '(negative, body) :=
    match t with
    | String c r =>
        if Ascii.eqb c "-" then (true, r)
        else if Ascii.eqb c "+" then (false, r)
        else (false, t)
    | EmptyString => (false, t)
    end in
  match leading_digits body with
  | EmptyString => IntNaN
  | z => match nearest_double (JsString.digits_value 0 z) with
         | Some v => IntVal (if negative then - v else v)%Z
         | None => IntInfinity negative
         end
  end.

(** [filter: (input) => parseInt(input, 10)] of the throttle question. *)
Definition throttle_filter (input : string) : JsInt := parseInt input.

(* ===================================================================== *)
(** * The text helpers of the extractor *)
(* ===================================================================== *)

(** [s.indexOf(pat)], with [None] for [-1]: the first position at which
    [pat] starts in [s]. *)
Fixpoint indexOf (pat s : string) : option nat :=
  match JsString.strip_prefix pat s with
  | Some _ => Some 0%nat
  | None => match s with
            | EmptyString => None
            | String _ r => option_map S (indexOf pat r)
            end
  end.

Fixpoint string_drop (n : nat) (s : string) : string :=
  match n, s with
  | O, _ => s
  | S n', String _ r => string_drop n' r
  | S _, EmptyString => EmptyString
  end.

Fixpoint string_take (n : nat) (s : string) : string :=
  match n, s with
  | O, _ => EmptyString
  | S n', String c r => String c (string_take n' r)
  | S _, EmptyString => EmptyString
  end.

(** [s.substring(start)] and [s.substring(start, stop)]: indices past
    the end stand for the end, and the two indices are taken in
    increasing order. *)
Definition substring_from (start : nat) (s : string) : string := string_drop start s.

Definition substring (start stop : nat) (s : string) : string :=
  string_take (Nat.max start stop - Nat.min start stop)
    (string_drop (Nat.min start stop) s).

Definition is_ascii (c : ascii) : bool := (JsString.code c <=? 127)%Z.

(** The first [replace] of [cleanText]: every code unit above 127 is
    dropped. *)
Fixpoint remove_non_ascii (text : string) : string :=
  match text with
  | EmptyString => EmptyString
  | String c r => if is_ascii c then String c (remove_non_ascii r) else remove_non_ascii r
  end.

(** The second [replace] of [cleanText]: every maximal run of white
    space becomes one space; [in_run] tells that the character before
    was white space. *)
Fixpoint collapse_white_space (in_run : bool) (text : string) : string :=
  match text with
  | EmptyString => EmptyString
  | String c r =>
      if JsString.is_white_space c
      then (if in_run then collapse_white_space true r
            else String " " (collapse_white_space true r))
      else String c (collapse_white_space false r)
  end.

(** [cleanText] *)
Definition cleanText (text : string) : string :=
  JsString.trim (collapse_white_space false (remove_non_ascii text)).

(** The helper [extractBetween] of [extractFromPdf], with the text it
    closes over as first argument. *)
Definition extractBetween (text startStr endStr : string) : string :=
  match indexOf startStr text with
  | None => EmptyString
  | Some startIndex =>
      let remainder := substring_from (startIndex + String.length startStr) text in
      if negb (JsString.truthy endStr) then remainder
      else match indexOf endStr remainder with
           | None => remainder
           | Some endIndex => JsString.trim (substring 0 endIndex remainder)
           end
  end.

(* ===================================================================== *)
(** * The search for documents of [processAllPdfs] *)
(* ===================================================================== *)

(** [c.toLowerCase()] on one code unit below 256: the letters A to Z
    and the capital letters of Latin-1 (192 to 222, the multiplication
    sign 215 apart) move up by 32. *)
Definition lower_char (c : ascii) : ascii :=
  let n := JsString.code c in
  if ((65 <=? n) && (n <=? 90) || (192 <=? n) && (n <=? 222) && negb (n =? 215))%Z
  then JsString.chr (n + 32)
  else c.

(** [s.toLowerCase()] *)
Fixpoint toLowerCase (s : string) : string :=
  match s with
  | EmptyString => EmptyString
  | String c r => String (lower_char c) (toLowerCase r)
  end.

(** [s.endsWith(suffix)] *)
Fixpoint endsWith (s suffix : string) : bool :=
  String.eqb s suffix
  || match s with
     | EmptyString => false
     | String _ r => endsWith r suffix
     end.

(** What is found at a path: a file, something [fs.stat] throws on (a
    dangling link, a path without permission), a directory [fs.readdir]
    throws on, or a directory with the names [fs.readdir] gives for it,
    in the order given, each with what is found there. *)
Inductive FsNode :=
| FsFile
| FsBroken
| FsUnreadable
| FsDir (entries : FsEntries)
with FsEntries :=
| FsNil
| FsCons (name : string) (found : FsNode) (rest : FsEntries).

(** [traverse(dir)] of [processAllPdfs], on what is found at [dir]: the
    paths pushed on [pdfFiles], in order.  An exception of [readdir] or
    of [stat] leaves the loop over the directory at hand and is logged
    there; [traverse] itself never throws.  [traverse_entries] is the
    loop [for (const f of files)]. *)
Fixpoint traverse (dir : string) (found : FsNode) {struct found} : list string :=
  match found with
  | FsDir files => traverse_entries dir files
  | _ => []
  end
with traverse_entries (dir : string) (files : FsEntries) {struct files} : list string :=
  match files with
  | FsNil => []
  | FsCons f child rest =>
      let fullPath := path_join dir f in
      match child with
      | FsBroken => []
      | FsDir _ | FsUnreadable => traverse fullPath child ++ traverse_entries dir rest
      | FsFile =>
          (if endsWith (toLowerCase f) ".pdf" then [fullPath] else [])
          ++ traverse_entries dir rest
      end
  end.

(** The entries of a directory, from a list. *)
Fixpoint entries_of (l : list (string * FsNode)) : FsEntries :=
  match l with
  | [] => FsNil
  | (f, child) :: rest => FsCons f child (entries_of rest)
  end.

(* ===================================================================== *)
(** * The database: [db.js] and [manager.js] *)
(* ===================================================================== *)

(** A row of a query result: its columns by name. *)
Definition Row : Type := list (string * string).

(** What [db.js] and [manager.js] do to the outside, with its answers. *)
Inductive DbEvent :=
| DbConnect (ok : bool)
| DbQuery (sql : string) (params : list string) (res : Exn + list Row)
| DbRelease
| DbLog (line : string)
| DbLogError (line : string)
| DbLogException (label : string) (err : Exn)
| DbTable (cells : list (string * option string))
| DbTableRows (rows : list Row)
| DbPrompt (answer : string).

(** The pool, the server behind it and the user at the prompt; each
    answer may depend on the events so far, newest first. *)
Class Database := {
  pool_connect : list DbEvent -> option Exn;
  client_query : list DbEvent -> string -> list string -> Exn + list Row;
  prompt_term : list DbEvent -> string
}.

(** Computations over the events so far, with exceptions. *)
Definition D (A : Type) : Type := list DbEvent -> list DbEvent * (Exn + A).

Definition d_ret {A} (a : A) : D A := fun t => (t, inr a).

Definition d_bind {A B} (m : D A) (k : A -> D B) : D B := fun t =>
  match m t with
  | (t', inr a) => k a t'
  | (t', inl e) => (t', inl e)
  end.

Definition d_throw {A} (e : Exn) : D A := fun t => (t, inl e).

Definition d_emit (e : DbEvent) : D unit := fun t => (e :: t, inr tt).

(** [try { body } catch (err) { handler }] *)
Definition d_try_catch {A} (body : D A) (handler : Exn -> D A) : D A := fun t =>
  match body t with
  | (t', inl e) => handler e t'
  | r => r
  end.

(** [try { body } finally { cleanup }], for a [cleanup] that may throw
    in its turn. *)
Definition d_finally {A} (body : D A) (cleanup : D unit) : D A := fun t =>
  match body t with
  | (t', r) =>
      match cleanup t' with
      | (t2, inr _) => (t2, r)
      | (t2, inl e) => (t2, inl e)
      end
  end.

Declare Scope db_scope.
Delimit Scope db_scope with db.
Notation "x <- m ;; k" := (d_bind m (fun x => k))
  (at level 100, m at next level, right associativity) : db_scope.
Notation "m ;; k" := (d_bind m (fun _ => k))
  (at level 100, right associativity) : db_scope.

Section Db.
Context `{Database}.
Local Open Scope db_scope.

(** [await pool.connect()] *)
Definition db_connect : D unit := fun t =>
  match pool_connect t with
  | Some e => (DbConnect false :: t, inl e)
  | None => (DbConnect true :: t, inr tt)
  end.

(** [await client.query(sql, params)], giving [res.rows] *)
Definition db_query (sql : string) (params : list string) : D (list Row) := fun t =>
  let r := client_query t sql params in
  (DbQuery sql params r :: t,
   match r with inl e => inl e | inr rows => inr rows end).

(** [client.release()] *)
Definition db_release : D unit := d_emit DbRelease.

Definition db_log (line : string) : D unit := d_emit (DbLog line).

Definition db_error (line : string) : D unit := d_emit (DbLogError line).

(** [rows[0].count]: reading a property of [undefined] throws. *)
Fixpoint column (name : string) (row : Row) : option string :=
  match row with
  | [] => None
  | (k, v) :: rest => if String.eqb k name then Some v else column name rest
  end.

Definition first_count (rows : list Row) : D (option string) :=
  match rows with
  | [] => d_throw (TypeError "Cannot read properties of undefined (reading 'count')")
  | row :: _ => d_ret (column "count" row)
  end.

(** ** [db.js] *)
Definition create_organisations : string :=
"
      CREATE TABLE IF NOT EXISTS organisations (
        id SERIAL PRIMARY KEY,
        name TEXT UNIQUE,
        type TEXT,
        ministry TEXT,
        department TEXT,
        office_zone TEXT
      );
    ".

Definition create_buyers : string :=
"
      CREATE TABLE IF NOT EXISTS buyers (
        id SERIAL PRIMARY KEY,
        name TEXT,
        designation TEXT,
        email TEXT UNIQUE,
        contact_number TEXT,
        address TEXT,
        gstin TEXT
      );
    ".

Definition create_sellers : string :=
"
      CREATE TABLE IF NOT EXISTS sellers (
        id SERIAL PRIMARY KEY,
        gem_seller_id TEXT UNIQUE,
        company_name TEXT,
        email TEXT,
        contact_number TEXT,
        address TEXT,
        msme_reg_number TEXT,
        mse_social_category TEXT,
        mse_gender TEXT,
        gstin TEXT
      );
    ".

Definition create_contracts : string :=
"
      CREATE TABLE IF NOT EXISTS contracts (
        id SERIAL PRIMARY KEY,
        contract_number TEXT UNIQUE,
        contract_date TIMESTAMP,
        total_value NUMERIC,
        status TEXT,
        buyer_id INTEGER REFERENCES buyers(id),
        seller_id INTEGER REFERENCES sellers(id),
        organisation_id INTEGER REFERENCES organisations(id),
        paying_authority_details JSONB
      );
    ".

Definition create_products : string :=
"
      CREATE TABLE IF NOT EXISTS products (
        id SERIAL PRIMARY KEY,
        contract_id INTEGER REFERENCES contracts(id),
        name TEXT,
        brand TEXT,
        model TEXT,
        hsn_code TEXT,
        quantity INTEGER,
        unit_price NUMERIC,
        total_price NUMERIC,
        full_details JSONB
      );
    ".

Definition create_consignees : string :=
"
      CREATE TABLE IF NOT EXISTS consignees (
        id SERIAL PRIMARY KEY,
        contract_id INTEGER REFERENCES contracts(id),
        name TEXT,
        designation TEXT,
        email TEXT,
        contact TEXT,
        address TEXT,
        gstin TEXT,
        item_name TEXT,
        quantity INTEGER,
        delivery_start_date TIMESTAMP,
        delivery_end_date TIMESTAMP
      );
    ".

(** The tables of [initDB], in the order of their creation. *)
Definition schema : list string :=
  [create_organisations; create_buyers; create_sellers;
   create_contracts; create_products; create_consignees].

Fixpoint run_queries (sqls : list string) : D unit :=
  match sqls with
  | [] => d_ret tt
  | sql :: rest => db_query sql [] ;; run_queries rest
  end.

Definition initDB : D unit :=
  db_connect ;;
  d_finally
    (d_try_catch
       (db_log "Validating Database Schema..." ;;
        run_queries schema ;;
        db_log "Database Schema Initialized.")
       (fun err =>
          d_emit (DbLogException "Error initializing DB:" err) ;;
          d_throw err))
    db_release.

(** ** [manager.js] *)

Definition stats_header : string := newline_str +:+ "--- Database Statistics ---".

Definition showStats : D unit :=
  db_connect ;;
  d_finally
    (d_try_catch
       (db_log stats_header ;;
        contractCount <- db_query "SELECT COUNT(*) FROM contracts" [] ;;
        buyerCount <- db_query "SELECT COUNT(*) FROM buyers" [] ;;
        sellerCount <- db_query "SELECT COUNT(*) FROM sellers" [] ;;
        orgCount <- db_query "SELECT COUNT(*) FROM organisations" [] ;;
        productCount <- db_query "SELECT COUNT(*) FROM products" [] ;;
        contracts <- first_count contractCount ;;
        buyers <- first_count buyerCount ;;
        sellers <- first_count sellerCount ;;
        orgs <- first_count orgCount ;;
        products <- first_count productCount ;;
        d_emit (DbTable [("Contracts", contracts); ("Unique Buyers", buyers);
                         ("Unique Sellers", sellers); ("Organisations", orgs);
                         ("Products", products)]))
       (fun err => db_error ("Error fetching stats: " +:+ exn_message err)))
    db_release.

Definition search_header : string := newline_str +:+ "--- Search Contracts ---".

Definition search_query : string :=
"
            SELECT 
                c.contract_number,
                TO_CHAR(c.contract_date, 'DD-MM-YYYY') as date,
                o.name as org_name,
                b.designation as buyer_desig,
                s.company_name as seller_name,
                c.total_value
            FROM contracts c
            LEFT JOIN organisations o ON c.organisation_id = o.id
            LEFT JOIN buyers b ON c.buyer_id = b.id
            LEFT JOIN sellers s ON c.seller_id = s.id
            WHERE 
                c.contract_number ILIKE $1 OR
                o.name ILIKE $1 OR
                b.name ILIKE $1 OR
                b.designation ILIKE $1 OR
                s.company_name ILIKE $1
            LIMIT 20
        ".

Definition showing_line (n : nat) : string :=
  "Showing " +:+ JsString.String_of_Z (Z.of_nat n) +:+ " results.".

Definition searchContracts : D unit :=
  db_log search_header ;;
  term <- (fun t => let a := prompt_term t in (DbPrompt a :: t, inr a)) ;;
  if negb (JsString.truthy term) then d_ret tt
  else
    db_connect ;;
    d_finally
      (d_try_catch
         (rows <- db_query search_query ["%" +:+ term +:+ "%"] ;;
          if (length rows =? 0)%nat then db_log "No matches found."
          else d_emit (DbTableRows rows) ;; db_log (showing_line (length rows)))
         (fun err => db_error ("Search error: " +:+ exn_message err)))
      db_release.

End Db.

(* ===================================================================== *)
(** * Runs and what can be observed of them *)
(* ===================================================================== *)

(** A process starts with a file system and nothing done yet;
    [runScraper] creates [stats] and [cachedIds] itself. *)
Definition boot (dirs : gset string) (files : gmap string string) : State :=
  {| fs_dirs := dirs; fs_files := files;
     stats := {| scraped := 0; downloaded := 0; skipped := 0; failed := 0 |};
     cachedIds := ∅; trace := [] |}.

(** The events in the order they happened. *)
Definition history (s : State) : list Event := rev (trace s).

(** ** A small portal to run the model against *)
Module Demo.

Definition onclick_of (id : string) : option string :=
  Some ("getContract('" +:+ id +:+ "')").

Definition link_code (url : string) : string :=
  "<a href=" +:+ String JsString.dquote (url +:+ String JsString.dquote ">PDF</a>").

Definition ok_body (url : string) : JsVal :=
  JObj (PCons "status" (JStr "1") (PCons "code" (JStr (link_code url)) PNil)).

(** Page 0 lists five contracts, every later page is empty; the token
    exchange rejects [C4] and accepts the others; nothing else fails. *)
#[local] Instance portal : Env := {|
  post_contract_details := fun _ _ p =>
    inr (if String.eqb (pl_page p) "0" then "page-0" else "empty");
  post_sbtCaptcha := fun _ _ oid =>
    inr (if String.eqb oid "C4" then JObj (PCons "status" (JStr "0") PNil)
         else ok_body ("https:\/\/gem.gov.in\/doc\/" +:+ oid));
  get_arraybuffer := fun _ _ url => inr ("%PDF " +:+ url);
  fs_fails := fun _ _ => false;
  clock := fun _ => JsDate.mk (12 * 2024 + 5) 15 36000000;
  block_header_onclicks := fun data =>
    if String.eqb data "page-0"
    then [onclick_of "C1"; onclick_of "C2"; onclick_of "C3"; onclick_of "C4"; onclick_of "C5"]
    else [];
  first_anchor_href := fun _ => None
|}.

(** Has the token exchange been asked for [oid] before? *)
Definition asked_before (t : list Event) (oid : string) : bool :=
  existsb (fun e => match e with
                    | EvPostCaptcha o _ => String.eqb o oid
                    | _ => false
                    end) t.

(** The same portal with a passing fault: the token exchange rejects
    [C4] the first time it is asked and accepts it afterwards. *)
#[local] Instance flaky : Env := {|
  post_contract_details := fun _ _ p =>
    inr (if String.eqb (pl_page p) "0" then "page-0" else "empty");
  post_sbtCaptcha := fun t _ oid =>
    inr (if String.eqb oid "C4" && negb (asked_before t oid)
         then JObj (PCons "status" (JStr "0") PNil)
         else ok_body ("https:\/\/gem.gov.in\/doc\/" +:+ oid));
  get_arraybuffer := fun _ _ url => inr ("%PDF " +:+ url);
  fs_fails := fun _ _ => false;
  clock := fun _ => JsDate.mk (12 * 2024 + 5) 15 36000000;
  block_header_onclicks := fun data =>
    if String.eqb data "page-0"
    then [onclick_of "C1"; onclick_of "C2"; onclick_of "C3"; onclick_of "C4"; onclick_of "C5"]
    else [];
  first_anchor_href := fun _ => None
|}.

(** A portal that lists two contracts and resolves both. *)
#[local] Instance reliable : Env := {|
  post_contract_details := fun _ _ p =>
    inr (if String.eqb (pl_page p) "0" then "page-0" else "empty");
  post_sbtCaptcha := fun _ _ oid =>
    inr (ok_body ("https:\/\/gem.gov.in\/doc\/" +:+ oid));
  get_arraybuffer := fun _ _ url => inr ("%PDF " +:+ url);
  fs_fails := fun _ _ => false;
  clock := fun _ => JsDate.mk (12 * 2024 + 5) 15 36000000;
  block_header_onclicks := fun data =>
    if String.eqb data "page-0" then [onclick_of "C1"; onclick_of "C6"] else [];
  first_anchor_href := fun _ => None
|}.

(** A portal whose every request fails. *)
#[local] Instance offline : Env := {|
  post_contract_details := fun _ _ _ => inl (TransportError "ECONNRESET");
  post_sbtCaptcha := fun _ _ _ => inl (TransportError "ECONNRESET");
  get_arraybuffer := fun _ _ _ => inl (TransportError "ECONNRESET");
  fs_fails := fun _ _ => false;
  clock := fun _ => JsDate.mk (12 * 2024 + 5) 15 36000000;
  block_header_onclicks := fun _ => [];
  first_anchor_href := fun _ => None
|}.

Definition answers : Answers := {|
  cookie := "session=abc"; throttleTime := 500;
  fromDate := "01-01-2024"; toDate := "31-03-2024";
  department := EmptyString; bno := EmptyString;
  buyer_category := "home_medi"; repeatTillDate := false
|}.

Definition log3 : string :=
  "C1" +:+ newline_str +:+ "C2" +:+ newline_str +:+ "C3" +:+ newline_str.

Definition disk : gmap string string := {[ CACHE_FILE := log3 ]}.

(** Answers that ask to go on until today. *)
Definition answers_repeat : Answers := {|
  cookie := "session=abc"; throttleTime := 500;
  fromDate := "01-01-2023"; toDate := "31-03-2023";
  department := EmptyString; bno := EmptyString;
  buyer_category := "home_medi"; repeatTillDate := true
|}.

(** Answers the prompt would not have let through. *)
Definition answers_unchecked : Answers := {|
  cookie := EmptyString; throttleTime := 500;
  fromDate := "2024/01/01"; toDate := "tomorrow";
  department := EmptyString; bno := EmptyString;
  buyer_category := "home_medi"; repeatTillDate := false
|}.

Definition client : Client := {| client_cookie := "session=abc" |}.

Definition options : Options :=
  {| opt_throttleTime := 500; opt_department := EmptyString;
     opt_bno := EmptyString; opt_buyer_category := "home_medi" |}.

(** The directories created, the pages requested and the documents
    written among some events. *)
Definition dirs_created (evs : list Event) : list string :=
  omap (fun e => match e with EvEnsureDir p true => Some p | _ => None end) evs.

Definition pages_requested (evs : list Event) : list string :=
  omap (fun e => match e with EvPostListing p _ => Some (pl_page p) | _ => None end) evs.

Definition files_written (evs : list Event) : list string :=
  omap (fun e => match e with EvWriteFile p _ true => Some p | _ => None end) evs.

End Demo.

(** ** Relations every step of a computation respects *)

(** [preserves R m]: from any state, running [m] leads to a state related
    to it by [R], however [m] ends. *)
Definition preserves {A} (R : State -> State -> Prop) (m : M A) : Prop :=
  forall s, R s (exec m s).

(** ** The counters *)

Definition stats_balanced (st : Stats) : Prop :=
  (scraped st = downloaded st + skipped st + failed st)%nat.

(** [scraped] and exactly one of the three other counters went up by one. *)
Definition counted_once (st st' : Stats) : Prop :=
  scraped st' = S (scraped st) /\
  (   (downloaded st' = S (downloaded st) /\ skipped st' = skipped st /\ failed st' = failed st)
   \/ (downloaded st' = downloaded st /\ skipped st' = S (skipped st) /\ failed st' = failed st)
   \/ (downloaded st' = downloaded st /\ skipped st' = skipped st /\ failed st' = S (failed st))).

(** The counters change by steps that keep them balanced. *)
Definition keeps_balance (s s' : State) : Prop :=
  stats_balanced (stats s) -> stats_balanced (stats s').

(** ** One item *)

(** The answers of the outside that carry [id] through the three steps
    of the resolver from state [s]: the token exchange answers with status
    ['1'] and a code holding a link, the link can be fetched, and both
    disk writes succeed. *)
Definition resolves `{Env} (client : Client) (outputDir : string) (options : Options)
    (id : string) (s : State) (data : JsVal) (code url pdf : string) : Prop :=
  let t1 := EvSleep (opt_throttleTime options) :: trace s in
  let t2 := EvPostCaptcha id (inr data) :: t1 in
  let t3 := EvGet url (inr pdf) :: t2 in
  let t4 := EvWriteFile (pdf_path outputDir id) pdf true :: t3 in
  post_sbtCaptcha t1 client id = inr data
  /\ js_prop data "status" = JStr "1"
  /\ js_prop data "code" = JStr code
  /\ extract_downloadUrl code = Some url /\ url <> EmptyString
  /\ get_arraybuffer t2 client url = inr pdf
  /\ fs_fails t3 (OpWriteFile (pdf_path outputDir id) pdf) = false
  /\ fs_fails t4 (OpAppendFile CACHE_FILE (cache_line id)) = false.

(** What a successful resolution does, oldest event first. *)
Definition download_events (outputDir : string) (options : Options) (id : string)
    (data : JsVal) (url pdf : string) : list Event :=
  [ EvSleep (opt_throttleTime options);
    EvPostCaptcha id (inr data);
    EvGet url (inr pdf);
    EvWriteFile (pdf_path outputDir id) pdf true;
    EvAppendFile CACHE_FILE (cache_line id) true;
    EvCacheAdd id ].

(** The content of the cache log; a missing log reads as empty. *)
Definition cache_log (s : State) : string :=
  default EmptyString (fs_files s !! CACHE_FILE).

Definition is_Downloaded (outputDir : string) (options : Options) (id : string)
    (data : JsVal) (url pdf : string) (s s' : State) : Prop :=
  history s' = history s ++ download_events outputDir options id data url pdf
  /\ downloaded (stats s') = S (downloaded (stats s))
  /\ failed (stats s') = failed (stats s)
  /\ skipped (stats s') = skipped (stats s)
  /\ cachedIds s' = {[id]} ∪ cachedIds s
  /\ fs_files s' !! CACHE_FILE = Some (cache_log s +:+ cache_line id)
  /\ fs_files s' !! pdf_path outputDir id = Some pdf.

Definition is_Failed (id : string) (s s' : State) : Prop :=
  failed (stats s') = S (failed (stats s))
  /\ downloaded (stats s') = downloaded (stats s)
  /\ skipped (stats s') = skipped (stats s)
  /\ cachedIds s' = cachedIds s
  /\ fs_files s' !! CACHE_FILE = fs_files s !! CACHE_FILE.

Definition is_Skipped (s s' : State) : Prop :=
  skipped (stats s') = S (skipped (stats s))
  /\ downloaded (stats s') = downloaded (stats s)
  /\ failed (stats s') = failed (stats s)
  /\ cachedIds s' = cachedIds s
  /\ fs_files s' = fs_files s
  /\ fs_dirs s' = fs_dirs s
  /\ trace s' = trace s.

(** ** Events *)

(** [extends P s s']: [s'] has the events of [s] and, after them, only
    events that satisfy [P]. *)
Definition extends (P : Event -> Prop) (s s' : State) : Prop :=
  exists evs, trace s' = evs ++ trace s /\ Forall P evs.

Definition is_listing (e : Event) : Prop :=
  match e with EvPostListing _ _ => True | _ => False end.

Definition is_period (e : Event) : Prop :=
  match e with EvLogPeriod _ _ => True | _ => False end.

(** The order of the record step, on events newest first: an insertion
    into the set comes right after the successful append of that id's
    line to the log, and an append to the log right after the successful
    write of that id's document. *)
Fixpoint record_ordered (t : list Event) : Prop :=
  match t with
  | [] => True
  | EvCacheAdd id :: rest =>
      (exists older, rest = EvAppendFile CACHE_FILE (cache_line id) true :: older)
      /\ record_ordered rest
  | EvAppendFile path data ok :: rest =>
      (path = CACHE_FILE ->
       exists id dir pdf older,
         data = cache_line id /\ rest = EvWriteFile (pdf_path dir id) pdf true :: older)
      /\ record_ordered rest
  | _ :: rest => record_ordered rest
  end.

Definition keeps_record_order (s s' : State) : Prop :=
  record_ordered (trace s) -> record_ordered (trace s').

(** ** The pages of one window *)


(** The answers to a page request after which [scrapeRange] asks for no
    further page: the request threw, or the page has no listing block, or
    no id could be extracted from its blocks. *)
Definition ends_walk `{Env} (r : Exn + string) : bool :=
  match r with
  | inl _ => true
  | inr data =>
      let contractNodes := block_header_onclicks data in
      (length contractNodes =? 0)%nat
      || (length (contractsOnPage contractNodes) =? 0)%nat
  end.


(** ** Exceptions that leave a computation *)

(** [throws_only P m]: an exception leaving [m] satisfies [P]. *)
Definition throws_only {A} (P : Exn -> Prop) (m : M A) : Prop :=
  forall s e, outcome m s = Throw e -> P e.

Definition is_storage_error (e : Exn) : Prop :=
  match e with StorageError _ => True | _ => False end.

(** ** The windows of a run *)

(** The windows a run opened, in order. *)
Definition periods (evs : list Event) : list (string * string) :=
  omap (fun e => match e with EvLogPeriod f t => Some (f, t) | _ => None end) evs.

(** The calendar day after [x], at the same time of day. *)
Definition next_day (x : JsDate.t) : JsDate.t :=
  if (JsDate.dom x <? JsDate.days_in_month (JsDate.ym x))%Z
  then JsDate.mk (JsDate.ym x) (JsDate.dom x + 1) (JsDate.tod x)
  else JsDate.mk (JsDate.ym x + 1) 1 (JsDate.tod x).

(** The year of a date is 100 or later.  Earlier years print with fewer
    than three digits, and [new Date] reads a year below 100 as 19xx. *)
Definition year_from_100 (x : JsDate.t) : Prop := (1200 <= JsDate.ym x)%Z.

(** Window [w2] follows window [w1].  The to-date of [w1] is read as the
    code reads it, with [parseDate]; the from-date of [w2] is the date the
    code printed into it with [formatDate].  That from-date is the to-date
    of [w1] plus one day, which is the next calendar day; [w2] starts
    strictly after [w1] ends and does not end before it starts.  Read back
    with [parseDate], the from-string gives the same date again whenever
    its year has at least three digits. *)
Definition follows (w1 w2 : string * string) : Prop :=
  exists end1 start2 end2,
    parseDate (snd w1) = Some end1
    /\ addDays (Some end1) 1 = Some start2
    /\ start2 = next_day end1
    /\ fst w2 = formatDate (Some start2)
    /\ parseDate (snd w2) = Some end2
    /\ JsDate.lt end1 start2
    /\ JsDate.le start2 end2
    /\ (year_from_100 start2 -> parseDate (fst w2) = Some start2).

(** The windows of a window loop that starts at [w]: [w] first, and after
    a window, the one [next_window] gives for its to-date. *)
Fixpoint window_chain (today : JsDate.t) (w : string * string)
    (ws : list (string * string)) : Prop :=
  match ws with
  | [] => True
  | w' :: rest =>
      w' = w
      /\ (rest = []
          \/ exists w2, next_window today (snd w) = Some w2 /\ window_chain today w2 rest)
  end.

(** The directories only grow. *)
Definition dirs_grow (s s' : State) : Prop := fs_dirs s ⊆ fs_dirs s'.

(** ** Running again *)

(** A log that is missing, empty, or ends with a newline. *)
Definition log_terminated (log : string) : Prop :=
  log = EmptyString \/ exists l, log = l +:+ newline_str.

Fixpoint has_newline (s : string) : bool :=
  match s with
  | EmptyString => false
  | String c r => Ascii.eqb c JsString.newline || has_newline r
  end.

(** An id the loader of the log gives back as it was recorded: no white
    space around it and no newline inside. *)
Definition clean_id (id : string) : Prop :=
  JsString.trim id = id /\ has_newline id = false /\ id <> EmptyString.

(** The ids extracted from the listing pages among some events. *)
Definition listed_ids `{Env} (evs : list Event) : list string :=
  flat_map (fun e => match e with
                     | EvPostListing _ (inr data) =>
                         contractsOnPage (block_header_onclicks data)
                     | _ => []
                     end) evs.

(** The events of the resolver. *)
Definition is_resolver_event (e : Event) : Prop :=
  match e with
  | EvPostCaptcha _ _ | EvGet _ _ | EvWriteFile _ _ _ | EvAppendFile _ _ _
  | EvCacheAdd _ => True
  | _ => False
  end.

(** Every clean id of the cache set can be read back from the log. *)
Definition log_covers_cache (s : State) : Prop :=
  log_terminated (cache_log s)
  /\ forall id, id ∈ cachedIds s -> clean_id id -> id ∈ load_cache (cache_log s).

Definition keeps_log_cover (s s' : State) : Prop :=
  log_covers_cache s -> log_covers_cache s'.

(** From [s] to [s'] every listed id was skipped, provided every listed
    id was in the cache set: the set and the [downloaded] and [failed]
    counters are as before, [scraped] and [skipped] rose together, and
    the resolver did nothing. *)
Definition all_skipped `{Env} (s s' : State) : Prop :=
  exists evs,
    trace s' = evs ++ trace s
    /\ ((forall id, id ∈ listed_ids evs -> id ∈ cachedIds s) ->
        cachedIds s' = cachedIds s
        /\ downloaded (stats s') = downloaded (stats s)
        /\ failed (stats s') = failed (stats s)
        /\ (scraped (stats s') + skipped (stats s)
            = scraped (stats s) + skipped (stats s'))%nat
        /\ Forall (fun e => ~ is_resolver_event e) evs).

(** The events of [s'] that came after those of [s], oldest first. *)
Definition events_since (s s' : State) : list Event :=
  drop (length (trace s)) (history s').

(** Among the events [t], the document of [id] was written and its line
    appended to the log. *)
Definition recorded_on_disk (id : string) (t : list Event) : Prop :=
  (exists dir pdf, EvWriteFile (pdf_path dir id) pdf true ∈ t)
  /\ EvAppendFile CACHE_FILE (cache_line id) true ∈ t.

(** From [s] to [s'] events were only added, and an id of the cache set of
    [s'] was in the set of [s] already or has been recorded on disk. *)
Definition marks_justified (s s' : State) : Prop :=
  (exists evs, trace s' = evs ++ trace s)
  /\ forall id, id ∈ cachedIds s' -> id ∈ cachedIds s \/ recorded_on_disk id (trace s').

(* ===================================================================== *)
(** * Further observations *)
(* ===================================================================== *)

(** ** The calendar *)

(** The calendar day before [x], at the same time of day. *)
Definition prev_day (x : JsDate.t) : JsDate.t :=
  if (1 <? JsDate.dom x)%Z
  then JsDate.mk (JsDate.ym x) (JsDate.dom x - 1) (JsDate.tod x)
  else JsDate.mk (JsDate.ym x - 1) (JsDate.days_in_month (JsDate.ym x - 1))
         (JsDate.tod x).

(** [k] calendar days after [x], or [-k] days before it when [k] is
    negative, one day at a time. *)
Definition shift_days (x : JsDate.t) (k : Z) : JsDate.t :=
  if (0 <=? k)%Z then Nat.iter (Z.to_nat k) next_day x
  else Nat.iter (Z.to_nat (- k)) prev_day x.

(** [next_day] and [prev_day] on a month index and a day. *)
Definition next_pair (p : Z * Z) : Z * Z :=
  if (snd p <? JsDate.days_in_month (fst p))%Z then (fst p, snd p + 1)%Z
  else (fst p + 1, 1)%Z.

Definition prev_pair (p : Z * Z) : Z * Z :=
  if (1 <? snd p)%Z then (fst p, snd p - 1)%Z
  else (fst p - 1, JsDate.days_in_month (fst p - 1))%Z.

(** ** The planner *)

Definition is_now (e : Event) : Prop :=
  match e with EvNow _ => True | _ => False end.

(** The printed form of the [Invalid Date]. *)
Definition invalid_date_str : string := formatDate None.

(** A later window of a run whose clock read [today]: its from-string is
    a printed date [start], its to-string reads as a date [stop] not
    before [start], not after [today], and before the day three months
    after [start]. *)
Definition window_within (today : JsDate.t) (w : string * string) : Prop :=
  exists start stop limit,
    fst w = formatDate (Some start)
    /\ parseDate (snd w) = Some stop
    /\ JsDate.gtb start stop = false
    /\ JsDate.gtb stop today = false
    /\ addMonths (Some start) 3 = Some limit
    /\ JsDate.lt stop limit.

(** ** Pacing *)

(** The requests are paced, on events newest first: a token exchange
    comes right after a delay of [throttle] milliseconds, and a listing
    request right after the line that opens a window's folder (then it
    asks for page 0) or right after a delay of 1000 milliseconds. *)
Fixpoint paced (throttle : Z) (t : list Event) : Prop :=
  match t with
  | [] => True
  | EvPostCaptcha _ _ :: rest =>
      (exists older, rest = EvSleep throttle :: older) /\ paced throttle rest
  | EvPostListing p _ :: rest =>
      ((exists dir older, rest = EvLog (saving_line dir) :: older /\ pl_page p = "0")
       \/ (exists older, rest = EvSleep 1000 :: older))
      /\ paced throttle rest
  | _ :: rest => paced throttle rest
  end.

Definition keeps_pace (throttle : Z) (s s' : State) : Prop :=
  paced throttle (trace s) -> paced throttle (trace s').

(** The events after which a listing request for [page] is in order. *)
Definition listing_ready (page : nat) (t : list Event) : Prop :=
  (exists dir older, t = EvLog (saving_line dir) :: older /\ page = 0%nat)
  \/ (exists older, t = EvSleep 1000 :: older).

(** ** What a run records *)

(** The ids inserted into the cache set among some events. *)
Definition added_ids (evs : list Event) : list string :=
  omap (fun e => match e with EvCacheAdd id => Some id | _ => None end) evs.

(** The lines of some ids, one after the other. *)
Fixpoint log_lines (ids : list string) : string :=
  match ids with
  | [] => EmptyString
  | id :: rest => cache_line id +:+ log_lines rest
  end.

(** From [s] to [s'] events were added; the log grew by the lines of the
    ids inserted into the set, in the order of their insertion; the
    [downloaded] counter and the size of the set grew by their number. *)
Definition records_grow (s s' : State) : Prop :=
  exists evs,
    trace s' = evs ++ trace s
    /\ cache_log s' = cache_log s +:+ log_lines (added_ids (rev evs))
    /\ downloaded (stats s') = (downloaded (stats s) + length (added_ids evs))%nat
    /\ size (cachedIds s') = (size (cachedIds s) + length (added_ids evs))%nat.

(** ** The files a run touches *)

(** From [s] to [s'] no file was removed, and a file that is neither the
    cache log nor named with the extension of a document is as it was. *)
Definition files_kept (s s' : State) : Prop :=
  (forall p, is_Some (fs_files s !! p) -> is_Some (fs_files s' !! p))
  /\ (forall p,
        p <> CACHE_FILE -> endsWith p ".pdf" = false ->
        fs_files s' !! p = fs_files s !! p).

(** ** Strings *)

(** Does the character [c] occur in [s]? *)
Fixpoint has_char (c : ascii) (s : string) : bool :=
  match s with
  | EmptyString => false
  | String x r => Ascii.eqb x c || has_char c r
  end.

(** Every slash written as backslash-slash, as in the JSON form of a
    string: the encoding that [unescape_slashes] undoes. *)
Fixpoint escape_slashes (s : string) : string :=
  match s with
  | EmptyString => EmptyString
  | String c r =>
      if Ascii.eqb c "/" then String JsString.backslash (String "/" (escape_slashes r))
      else String c (escape_slashes r)
  end.

(** ** Cleaned text *)

(** The form of a cleaned text: code units up to 127 only, no white
    space other than the space, and no two spaces in a row. *)
Fixpoint single_spaced (s : string) : bool :=
  match s with
  | EmptyString => true
  | String c r =>
      is_ascii c
      && (negb (JsString.is_white_space c) || Ascii.eqb c " ")
      && match r with
         | String d _ => negb (Ascii.eqb c " " && Ascii.eqb d " ")
         | EmptyString => true
         end
      && single_spaced r
  end.

(** [pat] occurs in [s]. *)
Definition occurs (pat s : string) : Prop :=
  exists a b, s = a +:+ (pat +:+ b).

(** ** The documents found *)

(** A path collected from [dir]: it lies under [dir] and its name ends,
    in lower case, with the extension of a document. *)
Definition collected_ok (dir p : string) : Prop :=
  (exists rel, p = path_join dir rel) /\ endsWith (toLowerCase p) ".pdf" = true.

(** Nothing under the directory fails: no entry [fs.stat] throws on
    and no directory [fs.readdir] throws on. *)
Fixpoint readable (found : FsNode) : bool :=
  match found with
  | FsFile => true
  | FsBroken | FsUnreadable => false
  | FsDir files => readable_entries files
  end
with readable_entries (files : FsEntries) : bool :=
  match files with
  | FsNil => true
  | FsCons _ child rest => readable child && readable_entries rest
  end.

(** ** The connection to the database *)


(** The statements sent among some events, oldest first. *)
Definition queries_sent (evs : list DbEvent) : list string :=
  omap (fun e => match e with DbQuery sql _ _ => Some sql | _ => None end) (rev evs).

(** ** Small worlds to run the further models against *)
Module DemoMore.

(** Answers with an end date that is not a date, asking to go on until
    today. *)
Definition answers_unreadable : Answers := {|
  cookie := "session=abc"; throttleTime := 500;
  fromDate := "01-01-2024"; toDate := "tomorrow";
  department := EmptyString; bno := EmptyString;
  buyer_category := "home_medi"; repeatTillDate := true
|}.

(** Answers of the form the prompt asks for, with the two dates the wrong
    way round. *)
Definition answers_backwards : Answers := {|
  cookie := "session=abc"; throttleTime := 500;
  fromDate := "31-12-2023"; toDate := "01-01-2023";
  department := EmptyString; bno := EmptyString;
  buyer_category := "home_medi"; repeatTillDate := true
|}.

(** A folder of documents with a sub-folder, a dangling link and an
    entry listed after it. *)
Definition tree : FsNode :=
  FsDir (entries_of
    [ ("a.pdf", FsFile);
      ("notes.txt", FsFile);
      ("2024", FsDir (entries_of [("B.PDF", FsFile); ("locked", FsUnreadable);
                                  ("c.Pdf", FsFile)]));
      ("dangling", FsBroken);
      ("late.pdf", FsFile) ]).

(** A server whose [sellers] table is missing: every statement that
    names it fails; counts are 7. *)
#[local] Instance no_sellers : Database := {|
  pool_connect := fun _ => None;
  client_query := fun _ sql _ =>
    if bool_decide (is_Some (indexOf "sellers" sql))
    then inl (TransportError "relation sellers does not exist")
    else inr [[("count", "7")]];
  prompt_term := fun _ => "GEMC"
|}.

(** A pool that has no connection to give. *)
#[local] Instance no_pool : Database := {|
  pool_connect := fun _ => Some (TransportError "ECONNREFUSED");
  client_query := fun _ _ _ => inr [];
  prompt_term := fun _ => EmptyString
|}.

End DemoMore.

(** ** The ids a run meets *)

(** From [s] to [s'] events were added, and [scraped] rose by the number
    of ids extracted from the listing pages among them. *)
Definition counts_listed `{Env} (s s' : State) : Prop :=
  exists evs,
    trace s' = evs ++ trace s
    /\ scraped (stats s') = (scraped (stats s) + length (listed_ids evs))%nat.

(** From [s] to [s'] events were added; the ids inserted into the cache
    set are pairwise distinct, none of them was in the set of [s], and
    the set of [s'] is the set of [s] with them. *)
Definition adds_fresh (s s' : State) : Prop :=
  exists evs,
    trace s' = evs ++ trace s
    /\ NoDup (added_ids evs)
    /\ (forall id, id ∈ added_ids evs -> id ∉ cachedIds s)
    /\ cachedIds s' = list_to_set (added_ids evs) ∪ cachedIds s.
(* ===================================================================== *)
(** * Observations on ranges, progress and failures *)
(* ===================================================================== *)

(** ** The range of dates *)

(** A [Date] holds a time within 10^8 days of the epoch: from April of
    the year -271821 to September of the year 275760.  A date of a year
    from -271820 to 275759 is within that range in every time zone.  The
    model of dates does not clip to the range: its setters agree with
    JavaScript on the dates that stay within it. *)
Definition in_date_range (x : JsDate.t) : Prop :=
  (12 * -271820 <= JsDate.ym x < 12 * 275760)%Z.

(** What [new Date()] can give when the planner prints dates: a real
    date of a year from 100 to 275759. *)
Definition clock_reading (x : JsDate.t) : Prop :=
  JsDate.wf x /\ year_from_100 x /\ in_date_range x.

(** The same calendar day, whatever the time of day. *)
Definition same_day (a b : option JsDate.t) : Prop :=
  match a, b with
  | Some x, Some y => JsDate.ym x = JsDate.ym y /\ JsDate.dom x = JsDate.dom y
  | _, _ => False
  end.

(** A date string with fewer than three fields between dashes: the
    destructuring [[d, m, y]] of [parseDate] leaves [y] undefined. *)
Definition lacks_fields (dateStr : string) : Prop :=
  (length (JsString.split "-" dateStr) < 3)%nat.

(** ** The record step, forwards *)

(** On events oldest first: a successful write of a document is
    followed at once by the append of that id's line to the cache log,
    whether it succeeds or not, and a successful append to the cache log
    is followed at once by the insertion of that id into the set. *)
Fixpoint record_completed (h : list Event) : Prop :=
  match h with
  | [] => True
  | EvWriteFile p data ok :: rest =>
      (ok = true ->
       exists dir id ok' more,
         p = pdf_path dir id
         /\ rest = EvAppendFile CACHE_FILE (cache_line id) ok' :: more)
      /\ record_completed rest
  | EvAppendFile p data ok :: rest =>
      (ok = true -> p = CACHE_FILE ->
       exists id more, data = cache_line id /\ rest = EvCacheAdd id :: more)
      /\ record_completed rest
  | _ :: rest => record_completed rest
  end.

(** From [s] to [s'] events were added, and among them every record step
    that was begun has been carried through. *)
Definition completes_records (s s' : State) : Prop :=
  exists evs, trace s' = evs ++ trace s /\ record_completed (rev evs).

(** ** The statements of the database functions *)

(** The statements [sqls] were sent one after the other, in that order,
    up to and including the first that failed; [failure] is its error,
    and [None] when all of them were sent and none failed.  The events
    are oldest first. *)
Fixpoint sent_in_order (sqls : list string) (evs : list DbEvent)
    (failure : option Exn) : Prop :=
  match sqls with
  | [] => evs = [] /\ failure = None
  | sql :: rest =>
      exists r more,
        evs = DbQuery sql [] r :: more
        /\ match r with
           | inl e => more = [] /\ failure = Some e
           | inr _ => sent_in_order rest more failure
           end
  end.




(* ===================================================================== *)
(** * Reasoning about computations *)
(* ===================================================================== *)

Lemma exec_bind {A B} (m : M A) (k : A -> M B) s :
  exec (bind m k) s =
    match outcome m s with
    | Ok a => exec (k a) (exec m s)
    | _ => exec m s
    end.
Proof.
  unfold exec, outcome, bind. destruct (m s) as [s' [a| e |]]; reflexivity.
Qed.

Lemma outcome_bind {A B} (m : M A) (k : A -> M B) s :
  outcome (bind m k) s =
    match outcome m s with
    | Ok a => outcome (k a) (exec m s)
    | Throw e => Throw e
    | OutOfFuel => OutOfFuel
    end.
Proof.
  unfold exec, outcome, bind. destruct (m s) as [s' [a| e |]]; reflexivity.
Qed.

Lemma exec_try_catch {A} (m : M A) (h : Exn -> M A) s :
  exec (try_catch m h) s =
    match outcome m s with
    | Throw e => exec (h e) (exec m s)
    | _ => exec m s
    end.
Proof.
  unfold exec, outcome, try_catch. destruct (m s) as [s' [a| e |]]; reflexivity.
Qed.


Section Preserves.
Context (R : State -> State -> Prop) `{!Reflexive R} `{!Transitive R}.

Lemma preserves_ret {A} (a : A) : preserves R (ret a).
Proof. intros s. apply reflexivity. Qed.

Lemma preserves_throw {A} e : preserves R (@throw A e).
Proof. intros s. apply reflexivity. Qed.

Lemma preserves_out_of_fuel {A} : preserves R (@out_of_fuel A).
Proof. intros s. apply reflexivity. Qed.

Lemma preserves_gets {A} (f : State -> A) : preserves R (gets f).
Proof. intros s. apply reflexivity. Qed.

Lemma preserves_bind {A B} (m : M A) (k : A -> M B) :
  preserves R m -> (forall a, preserves R (k a)) -> preserves R (bind m k).
Proof.
  intros Hm Hk s. rewrite exec_bind.
  destruct (outcome m s); [|apply Hm..].
  etransitivity; [apply Hm | apply Hk].
Qed.

Lemma preserves_try_catch {A} (m : M A) (h : Exn -> M A) :
  preserves R m -> (forall e, preserves R (h e)) -> preserves R (try_catch m h).
Proof.
  intros Hm Hh s. rewrite exec_try_catch.
  destruct (outcome m s); [apply Hm| |apply Hm].
  etransitivity; [apply Hm | apply Hh].
Qed.

Lemma preserves_for_of {A} (l : list A) (body : A -> M unit) :
  (forall x, x ∈ l -> preserves R (body x)) -> preserves R (for_of l body).
Proof.
  induction l as [|x l IH]; intros Hb; simpl.
  - apply preserves_ret.
  - apply preserves_bind.
    + apply Hb. left.
    + intros _. apply IH. intros y Hy. apply Hb. by right.
Qed.

End Preserves.

(** Unfolding the primitive operations down to state transformers. *)
Ltac unfold_prims :=
  unfold console_log, console_error, sleep, new_Date_now, fs_ensureDir,
    fs_pathExists, fs_readFile, fs_writeFile, fs_appendFile,
    client_post_contract_details, client_post_sbtCaptcha, client_get,
    cachedIds_has, cachedIds_add, incr_scraped, incr_downloaded,
    incr_skipped, incr_failed, code_of, modify, gets, ret, throw, out_of_fuel in *.

(** A primitive operation, by cases on what the outside answers. *)
Ltac prim :=
  let s := fresh "s" in
  intros s; unfold exec; unfold_prims; simpl;
  repeat case_match; simpl; auto.

(** Structural descent through a computation for a [preserves] goal. *)
Ltac tc_solve := try (solve [typeclasses eauto]).

Ltac pres_step :=
  first
    [ (apply preserves_ret; tc_solve); fail
    | (apply preserves_throw; tc_solve); fail
    | (apply preserves_out_of_fuel; tc_solve); fail
    | (apply preserves_gets; tc_solve); fail
    | (apply preserves_bind; tc_solve); [| intros ?]
    | (apply preserves_try_catch; tc_solve); [| intros ?]
    | (apply preserves_for_of; tc_solve); intros ? _
    | match goal with
      | |- preserves _ (if ?b then _ else _) => destruct b
      | |- preserves _ (match ?x with _ => _ end) => destruct x
      end ].

(** One case split on an answer of the outside, in the order the resolver
    asks. *)
Ltac step_oracle :=
  match goal with
  | |- context [post_sbtCaptcha ?t ?c ?i] =>
      destruct (post_sbtCaptcha t c i) eqn:?; simpl
  | |- context [js_truthy ?d && is_status_ok ?x] =>
      destruct (js_truthy d && is_status_ok x) eqn:?; simpl
  | |- context [match js_prop ?d ?k with _ => _ end] =>
      destruct (js_prop d k) eqn:?; simpl
  | |- context [url_truthy ?u] =>
      destruct (url_truthy u) eqn:?; simpl
  | |- context [get_arraybuffer ?t ?c ?u] =>
      destruct (get_arraybuffer t c u) eqn:?; simpl
  | |- context [fs_fails ?t ?o] =>
      destruct (fs_fails t o) eqn:?; simpl
  end.

(* ===================================================================== *)
(** * Facts about strings and paths *)
(* ===================================================================== *)

Lemma append_cons (x : ascii) (a b : string) : String x a +:+ b = String x (a +:+ b).
Proof. reflexivity. Qed.

Lemma append_nil_l (b : string) : EmptyString +:+ b = b.
Proof. reflexivity. Qed.

Lemma append_assoc (a b c : string) : (a +:+ b) +:+ c = a +:+ (b +:+ c).
Proof.
  induction a as [|x a IH]; [reflexivity|].
  rewrite !append_cons. by f_equal.
Qed.

Lemma length_append (a b : string) :
  String.length (a +:+ b) = (String.length a + String.length b)%nat.
Proof.
  induction a as [|x a IH]; [reflexivity|].
  rewrite append_cons. simpl. by f_equal.
Qed.

(** Two strings of the same length followed by different endings differ. *)
Lemma append_suffix_inj (a b x y : string) :
  String.length x = String.length y -> a +:+ x = b +:+ y -> x = y.
Proof.
  intros Hlen. revert b. induction a as [|c a IH]; intros b Heq.
  - destruct b as [|c' b]; [exact Heq|].
    apply (f_equal String.length) in Heq.
    rewrite append_nil_l, append_cons in Heq. simpl in Heq.
    rewrite length_append in Heq. lia.
  - destruct b as [|c' b].
    + apply (f_equal String.length) in Heq.
      rewrite append_nil_l, append_cons in Heq. simpl in Heq.
      rewrite length_append in Heq. lia.
    + rewrite !append_cons in Heq. injection Heq as _ Heq. eauto.
Qed.

(** A document is never written over the cache log. *)
Lemma pdf_path_not_cache (outputDir id : string) : pdf_path outputDir id <> CACHE_FILE.
Proof.
  unfold pdf_path, path_join, CACHE_FILE. intros Heq.
  rewrite <- !append_assoc in Heq.
  change "temp-cache.txt" with ("temp-cache" +:+ ".txt") in Heq.
  apply append_suffix_inj in Heq; [discriminate | reflexivity].
Qed.

(* ===================================================================== *)
(** * The counters stay balanced *)
(* ===================================================================== *)

Section Counters.
Context `{Env}.

#[local] Instance keeps_balance_refl : Reflexive keeps_balance.
Proof. intros s. unfold keeps_balance. auto. Qed.

#[local] Instance keeps_balance_trans : Transitive keeps_balance.
Proof. intros a b c. unfold keeps_balance. auto. Qed.

Lemma process_contract_counted client outputDir options id s :
  counted_once (stats s) (stats (exec (process_contract client outputDir options id) s)).
Proof.
  unfold process_contract, download_contract, exec, bind, try_catch.
  unfold_prims. unfold counted_once. simpl.
  repeat (case_match; simpl in *; simplify_eq; try (split; [reflexivity|tauto])).
Qed.

(** An item never throws and never runs out of fuel. *)
Lemma process_contract_ok client outputDir options id s :
  outcome (process_contract client outputDir options id) s = Ok tt.
Proof.
  unfold process_contract, download_contract, outcome, bind, try_catch.
  unfold_prims. simpl.
  repeat (case_match; simpl in *; simplify_eq; try reflexivity).
Qed.

Lemma for_of_process_ok client outputDir options ids s :
  outcome (for_of ids (process_contract client outputDir options)) s = Ok tt.
Proof.
  revert s. induction ids as [|id ids IH]; intros s; simpl; [reflexivity|].
  rewrite outcome_bind, process_contract_ok. apply IH.
Qed.

Lemma for_of_process_counted client outputDir options ids s :
  let s' := exec (for_of ids (process_contract client outputDir options)) s in
  scraped (stats s') = (scraped (stats s) + length ids)%nat
  /\ (downloaded (stats s') + skipped (stats s') + failed (stats s')
      = downloaded (stats s) + skipped (stats s) + failed (stats s) + length ids)%nat.
Proof.
  revert s. induction ids as [|id ids IH]; intros s; simpl.
  - unfold exec, ret. simpl. lia.
  - rewrite exec_bind, process_contract_ok.
    pose proof (process_contract_counted client outputDir options id s) as Hc.
    specialize (IH (exec (process_contract client outputDir options id) s)).
    simpl in IH. unfold counted_once in Hc. lia.
Qed.

Lemma process_contract_keeps_balance client outputDir options id :
  preserves keeps_balance (process_contract client outputDir options id).
Proof.
  intros s Hs.
  pose proof (process_contract_counted client outputDir options id s) as Hc.
  unfold counted_once, stats_balanced in *. lia.
Qed.

Ltac same_stats := prim; unfold keeps_balance; simpl; auto.

Lemma scrape_page_keeps_balance client f t dir options page :
  preserves keeps_balance (scrape_page client f t dir options page).
Proof.
  unfold scrape_page.
  repeat first
    [ apply process_contract_keeps_balance
    | pres_step
    | solve [same_stats] ].
Qed.

Lemma page_loop_keeps_balance fuel client f t dir options page :
  preserves keeps_balance (page_loop fuel client f t dir options page).
Proof.
  revert page. induction fuel as [|fuel IH]; intros page; simpl.
  - pres_step.
  - repeat first
      [ apply scrape_page_keeps_balance | apply IH | pres_step | solve [same_stats] ].
Qed.

Lemma scrapeRange_keeps_balance fuel client f t options :
  preserves keeps_balance (scrapeRange fuel client f t options).
Proof.
  unfold scrapeRange.
  repeat first [ apply page_loop_keeps_balance | pres_step | solve [same_stats] ].
Qed.

Lemma window_loop_keeps_balance fuel pages client options repeat today f t :
  preserves keeps_balance (window_loop fuel pages client options repeat today f t).
Proof.
  revert f t. induction fuel as [|fuel IH]; intros f t; simpl.
  - pres_step.
  - repeat first
      [ apply scrapeRange_keeps_balance | apply IH | pres_step | solve [same_stats] ].
Qed.

Lemma runScraper_keeps_balance fuel answers :
  preserves keeps_balance (runScraper fuel answers).
Proof.
  unfold runScraper, setup_cache.
  repeat first
    [ apply window_loop_keeps_balance | pres_step | solve [same_stats] ].
  prim. intros _. unfold stats_balanced. reflexivity.
Qed.

(** C10: every extracted id raises [scraped] by one and exactly one of
    [downloaded], [skipped], [failed] by one, on every branch of the item
    loop; so a page of [n] ids raises [scraped] and the sum of the three
    others by [n], and at the end of a run, however it ends,
    [scraped = downloaded + skipped + failed]. *)
Theorem C10_counters_balanced :
  (forall client outputDir options id s,
      counted_once (stats s)
        (stats (exec (process_contract client outputDir options id) s)))
  /\ (forall client outputDir options ids s,
        let s' := exec (for_of ids (process_contract client outputDir options)) s in
        scraped (stats s') = (scraped (stats s) + length ids)%nat
        /\ (downloaded (stats s') + skipped (stats s') + failed (stats s')
            = downloaded (stats s) + skipped (stats s) + failed (stats s)
              + length ids)%nat)
  /\ (forall fuel answers dirs files,
        stats_balanced (stats (exec (runScraper fuel answers) (boot dirs files)))).
Proof.
  split; [|split].
  - apply process_contract_counted.
  - apply for_of_process_counted.
  - intros fuel answers dirs files.
    apply (runScraper_keeps_balance fuel answers (boot dirs files)).
    unfold stats_balanced. reflexivity.
Qed.

End Counters.

(* ===================================================================== *)
(** * One item: skipped, downloaded or failed *)
(* ===================================================================== *)

Section Item.
Context `{Env}.

Lemma url_truthy_Some u url :
  url_truthy u = Some url <-> u = Some url /\ url <> EmptyString.
Proof.
  unfold url_truthy. destruct u as [[|c r]|]; split; intros Hu;
    try discriminate; try (destruct Hu; simplify_eq; done).
  simplify_eq. done.
Qed.

Lemma is_status_ok_true v : is_status_ok v = true <-> v = JStr "1".
Proof.
  destruct v; simpl; split; intros Hv; try discriminate.
  - apply String.eqb_eq in Hv. by subst.
  - simplify_eq. reflexivity.
Qed.

Lemma status_ok_truthy data :
  js_prop data "status" = JStr "1" -> js_truthy data = true.
Proof. destruct data; simpl; try discriminate. reflexivity. Qed.

(** An item that is in the cache set. *)
Lemma process_contract_cached client outputDir options id s :
  id ∈ cachedIds s ->
  is_Skipped s (exec (process_contract client outputDir options id) s).
Proof.
  intros Hin. unfold process_contract, exec, bind. unfold_prims. simpl.
  rewrite bool_decide_eq_true_2 by done. simpl.
  unfold is_Skipped. simpl. tauto.
Qed.

(** An item that is not: it is downloaded when the outside resolves it
    and failed otherwise. *)
Lemma process_contract_uncached client outputDir options id s :
  id ∉ cachedIds s ->
  let s' := exec (process_contract client outputDir options id) s in
  (exists data code url pdf,
      resolves client outputDir options id s data code url pdf
      /\ is_Downloaded outputDir options id data url pdf s s')
  \/ ((forall data code url pdf,
         ~ resolves client outputDir options id s data code url pdf)
      /\ is_Failed id s s').
Proof.
  intros Hnot. simpl.
  unfold process_contract, download_contract, exec, bind, try_catch.
  unfold_prims. simpl.
  rewrite bool_decide_eq_false_2 by done. simpl.
  destruct (post_sbtCaptcha _ client id) as [e|data] eqn:Hpost; simpl.
  { right. split; [|unfold is_Failed; simpl; tauto].
    intros ???? (?&_). congruence. }
  destruct (js_truthy data && is_status_ok (js_prop data "status")) eqn:Hst; simpl.
  2:{ right. split; [|unfold is_Failed; simpl; tauto].
      intros d c u p (Hd&Hs&_). assert (d = data) as -> by congruence.
      rewrite (status_ok_truthy _ Hs) in Hst. simpl in Hst.
      apply is_status_ok_true in Hs. congruence. }
  apply andb_true_iff in Hst as [_ Hst]. apply is_status_ok_true in Hst.
  destruct (js_prop data "code") as [| |?|?|code|?] eqn:Hcode; simpl;
    try (right; split; [|unfold is_Failed; simpl; tauto];
         intros d c u p (Hd&_&Hc&_); assert (d = data) as -> by congruence;
         congruence).
  destruct (url_truthy (extract_downloadUrl code)) as [url|] eqn:Hurl; simpl.
  2:{ right. split; [|unfold is_Failed; simpl; tauto].
      intros d c u p (Hd&_&Hc&Hu&Hne&_). assert (d = data) as -> by congruence.
      assert (c = code) as -> by congruence.
      assert (url_truthy (extract_downloadUrl code) = Some u) as Hu'
        by (apply url_truthy_Some; done).
      congruence. }
  apply url_truthy_Some in Hurl as [Hurl Hne].
  destruct (get_arraybuffer _ client url) as [e|pdf] eqn:Hget; simpl.
  { right. split; [|unfold is_Failed; simpl; tauto].
    intros d c u p (Hd&_&Hc&Hu&_&Hg&_). assert (d = data) as -> by congruence.
    assert (c = code) as -> by congruence. assert (u = url) as -> by congruence.
    congruence. }
  destruct (fs_fails _ (OpWriteFile _ pdf)) eqn:Hw; simpl.
  { right. split; [|unfold is_Failed; simpl; tauto].
    intros d c u p (Hd&_&Hc&Hu&_&Hg&Hfw&_). assert (d = data) as -> by congruence.
    assert (c = code) as -> by congruence. assert (u = url) as -> by congruence.
    assert (p = pdf) as -> by congruence. congruence. }
  destruct (fs_fails _ (OpAppendFile _ _)) eqn:Ha; simpl.
  { right. split.
    - intros d c u p (Hd&_&Hc&Hu&_&Hg&Hfw&Hfa). assert (d = data) as -> by congruence.
      assert (c = code) as -> by congruence. assert (u = url) as -> by congruence.
      assert (p = pdf) as -> by congruence. congruence.
    - unfold is_Failed; simpl. repeat split; try reflexivity.
      apply lookup_insert_ne, pdf_path_not_cache. }
  left. exists data, code, url, pdf. split.
  - unfold resolves. simpl. tauto.
  - unfold is_Downloaded, history, cache_log; simpl.
    repeat split; try reflexivity.
    + rewrite <- !app_assoc. reflexivity.
    + rewrite lookup_insert_eq.
      rewrite lookup_insert_ne by apply pdf_path_not_cache. reflexivity.
    + rewrite lookup_insert_ne by (apply not_eq_sym, pdf_path_not_cache).
      apply lookup_insert_eq.
Qed.


(** The cache set after the start-up of [runScraper] is read off the log
    and nothing else. *)
Lemma setup_cache_loaded s :
  cachedIds (exec setup_cache s) =
    match outcome setup_cache s with
    | Ok _ => load_cache (cache_log s)
    | _ => ∅
    end.
Proof.
  unfold setup_cache, exec, outcome, bind, cache_log. unfold_prims. simpl.
  destruct (fs_fails _ (OpEnsureDir _)); simpl; [reflexivity|].
  destruct (fs_files s !! CACHE_FILE) as [content|] eqn:Hlog; simpl.
  - destruct (fs_fails _ (OpReadFile _)); simpl; [reflexivity|].
    rewrite Hlog. simpl. apply union_empty_r_L.
  - destruct (bool_decide (CACHE_FILE ∈ _)); simpl; [|reflexivity].
    destruct (fs_fails _ (OpReadFile _)); simpl; rewrite ?Hlog; reflexivity.
Qed.


(** C7: for an id outside the cache set, the item is downloaded, with
    the log appended and the set extended, exactly when the outside
    resolves it: the token exchange answers with status ['1'], its code
    holds a link (found by the href pattern or, failing that, by the
    anchor scan), and the fetch, the document write and the log append
    all succeed.  In every other case the item is counted failed and
    neither the set nor the log changes. *)
Theorem C7_resolver_outcome client outputDir options id s :
  id ∉ cachedIds s ->
  let s' := exec (process_contract client outputDir options id) s in
  (exists data code url pdf,
      resolves client outputDir options id s data code url pdf
      /\ is_Downloaded outputDir options id data url pdf s s')
  \/ ((forall data code url pdf,
         ~ resolves client outputDir options id s data code url pdf)
      /\ is_Failed id s s').
Proof. apply process_contract_uncached. Qed.

End Item.

(* ===================================================================== *)
(** * The record step: write, then append, then insert *)
(* ===================================================================== *)

Section Record.
Context `{Env}.

#[local] Instance keeps_record_order_refl : Reflexive keeps_record_order.
Proof. intros s. unfold keeps_record_order. auto. Qed.

#[local] Instance keeps_record_order_trans : Transitive keeps_record_order.
Proof. intros a b c. unfold keeps_record_order. auto. Qed.








Lemma history_split (s : State) before e after :
  history s = before ++ e :: after -> trace s = rev after ++ e :: rev before.
Proof.
  unfold history. intros Hh. apply (f_equal (@rev Event)) in Hh.
  rewrite rev_involutive in Hh. rewrite Hh, rev_app_distr. simpl.
  rewrite <- app_assoc. reflexivity.
Qed.


Lemma rev_eq_cons1 {A} (l : list A) a older :
  rev l = a :: older -> l = rev older ++ [a].
Proof.
  intros Hl. apply (f_equal (@rev A)) in Hl. rewrite rev_involutive in Hl.
  rewrite Hl. reflexivity.
Qed.

(** *** The set only grows by ids recorded on disk *)

Lemma recorded_on_disk_mono id evs t :
  recorded_on_disk id t -> recorded_on_disk id (evs ++ t).
Proof.
  intros [(dir&pdf&Hw) Ha]. split.
  - exists dir, pdf. apply elem_of_app. by right.
  - apply elem_of_app. by right.
Qed.

#[local] Instance marks_justified_refl : Reflexive marks_justified.
Proof. intros s. split; [by exists [] | auto]. Qed.

#[local] Instance marks_justified_trans : Transitive marks_justified.
Proof.
  intros a b c [[e1 H1] J1] [[e2 H2] J2]. split.
  - exists (e2 ++ e1). rewrite H2, H1, app_assoc. reflexivity.
  - intros id Hin. destruct (J2 id Hin) as [Hb|Hr]; [|by right].
    destruct (J1 id Hb) as [Ha|Hr]; [by left|].
    right. rewrite H2. by apply recorded_on_disk_mono.
Qed.




End Record.

(* ===================================================================== *)
(** * The record step, once begun, is carried through *)
(* ===================================================================== *)

Section Completed.
Context `{Env}.

Lemma record_completed_app a b :
  record_completed a -> record_completed b -> record_completed (a ++ b).
Proof.
  induction a as [|e a IH]; intros Ha Hb; [exact Hb|].
  destruct e; simpl in *; try (apply IH; assumption).
  - destruct Ha as [Hw Ha]. split; [|by apply IH].
    intros Hok. destruct (Hw Hok) as (dir & id & ok' & more & -> & ->).
    exists dir, id, ok', (more ++ b). done.
  - destruct Ha as [Hw Ha]. split; [|by apply IH].
    intros Hok Hp. destruct (Hw Hok Hp) as (id & more & -> & ->).
    exists id, (more ++ b). done.
Qed.

#[local] Instance completes_records_refl : Reflexive completes_records.
Proof. intros s. by exists []. Qed.

#[local] Instance completes_records_trans : Transitive completes_records.
Proof.
  intros a b c (e1 & H1 & C1) (e2 & H2 & C2). exists (e2 ++ e1).
  rewrite H2, H1, app_assoc. split; [reflexivity|].
  rewrite rev_app_distr. by apply record_completed_app.
Qed.









End Completed.

(* ===================================================================== *)
(** * The listing walk of one window *)
(* ===================================================================== *)

Lemma run_eq {A} (m : M A) (s : State) : m s = (exec m s, outcome m s).
Proof. unfold exec, outcome. by destruct (m s). Qed.

#[export] Instance extends_refl P : Reflexive (extends P).
Proof. intros s. exists []. split; [reflexivity | constructor]. Qed.

#[export] Instance extends_trans P : Transitive (extends P).
Proof.
  intros a b c (e1&H1&F1) (e2&H2&F2). exists (e2 ++ e1). split.
  - rewrite H2, H1, app_assoc. reflexivity.
  - apply Forall_app. done.
Qed.



Lemma extends_history P s s' :
  extends P s s' -> exists evs, history s' = history s ++ rev evs /\ Forall P evs.
Proof.
  intros (evs&Ht&Hf). exists evs. split; [|done].
  unfold history. rewrite Ht, rev_app_distr. reflexivity.
Qed.

(** A primitive operation adds at most one event, of the expected kind. *)
Ltac quiet :=
  prim; (eexists [_]; split; [reflexivity | repeat constructor; simpl; tauto])
        || (eexists []; split; [reflexivity | constructor]).

Section Walk.
Context `{Env}.

(** Resolving an item asks for no listing page. *)
Lemma process_contract_no_listing client outputDir options id :
  preserves (extends (fun e => ~ is_listing e)) (process_contract client outputDir options id).
Proof.
  unfold process_contract, download_contract.
  repeat first [ pres_step | solve [quiet] ].
Qed.

(** One page, by cases on the answer to its request. *)
Lemma scrape_page_run client f t dir options page s :
  let payload := listing_payload f t options page in
  let r := post_contract_details (trace s) client payload in
  let s1 := add_event (EvPostListing payload r) s in
  scrape_page client f t dir options page s =
    match r with
    | inl e => (s1, Throw e)
    | inr data =>
        if ends_walk r then (s1, Ok false)
        else (add_event (EvSleep 1000)
                (exec (for_of (contractsOnPage (block_header_onclicks data))
                         (process_contract client dir options)) s1),
              Ok true)
    end.
Proof.
  simpl. unfold scrape_page, bind at 1, client_post_contract_details.
  destruct (post_contract_details _ _ _) as [e|data]; [reflexivity|].
  unfold ends_walk.
  destruct (length (block_header_onclicks data) =? 0)%nat; [reflexivity|].
  destruct (length (contractsOnPage _) =? 0)%nat; [reflexivity|]. simpl.
  unfold bind at 1. rewrite (run_eq (for_of _ _)), for_of_process_ok.
  reflexivity.
Qed.

(** One turn of [while (hasNext)]. *)
Lemma page_loop_step client f t dir options fuel page s :
  let payload := listing_payload f t options page in
  let r := post_contract_details (trace s) client payload in
  let s1 := add_event (EvPostListing payload r) s in
  page_loop (S fuel) client f t dir options page s =
    match r with
    | inl e => (add_event (EvLog (error_line e)) s1, Ok tt)
    | inr data =>
        if ends_walk r then (s1, Ok tt)
        else page_loop fuel client f t dir options (S page)
               (add_event (EvSleep 1000)
                  (exec (for_of (contractsOnPage (block_header_onclicks data))
                           (process_contract client dir options)) s1))
    end.
Proof.
  simpl. unfold bind at 1, try_catch. rewrite scrape_page_run.
  destruct (post_contract_details _ _ _) as [e|data]; [reflexivity|].
  destruct (ends_walk _); reflexivity.
Qed.





(** [scrapeRange] up to its loop. *)
Lemma scrapeRange_run fuel client f t options s :
  let dir := path_join PDF_ROOT (f +:+ "_to_" +:+ t) in
  scrapeRange fuel client f t options s =
    if fs_fails (trace s) (OpEnsureDir dir)
    then (add_event (EvEnsureDir dir false) s, Throw (StorageError dir))
    else page_loop fuel client f t dir options 0
           (add_event (EvLog (saving_line dir))
              (add_event (EvLogPeriod f t)
                 (add_event (EvEnsureDir dir true)
                    (set_dirs (fun d => {[dir]} ∪ d) s)))).
Proof.
  simpl. unfold scrapeRange, bind, fs_ensureDir, console_log, modify.
  destruct (fs_fails _ _); reflexivity.
Qed.


End Walk.

(* ===================================================================== *)
(** * Where errors stop *)
(* ===================================================================== *)

Section Errors.
Context `{Env}.

Lemma throws_only_bind {A B} P (m : M A) (k : A -> M B) :
  throws_only P m -> (forall a, throws_only P (k a)) -> throws_only P (bind m k).
Proof.
  intros Hm Hk s e. rewrite outcome_bind.
  destruct (outcome m s) eqn:Ho; [apply Hk | | done].
  intros [= <-]. by apply (Hm s).
Qed.

(** The listing walk never lets an exception out. *)
Lemma page_loop_no_throw fuel client f t dir options page s e :
  outcome (page_loop fuel client f t dir options page) s <> Throw e.
Proof.
  revert page s. induction fuel as [|fuel IH]; intros page s; [done|].
  unfold outcome. rewrite page_loop_step.
  destruct (post_contract_details _ _ _); [done|].
  destruct (ends_walk _); [done | apply IH].
Qed.

Lemma scrapeRange_throws fuel client f t options :
  throws_only is_storage_error (scrapeRange fuel client f t options).
Proof.
  intros s e. unfold outcome. rewrite scrapeRange_run.
  destruct (fs_fails _ _); simpl.
  - by intros [= <-].
  - intros He. by apply page_loop_no_throw in He.
Qed.

Lemma window_loop_throws fuel pages client options repeat today f t :
  throws_only is_storage_error (window_loop fuel pages client options repeat today f t).
Proof.
  revert f t. induction fuel as [|fuel IH]; intros f t; simpl.
  - by intros s e.
  - apply throws_only_bind; [apply scrapeRange_throws|]. intros _.
    destruct (negb repeat); [by intros s e|].
    destruct (next_window today t) as [[f' t']|]; [apply IH | by intros s e].
Qed.

Lemma runScraper_throws fuel answers :
  throws_only is_storage_error (runScraper fuel answers).
Proof.
  unfold runScraper, setup_cache.
  repeat first
    [ apply window_loop_throws
    | apply throws_only_bind; [|intros ?]
    | match goal with |- throws_only _ (if ?b then _ else _) => destruct b end
    | (intros s e; unfold outcome; unfold_prims; simpl;
       repeat case_match; simpl; try done; by intros [= <-]) ].
Qed.



End Errors.

(* ===================================================================== *)
(** * The calendar *)
(* ===================================================================== *)

Section Calendar.
Local Open Scope Z_scope.
Import JsDate.
#[local] Arguments make_day : simpl never.
#[local] Arguments days_in_month : simpl never.

Lemma days_in_month_bounds m : 28 <= days_in_month m <= 31.
Proof.
  unfold days_in_month.
  repeat match goal with |- context [if ?b then _ else _] => destruct b end; lia.
Qed.

Lemma roll_in_range fuel m d :
  1 <= d <= days_in_month m -> roll (S fuel) m d = (m, d).
Proof.
  intros Hd. simpl.
  destruct (d <? 1) eqn:E1; [apply Z.ltb_lt in E1; lia|].
  destruct (days_in_month m <? d) eqn:E2; [apply Z.ltb_lt in E2; lia|].
  reflexivity.
Qed.

(** [roll] ends on a day that exists, given fuel in proportion to the
    distance. *)
Lemma roll_valid fuel : forall m d,
  1 <= d <= days_in_month m \/ (- 28 * Z.of_nat fuel < d <= 28 * Z.of_nat fuel) ->
  1 <= snd (roll fuel m d) <= days_in_month (fst (roll fuel m d)).
Proof.
  induction fuel as [|fuel IH]; intros m d Hd.
  - simpl. destruct Hd as [Hd|Hd]; [exact Hd | lia].
  - simpl roll.
    destruct (d <? 1) eqn:E1.
    + apply Z.ltb_lt in E1. apply IH.
      pose proof (days_in_month_bounds (m - 1)). lia.
    + apply Z.ltb_ge in E1.
      destruct (days_in_month m <? d) eqn:E2.
      * apply Z.ltb_lt in E2. apply IH.
        pose proof (days_in_month_bounds m). lia.
      * apply Z.ltb_ge in E2. simpl. lia.
Qed.

Lemma make_day_valid m d :
  1 <= snd (make_day m d) <= days_in_month (fst (make_day m d)).
Proof. unfold make_day. apply roll_valid. right. lia. Qed.

Lemma make_day_in_range m d :
  1 <= d <= days_in_month m -> make_day m d = (m, d).
Proof. apply roll_in_range. Qed.

(** A day up to 28 past the end of the month is in the next month. *)
Lemma make_day_over m d :
  days_in_month m < d <= days_in_month m + 28 ->
  make_day m d = (m + 1, d - days_in_month m).
Proof.
  intros Hd. pose proof (days_in_month_bounds m). pose proof (days_in_month_bounds (m + 1)).
  unfold make_day. destruct (Z.to_nat (Z.abs d)) as [|k] eqn:Ek; [lia|].
  cbn [roll].
  destruct (d <? 1) eqn:E1; [apply Z.ltb_lt in E1; lia|].
  destruct (days_in_month m <? d) eqn:E2; [|apply Z.ltb_ge in E2; lia].
  apply roll_in_range. lia.
Qed.

(** Day 0 and the 27 days before it are in the previous month. *)
Lemma make_day_under m d :
  -27 <= d <= 0 -> make_day m d = (m - 1, d + days_in_month (m - 1)).
Proof.
  intros Hd. pose proof (days_in_month_bounds (m - 1)).
  unfold make_day. cbn [roll].
  destruct (d <? 1) eqn:E1; [|apply Z.ltb_ge in E1; lia].
  destruct (Z.to_nat (Z.abs d)) as [|k] eqn:Ek.
  - reflexivity.
  - apply roll_in_range. lia.
Qed.

Lemma of_fields_wf m d ms : 0 <= ms < 86400000 -> wf (of_fields m d ms).
Proof.
  intros Hms. unfold of_fields, wf.
  pose proof (make_day_valid m d). destruct (make_day m d). simpl in *. done.
Qed.

Lemma setMonth_add x k :
  setMonth x (getMonth x + k) = of_fields (ym x + k) (dom x) (tod x).
Proof.
  unfold setMonth, getMonth, getFullYear. f_equal.
  pose proof (Z.div_mod (ym x) 12). lia.
Qed.

Lemma addDays_next x :
  wf x ->
  addDays (Some x) 1 =
    Some (if dom x <? days_in_month (ym x)
          then mk (ym x) (dom x + 1) (tod x)
          else mk (ym x + 1) 1 (tod x)).
Proof.
  intros [Hd _]. unfold addDays, setDate, getDate, of_fields. f_equal.
  destruct (dom x <? days_in_month (ym x)) eqn:E.
  - apply Z.ltb_lt in E. rewrite make_day_in_range by lia. reflexivity.
  - apply Z.ltb_ge in E. rewrite make_day_over by lia.
    replace (dom x + 1 - days_in_month (ym x)) with 1 by lia. reflexivity.
Qed.

Lemma addDays_prev x :
  wf x ->
  addDays (Some x) (-1) =
    Some (if 1 <? dom x
          then mk (ym x) (dom x - 1) (tod x)
          else mk (ym x - 1) (days_in_month (ym x - 1)) (tod x)).
Proof.
  intros [Hd _]. unfold addDays, setDate, getDate, of_fields. f_equal.
  destruct (1 <? dom x) eqn:E.
  - apply Z.ltb_lt in E. rewrite make_day_in_range by lia.
    replace (dom x + -1) with (dom x - 1) by lia. reflexivity.
  - apply Z.ltb_ge in E. rewrite make_day_under by lia.
    replace (dom x + -1 + days_in_month (ym x - 1)) with (days_in_month (ym x - 1)) by lia.
    reflexivity.
Qed.

(** [addMonths] lands in the month [months] later, on the same day of the
    month or, when that month is too short, on its last day. *)
Lemma addMonths_clamped x months :
  wf x ->
  addMonths (Some x) months =
    Some (mk (ym x + months)
             (Z.min (dom x) (days_in_month (ym x + months)))
             (tod x)).
Proof.
  intros [Hd Ht]. unfold addMonths. rewrite setMonth_add.
  pose proof (days_in_month_bounds (ym x)).
  pose proof (days_in_month_bounds (ym x + months)).
  destruct (Z_le_gt_dec (dom x) (days_in_month (ym x + months))) as [Hle|Hgt].
  - unfold of_fields. rewrite make_day_in_range by lia.
    unfold getDate. simpl. rewrite Z.eqb_refl. simpl.
    rewrite Z.min_l by lia. reflexivity.
  - unfold of_fields. rewrite make_day_over by lia.
    unfold getDate. simpl.
    destruct (dom x - days_in_month (ym x + months) =? dom x) eqn:E;
      [apply Z.eqb_eq in E; lia|]. simpl.
    unfold setDate, of_fields. cbn [ym dom tod].
    rewrite make_day_under by lia. cbn [ym dom tod].
    replace (ym x + months + 1 - 1) with (ym x + months) by lia.
    rewrite Z.min_r by lia. reflexivity.
Qed.

(** C4: advancing a date by [months] months (the planner advances by 3)
    gives a date in the month exactly [months] later: on the same day of
    the month when that day exists there, and on that month's last day
    when it does not, never in a later month.  In particular three months
    from 31-01-2024 is 30-04-2024. *)
Theorem C4_addMonths_clamps (x : JsDate.t) (months : Z) :
  wf x ->
  exists r,
    addMonths (Some x) months = Some r
    /\ ym r = ym x + months
    /\ tod r = tod x
    /\ (dom x <= days_in_month (ym x + months) -> dom r = dom x)
    /\ (days_in_month (ym x + months) < dom x -> dom r = days_in_month (ym x + months))
    /\ formatDate (addMonths (parseDate "31-01-2024") 3) = "30-04-2024".
Proof.
  intros Hwf. rewrite (addMonths_clamped x months Hwf). eexists. split; [reflexivity|].
  cbn [ym dom tod]. split; [reflexivity|]. split; [reflexivity|].
  split; [lia|]. split; [lia|]. vm_compute. reflexivity.
Qed.

End Calendar.

(* ===================================================================== *)
(** * Printing and reading dates *)
(* ===================================================================== *)

Section Format.
Local Open Scope Z_scope.
Import JsString.

Lemma digit_cases k : 0 <= k <= 9 ->
  k = 0 \/ k = 1 \/ k = 2 \/ k = 3 \/ k = 4 \/ k = 5 \/ k = 6 \/ k = 7 \/ k = 8 \/ k = 9.
Proof. lia. Qed.

Lemma digit_val_chr k : 0 <= k <= 9 -> digit_val (digit_chr k) = k.
Proof.
  intros Hk. destruct (digit_cases k Hk) as [->|[->|[->|[->|[->|[->|[->|[->|[->| ->]]]]]]]]];
    reflexivity.
Qed.

Lemma is_digit_chr k : 0 <= k <= 9 -> is_digit (digit_chr k) = true.
Proof.
  intros Hk. destruct (digit_cases k Hk) as [->|[->|[->|[->|[->|[->|[->|[->|[->| ->]]]]]]]]];
    reflexivity.
Qed.

Lemma is_digit_not_space c : is_digit c = true -> is_white_space c = false.
Proof.
  unfold is_digit, is_white_space. generalize (code c). intros n.
  rewrite andb_true_iff, !orb_false_iff, andb_false_iff, !Z.leb_le, !Z.leb_gt, !Z.eqb_neq.
  lia.
Qed.

Lemma is_digit_not_dash c : is_digit c = true -> Ascii.eqb c "-" = false.
Proof.
  intros Hc. destruct (Ascii.eqb_spec c "-") as [->|]; [|reflexivity].
  vm_compute in Hc. discriminate.
Qed.

Lemma digits_value_app a s1 s2 :
  digits_value a (s1 +:+ s2) = digits_value (digits_value a s1) s2.
Proof.
  revert a. induction s1 as [|c s1 IH]; intros a; [reflexivity|].
  rewrite append_cons. simpl. apply IH.
Qed.

Lemma all_digits_app s1 s2 :
  all_digits (s1 +:+ s2) = all_digits s1 && all_digits s2.
Proof.
  induction s1 as [|c s1 IH]; [reflexivity|].
  rewrite append_cons. simpl. rewrite IH. apply andb_assoc.
Qed.

Lemma digits_go_app fuel : forall n acc,
  digits_go fuel n acc = digits_go fuel n EmptyString +:+ acc.
Proof.
  induction fuel as [|fuel IH]; intros n acc; simpl; [reflexivity|].
  destruct (n <=? 0); [reflexivity|].
  rewrite (IH _ (String _ acc)), (IH _ (String _ EmptyString)).
  rewrite append_assoc. reflexivity.
Qed.

Lemma digits_go_spec fuel : forall n,
  0 <= n <= Z.of_nat fuel ->
  digits_value 0 (digits_go fuel n EmptyString) = n
  /\ all_digits (digits_go fuel n EmptyString) = true.
Proof.
  induction fuel as [|fuel IH]; intros n Hn; simpl.
  - split; [lia | reflexivity].
  - destruct (n <=? 0) eqn:E.
    + apply Z.leb_le in E. split; [simpl; lia | reflexivity].
    + apply Z.leb_gt in E.
      assert (0 <= n mod 10 <= 9) as Hm by (pose proof (Z.mod_pos_bound n 10); lia).
      assert (0 <= n / 10 <= Z.of_nat fuel) as Hq.
      { split; [apply Z.div_pos; lia|].
        assert (n / 10 < n) by (apply Z.div_lt; lia). lia. }
      destruct (IH _ Hq) as [Hv Ha].
      rewrite digits_go_app, digits_value_app, all_digits_app, Hv, Ha. simpl.
      rewrite digit_val_chr, is_digit_chr by done.
      split; [|reflexivity].
      pose proof (Z.div_mod n 10). lia.
Qed.

Lemma digits_spec n :
  0 <= n ->
  digits_value 0 (digits n) = n /\ all_digits (digits n) = true
  /\ digits n <> EmptyString.
Proof.
  intros Hn. unfold digits. destruct (n <=? 0) eqn:E.
  - apply Z.leb_le in E. assert (n = 0) as -> by lia. done.
  - apply Z.leb_gt in E.
    destruct (digits_go_spec (Z.to_nat n) n) as [Hv Ha]; [lia|].
    split; [done|]. split; [done|].
    intros Hempty. rewrite Hempty in Hv. simpl in Hv. lia.
Qed.

Lemma trimStart_digits s : all_digits s = true -> trimStart s = s.
Proof.
  destruct s as [|c s]; [reflexivity|]. simpl.
  intros [Hc _]%andb_true_iff. by rewrite is_digit_not_space.
Qed.

Lemma trimEnd_digits s : all_digits s = true -> trimEnd s = s.
Proof.
  induction s as [|c s IH]; [reflexivity|]. simpl.
  intros [Hc Hs]%andb_true_iff. rewrite (IH Hs).
  destruct s; [by rewrite is_digit_not_space | reflexivity].
Qed.

Lemma Number_digit_string s :
  s <> EmptyString -> all_digits s = true -> Number s = Some (digits_value 0 s).
Proof.
  intros Hne Hs. unfold Number, trim.
  rewrite trimStart_digits, trimEnd_digits by done.
  destruct s; [done|]. by rewrite Hs.
Qed.

Lemma String_of_Z_digits n : 0 <= n -> String_of_Z n = digits n.
Proof.
  intros Hn. unfold String_of_Z.
  destruct (n <? 0) eqn:E; [apply Z.ltb_lt in E; lia | reflexivity].
Qed.

Lemma padStart2_digits s :
  s <> EmptyString -> all_digits s = true ->
  padStart2 s <> EmptyString /\ all_digits (padStart2 s) = true
  /\ digits_value 0 (padStart2 s) = digits_value 0 s.
Proof.
  intros Hne Hs. destruct s as [|c [|c' s]]; [done| |]; simpl in *.
  - rewrite Hs. done.
  - done.
Qed.

Lemma split_digits s : all_digits s = true -> split "-" s = [s].
Proof.
  induction s as [|c s IH]; [reflexivity|]. simpl.
  intros [Hc Hs]%andb_true_iff.
  rewrite (is_digit_not_dash _ Hc), (IH Hs). reflexivity.
Qed.

Lemma split_nonempty sep s : split sep s <> [].
Proof.
  destruct s as [|c s]; simpl; [done|].
  destruct (Ascii.eqb c sep); [done|]. by destruct (split sep s).
Qed.

Lemma split_app_sep sep a b :
  split sep (a +:+ String sep b) = split sep a ++ split sep b.
Proof.
  induction a as [|c a IH].
  - rewrite append_nil_l. simpl. by rewrite Ascii.eqb_refl.
  - rewrite append_cons. simpl. rewrite IH.
    destruct (Ascii.eqb c sep); [reflexivity|].
    pose proof (split_nonempty sep a). by destruct (split sep a).
Qed.

End Format.

(* ===================================================================== *)
(** * The planner *)
(* ===================================================================== *)

Section Planner.
Local Open Scope Z_scope.
Import JsDate JsString.

Lemma of_fields_tod m d ms : tod (of_fields m d ms) = ms.
Proof. unfold of_fields. by destruct (make_day m d). Qed.

Lemma parseDate_wf s x : parseDate s = Some x -> wf x /\ tod x = 0.
Proof.
  unfold parseDate. intros Hp.
  repeat (case_match; try discriminate). simplify_eq.
  unfold new_ymd. split; [apply of_fields_wf; lia | apply of_fields_tod].
Qed.

Lemma dash_append z : "-" +:+ z = String "-" z.
Proof. reflexivity. Qed.

(** Reading back a printed date gives the same day, at midnight. *)
Lemma parseDate_formatDate x :
  wf x -> year_from_100 x ->
  parseDate (formatDate (Some x)) = Some (mk (ym x) (dom x) 0).
Proof.
  intros [Hd Ht] Hy. unfold year_from_100 in Hy.
  pose proof (days_in_month_bounds (ym x)).
  assert (0 <= getDate x) as Hd0 by (unfold getDate; lia).
  assert (0 <= getMonth x + 1) as Hm0
    by (unfold getMonth; pose proof (Z.mod_pos_bound (ym x) 12); lia).
  assert (100 <= getFullYear x) as Hy0
    by (unfold getFullYear; apply Z.div_le_lower_bound; lia).
  unfold formatDate, parseDate.
  rewrite !String_of_Z_digits by lia.
  destruct (digits_spec _ Hd0) as (Vd&Ad&Nd).
  destruct (digits_spec _ Hm0) as (Vm&Am&Nm).
  destruct (digits_spec (getFullYear x)) as (Vy&Ay&Ny); [lia|].
  destruct (padStart2_digits _ Nd Ad) as (Nd'&Ad'&Vd').
  destruct (padStart2_digits _ Nm Am) as (Nm'&Am'&Vm').
  rewrite !dash_append, !split_app_sep, !split_digits by done.
  simpl. rewrite !Number_digit_string by done.
  rewrite Vd', Vm', Vd, Vm, Vy.
  unfold new_ymd.
  destruct ((0 <=? getFullYear x) && (getFullYear x <=? 99)) eqn:E.
  { apply andb_true_iff in E as [_ E]. apply Z.leb_le in E. lia. }
  replace (12 * getFullYear x + (getMonth x + 1 - 1)) with (ym x)
    by (unfold getFullYear, getMonth; pose proof (Z.div_mod (ym x) 12); lia).
  unfold of_fields, getDate. rewrite make_day_in_range by lia. reflexivity.
Qed.

Lemma gtb_false a b :
  gtb a b = false <->
  ym a < ym b \/ (ym a = ym b /\ (dom a < dom b \/ (dom a = dom b /\ tod a <= tod b))).
Proof.
  unfold gtb.
  rewrite !orb_false_iff, !andb_false_iff, !orb_false_iff, !andb_false_iff,
    !Z.ltb_ge, !Z.eqb_neq.
  lia.
Qed.

Lemma next_day_wf x : wf x -> wf (next_day x) /\ JsDate.lt x (next_day x).
Proof.
  intros [Hd Ht]. unfold next_day, wf, JsDate.lt.
  pose proof (days_in_month_bounds (ym x + 1)).
  destruct (dom x <? days_in_month (ym x)) eqn:E; simpl.
  - apply Z.ltb_lt in E. lia.
  - lia.
Qed.

Lemma digits_value_nonneg s : forall a,
  all_digits s = true -> 0 <= a -> 0 <= digits_value a s.
Proof.
  induction s as [|c s IH]; intros a Hs Ha; simpl in *; [exact Ha|].
  apply andb_true_iff in Hs as [Hc Hs]. apply IH; [exact Hs|].
  unfold is_digit, digit_val in *. apply andb_true_iff in Hc as [Hc _].
  apply Z.leb_le in Hc. lia.
Qed.

Lemma Number_nonneg s n : Number s = Some n -> 0 <= n.
Proof.
  unfold Number. destruct (trim s) as [|c r] eqn:E; [intros [= <-]; lia|].
  destruct (all_digits (String c r)) eqn:Hd; [|discriminate].
  intros Hn. assert (n = digits_value 0 (String c r)) as -> by congruence.
  apply digits_value_nonneg; [exact Hd | lia].
Qed.

Lemma roll_from_1 fuel : forall m d, 1 <= d -> m <= fst (roll fuel m d).
Proof.
  induction fuel as [|fuel IH]; intros m d Hd; simpl; [lia|].
  destruct (d <? 1) eqn:E1; [apply Z.ltb_lt in E1; lia|].
  destruct (days_in_month m <? d) eqn:E2; [|simpl; lia].
  apply Z.ltb_lt in E2. specialize (IH (m + 1) (d - days_in_month m)). lia.
Qed.

Lemma roll_from_0 fuel m d : 0 <= d -> m - 1 <= fst (roll fuel m d).
Proof.
  intros Hd. destruct fuel as [|fuel]; simpl; [lia|].
  destruct (d <? 1) eqn:E1.
  - pose proof (days_in_month_bounds (m - 1)).
    apply (roll_from_1 fuel (m - 1)). lia.
  - pose proof (roll_from_1 (S fuel) m d) as Hr.
    simpl in Hr. rewrite E1 in Hr. apply Z.ltb_ge in E1. lia.
Qed.

Lemma Numbers_nonneg l :
  Forall (fun o => forall n, o = Some n -> 0 <= n) (map Number l).
Proof.
  induction l as [|s l IH]; simpl; constructor; [|exact IH].
  intros n Hn. by apply (Number_nonneg s).
Qed.

(** No string reads as a date before November of the year 99. *)
Lemma parseDate_lower s x : parseDate s = Some x -> 1198 <= ym x.
Proof.
  unfold parseDate. intros Hp.
  pose proof (Numbers_nonneg (split "-" s)) as Hn.
  destruct (map Number (split "-" s)) as [|[d|] [|[m|] [|[y|] rest]]]; try discriminate.
  simplify_eq.
  apply Forall_cons in Hn as [Hd Hn]. apply Forall_cons in Hn as [Hm Hn].
  apply Forall_cons in Hn as [Hy _].
  specialize (Hd d eq_refl). specialize (Hm m eq_refl). specialize (Hy y eq_refl).
  unfold new_ymd, of_fields.
  match goal with
  | |- context [make_day ?m ?d] =>
      pose proof (roll_from_0 (S (Z.to_nat (Z.abs d))) m d) as Hr;
      unfold make_day; destruct (roll _ m d) as [m' d'] eqn:Er
  end.
  cbn [ym fst] in *.
  match type of Hr with context [if ?b then _ else _] => destruct b eqn:Eb end; lia.
Qed.

(** What [next_window] gives. *)
Lemma next_window_follows today f to x f' t' :
  parseDate to = Some x -> wf today -> year_from_100 today ->
  next_window today to = Some (f', t') ->
  follows (f, to) (f', t').
Proof.
  intros Hp Htoday Hytoday. destruct (parseDate_wf _ _ Hp) as [Hx Hx0].
  pose proof (parseDate_lower _ _ Hp) as Hxl.
  unfold next_window. rewrite Hp, (addDays_next x Hx). fold (next_day x).
  destruct (next_day_wf x Hx) as [Hnx Hlt].
  set (nx := next_day x) in *.
  assert (tod nx = 0) as Hnx0.
  { unfold nx, next_day. destruct (_ <? _); simpl; exact Hx0. }
  assert (ym x <= ym nx) as Hym.
  { unfold nx, next_day. destruct (_ <? _); simpl; lia. }
  cbn [gt]. destruct (gtb nx today) eqn:Hgt; [discriminate|].
  rewrite (addMonths_clamped nx 3 Hnx).
  set (am := mk (ym nx + 3) (Z.min (dom nx) (days_in_month (ym nx + 3))) (tod nx)).
  assert (wf am) as Ham.
  { unfold am, wf. simpl. pose proof (days_in_month_bounds (ym nx + 3)).
    destruct Hnx as [? ?]. lia. }
  rewrite (addDays_prev am Ham).
  set (pe := if 1 <? dom am then mk (ym am) (dom am - 1) (tod am)
             else mk (ym am - 1) (days_in_month (ym am - 1)) (tod am)).
  assert (wf pe /\ ym nx + 2 <= ym pe) as [Hpe Hpe_ym].
  { unfold pe. destruct (1 <? dom am) eqn:E; unfold wf; simpl.
    - apply Z.ltb_lt in E. destruct Ham as [? ?]. simpl in *. lia.
    - pose proof (days_in_month_bounds (ym nx + 3 - 1)).
      destruct Ham as [? ?]. simpl in *. lia. }
  set (ne := if gt (Some pe) (Some today) then Some today else Some pe).
  assert (exists e, ne = Some e /\ wf e /\ year_from_100 e /\ gtb nx e = false)
    as (e&He&Hwe&Hye&Hge).
  { unfold ne. cbn [gt]. destruct (gtb pe today).
    - exists today. done.
    - exists pe. split; [done|]. split; [done|].
      split; [unfold year_from_100; lia|]. apply gtb_false. lia. }
  rewrite He. cbn [gt]. rewrite Hge. intros [= <- <-].
  assert (mk (ym nx) (dom nx) 0 = nx) as Hnx_eq.
  { destruct nx as [a b c]. simpl in *. by subst. }
  pose proof (parseDate_formatDate e Hwe Hye) as Pe.
  exists x, nx, (mk (ym e) (dom e) 0). cbn [fst snd].
  split; [exact Hp|]. split; [apply (addDays_next x Hx)|]. split; [reflexivity|].
  split; [reflexivity|]. split; [exact Pe|]. split; [exact Hlt|]. split.
  - apply gtb_false in Hge. unfold JsDate.le, JsDate.lt. simpl.
    destruct Hge as [?|[? [?|[? ?]]]]; [left; lia | left; lia |].
    right. rewrite <- Hnx_eq. f_equal; lia.
  - intros Hynx. pose proof (parseDate_formatDate nx Hnx Hynx) as Pn.
    rewrite Hnx_eq in Pn. exact Pn.
Qed.

(** Every date string the prompt accepts reads as a date. *)
Lemma validated_date_parses s :
  date_format_test s = true -> exists x, parseDate s = Some x.
Proof.
  unfold date_format_test.
  destruct s as [|d1 [|d2 [|h1 [|m1 [|m2 [|h2 [|y1 [|y2 [|y3 [|y4 [|? ?]]]]]]]]]]];
    try discriminate.
  rewrite !andb_true_iff.
  intros [[[[[[[[[D1 D2] H1] M1] M2] H2] Y1] Y2] Y3] Y4].
  apply Ascii.eqb_eq in H1, H2. subst h1 h2.
  unfold parseDate.
  change (String d1 (String d2 (String "-" (String m1 (String m2
            (String "-" (String y1 (String y2 (String y3 (String y4 EmptyString))))))))))
    with (String d1 (String d2 EmptyString)
          +:+ String "-" (String m1 (String m2 EmptyString)
          +:+ String "-" (String y1 (String y2 (String y3 (String y4 EmptyString)))))).
  assert (all_digits (String d1 (String d2 EmptyString)) = true) as Ad
    by (simpl; rewrite D1, D2; reflexivity).
  assert (all_digits (String m1 (String m2 EmptyString)) = true) as Am
    by (simpl; rewrite M1, M2; reflexivity).
  assert (all_digits (String y1 (String y2 (String y3 (String y4 EmptyString)))) = true) as Ay
    by (simpl; rewrite Y1, Y2, Y3, Y4; reflexivity).
  rewrite !split_app_sep, !split_digits by done.
  cbn [map app]. rewrite !Number_digit_string by done.
  eexists. reflexivity.
Qed.

End Planner.

(* ===================================================================== *)
(** * The windows of a run *)
(* ===================================================================== *)

Lemma periods_app a b : periods (a ++ b) = periods a ++ periods b.
Proof. apply omap_app. Qed.

Lemma periods_none evs :
  Forall (fun e => ~ is_period e) evs -> periods (rev evs) = [].
Proof.
  induction 1 as [|e evs He _ IH]; [reflexivity|].
  simpl. rewrite periods_app, IH. destruct e; simpl in *; tauto.
Qed.

Section Windows.
Context `{Env}.

Lemma page_loop_no_period fuel client f t dir options : forall page,
  preserves (extends (fun e => ~ is_period e)) (page_loop fuel client f t dir options page).
Proof.
  induction fuel as [|fuel IH]; intros page; simpl.
  - pres_step.
  - unfold scrape_page, process_contract, download_contract.
    repeat first [ apply IH | pres_step | solve [quiet] ].
Qed.

Lemma setup_cache_no_period :
  preserves (extends (fun e => ~ is_period e)) setup_cache.
Proof.
  unfold setup_cache. repeat first [ pres_step | solve [quiet] ].
Qed.

(** The windows one call of [scrapeRange] opens: its own, once, unless the
    directory cannot be created. *)
Lemma scrapeRange_periods fuel client f t options s :
  exists evs,
    history (exec (scrapeRange fuel client f t options) s) = history s ++ evs
    /\ (periods evs = [(f, t)]
        \/ (periods evs = [] /\ outcome (scrapeRange fuel client f t options) s <> Ok tt)).
Proof.
  unfold exec, outcome. rewrite scrapeRange_run.
  set (dir := path_join PDF_ROOT (f +:+ "_to_" +:+ t)).
  destruct (fs_fails (trace s) (OpEnsureDir dir)).
  { exists [EvEnsureDir dir false]. split; [reflexivity|]. right. done. }
  set (s3 := add_event _ (add_event _ (add_event _ (set_dirs _ s)))).
  destruct (extends_history _ _ _ (page_loop_no_period fuel client f t dir options 0%nat s3))
    as (evs&Hh&Hq).
  exists (EvEnsureDir dir true :: EvLogPeriod f t :: EvLog (saving_line dir) :: rev evs).
  split.
  - fold (exec (page_loop fuel client f t dir options 0) s3). rewrite Hh.
    unfold s3, history. simpl. rewrite <- !app_assoc. reflexivity.
  - left. simpl. change (periods (rev evs)) with (periods (rev evs)).
    unfold periods at 1. simpl. fold (periods (rev evs)).
    by rewrite (periods_none _ Hq).
Qed.

Lemma window_loop_periods pages client options repeat today fuel : forall f t s,
  exists evs,
    history (exec (window_loop fuel pages client options repeat today f t) s)
      = history s ++ evs
    /\ window_chain today (f, t) (periods evs).
Proof.
  induction fuel as [|fuel IH]; intros f t s.
  - exists []. simpl. rewrite app_nil_r. done.
  - simpl window_loop. rewrite exec_bind.
    destruct (scrapeRange_periods pages client f t options s) as (evs&Hh&Hp).
    destruct (outcome (scrapeRange pages client f t options) s) as [[]| |] eqn:Hout.
    2,3: (exists evs; split; [exact Hh|];
          destruct Hp as [->|[-> _]]; simpl; auto).
    destruct Hp as [Hp|[_ Hp]]; [|done].
    destruct (negb repeat).
    { exists evs. split; [exact Hh|]. rewrite Hp. simpl. auto. }
    destruct (next_window today t) as [[f' t']|] eqn:Hnext.
    2:{ exists evs. split; [exact Hh|]. rewrite Hp. simpl. auto. }
    destruct (IH f' t' (exec (scrapeRange pages client f t options) s)) as (evs'&Hh'&Hc).
    exists (evs ++ evs'). split.
    + rewrite Hh', Hh, app_assoc. reflexivity.
    + rewrite periods_app, Hp. simpl. split; [reflexivity|].
      right. exists (f', t'). done.
Qed.

(** The loops only add events. *)
Lemma page_loop_extends client f t options fuel : forall page dir,
  preserves (extends (fun _ => True)) (page_loop fuel client f t dir options page).
Proof.
  induction fuel as [|n IHn]; intros page dir; simpl; [pres_step|].
  unfold scrape_page, process_contract, download_contract.
  repeat first [ apply IHn | pres_step | solve [quiet] ].
Qed.

Lemma window_loop_extends fuel pages client options repeat today : forall f t,
  preserves (extends (fun _ => True))
    (window_loop fuel pages client options repeat today f t).
Proof.
  induction fuel as [|fuel IH]; intros f t; simpl.
  - pres_step.
  - unfold scrapeRange.
    repeat first [ apply page_loop_extends | apply IH | pres_step | solve [quiet] ].
Qed.

(** [runScraper] around its two parts. *)
Lemma runScraper_run fuel answers s :
  let client := {| client_cookie := cookie answers |} in
  let options := {| opt_throttleTime := throttleTime answers;
                    opt_department := department answers;
                    opt_bno := bno answers;
                    opt_buyer_category := buyer_category answers |} in
  runScraper fuel answers s =
    match outcome setup_cache s with
    | Ok _ =>
        let s1 := exec setup_cache s in
        let s2 := set_stats (fun _ => zero_stats)
                    (add_event (EvLog (loaded_line (size (cachedIds s1)))) s1) in
        let today := clock (trace s2) in
        let s3 := add_event (EvNow today) s2 in
        let wl := window_loop fuel fuel client options (repeatTillDate answers) today
                    (fromDate answers) (toDate answers) in
        match outcome wl s3 with
        | Ok _ =>
            (add_event (EvLogStats (stats (exec wl s3)))
               (add_event (EvLog all_done_line) (exec wl s3)),
             Ok tt)
        | Throw e => (exec wl s3, Throw e)
        | OutOfFuel => (exec wl s3, OutOfFuel)
        end
    | Throw e => (exec setup_cache s, Throw e)
    | OutOfFuel => (exec setup_cache s, OutOfFuel)
    end.
Proof.
  simpl. unfold runScraper, exec, outcome, bind, gets, console_log, modify, new_Date_now.
  destruct (setup_cache s) as [s1 [[]| |]]; simpl; try reflexivity.
  destruct (window_loop _ _ _ _ _ _ _ _ _) as [s4 [[]| |]]; reflexivity.
Qed.

Lemma runScraper_periods fuel answers dirs files :
  exists t,
    window_chain (clock t) (fromDate answers, toDate answers)
      (periods (history (exec (runScraper fuel answers) (boot dirs files)))).
Proof.
  set (s0 := boot dirs files). unfold exec at 1. rewrite runScraper_run.
  destruct (extends_history _ _ _ (setup_cache_no_period s0)) as (pre&Hpre&Hq).
  change (history s0) with (@nil Event) in Hpre. rewrite app_nil_l in Hpre.
  destruct (outcome setup_cache s0) as [[]| |].
  2,3: (exists []; simpl; rewrite Hpre, (periods_none _ Hq); exact I).
  cbv zeta.
  set (s1 := exec setup_cache s0) in *.
  set (s2 := set_stats _ (add_event _ s1)).
  set (today := clock (trace s2)).
  set (s3 := add_event (EvNow today) s2).
  set (wl := window_loop _ _ _ _ _ _ _ _).
  exists (trace s2).
  destruct (window_loop_periods fuel {| client_cookie := cookie answers |}
              {| opt_throttleTime := throttleTime answers;
                 opt_department := department answers;
                 opt_bno := bno answers;
                 opt_buyer_category := buyer_category answers |}
              (repeatTillDate answers) today fuel (fromDate answers) (toDate answers) s3)
    as (evs&Hh&Hc).
  fold wl in Hh.
  assert (periods (history s3) = []) as Hs3.
  { unfold s3, s2, history. simpl. fold (history s1).
    rewrite !periods_app, Hpre, (periods_none _ Hq). reflexivity. }
  assert (periods (history (exec wl s3)) = periods evs) as Hw.
  { rewrite Hh, periods_app, Hs3. reflexivity. }
  destruct (outcome wl s3); simpl; unfold history; simpl; fold (history (exec wl s3));
    rewrite ?periods_app, Hw, ?app_nil_r; exact Hc.
Qed.

Lemma window_chain_follows today :
  JsDate.wf today -> year_from_100 today ->
  forall ws w x,
    parseDate (snd w) = Some x ->
    window_chain today w ws ->
    forall i w1 w2, ws !! i = Some w1 -> ws !! S i = Some w2 -> follows w1 w2.
Proof.
  intros Htoday Hytoday.
  induction ws as [|w' rest IH]; intros w x Hp Hc i w1 w2 H1 H2.
  - done.
  - simpl in Hc. destruct Hc as [-> [->|(wn&Hnext&Hc)]]; [by destruct i|].
    destruct w as [f t], wn as [f' t']. simpl in Hp, Hnext.
    pose proof (next_window_follows today f t x f' t' Hp Htoday Hytoday Hnext) as Hf.
    destruct i as [|i]; simpl in H1, H2.
    + simplify_eq. destruct rest as [|w3 rest]; [done|].
      simpl in H2, Hc. destruct Hc as [-> _]. by simplify_eq.
    + destruct Hf as (_&_&e2&_&_&_&_&He2&_).
      eapply (IH (f', t') e2); eauto.
Qed.

(** C2: the windows a run opens.  The first window is the pair of
    strings that was typed in, as it is.  When the to-date the run
    starts from has the form the prompt asks for and the clock gives a
    real date (of a year from 100 to 275759), each window after the
    first starts on the calendar day after the previous window's
    to-date (no gap, no overlap), hence strictly after the previous
    window ends, and does not end before it starts. *)
Theorem C2_windows_contiguous fuel answers dirs files :
  date_format_test (toDate answers) = true ->
  (forall t, clock_reading (clock t)) ->
  let ws := periods (history (exec (runScraper fuel answers) (boot dirs files))) in
  (forall w, ws !! 0%nat = Some w -> w = (fromDate answers, toDate answers))
  /\ (forall i w1 w2, ws !! i = Some w1 -> ws !! S i = Some w2 -> follows w1 w2).
Proof.
  intros Hfmt Hclock. cbv zeta.
  destruct (validated_date_parses _ Hfmt) as [x Hp].
  destruct (runScraper_periods fuel answers dirs files) as (t&Hc).
  destruct (Hclock t) as (Hwf & Hy & _). split.
  - intros w Hw. destruct (periods _) as [|w0 ws]; [done|].
    destruct Hc as [-> _]. cbn in Hw. by injection Hw.
  - intros i w1 w2 H1 H2.
    eapply (window_chain_follows (clock t) Hwf Hy _ (fromDate answers, toDate answers) x);
      eauto.
Qed.

End Windows.

(* ===================================================================== *)
(** * The record step over a whole run *)
(* ===================================================================== *)

Section RecordRun.
Context `{Env}.


End RecordRun.

(* ===================================================================== *)
(** * What is checked before a run, and where *)
(* ===================================================================== *)

Section Config.
Context `{Env}.

Lemma validate_cookie_None input :
  validate_cookie input = None <-> input <> EmptyString.
Proof. unfold validate_cookie. destruct input; simpl; split; done. Qed.

Lemma validate_date_None input :
  validate_date input = None <-> date_format_test input = true.
Proof. unfold validate_date. destruct (date_format_test input); split; done. Qed.

Lemma prompt_accepts_true a :
  prompt_accepts a = true <->
  cookie a <> EmptyString
  /\ date_format_test (fromDate a) = true
  /\ date_format_test (toDate a) = true.
Proof.
  unfold prompt_accepts.
  rewrite !andb_true_iff, !bool_decide_eq_true,
    validate_cookie_None, !validate_date_None.
  tauto.
Qed.

#[local] Instance dirs_grow_refl : Reflexive dirs_grow.
Proof. intros s. unfold dirs_grow. done. Qed.

#[local] Instance dirs_grow_trans : Transitive dirs_grow.
Proof. intros a b c. unfold dirs_grow. set_solver. Qed.

Ltac more_dirs := prim; unfold dirs_grow; simpl; set_solver.

(** No directory is ever removed. *)
Lemma window_loop_dirs_grow fuel pages client options repeat today : forall f t,
  preserves dirs_grow (window_loop fuel pages client options repeat today f t).
Proof.
  assert (forall f t dir n page,
    preserves dirs_grow (page_loop n client f t dir options page)) as Hp.
  { intros f t dir. induction n as [|n IHn]; intros page; simpl; [pres_step|].
    unfold scrape_page, process_contract, download_contract.
    repeat first [ apply IHn | pres_step | solve [more_dirs] ]. }
  induction fuel as [|n IHn]; intros f t; simpl; [pres_step|].
  unfold scrapeRange.
  repeat first [ apply Hp | apply IHn | pres_step | solve [more_dirs] ].
Qed.

(** The first thing a run does. *)
Lemma runScraper_first_event fuel answers s :
  exists ok later,
    history (exec (runScraper fuel answers) s)
    = history s ++ EvEnsureDir PDF_ROOT ok :: later
    /\ (ok = true -> PDF_ROOT ∈ fs_dirs (exec (runScraper fuel answers) s)).
Proof.
  assert (exists ok later0,
    history (exec setup_cache s) = history s ++ EvEnsureDir PDF_ROOT ok :: later0
    /\ (ok = true -> PDF_ROOT ∈ fs_dirs (exec setup_cache s))) as (ok&later0&Hs&Hd).
  { unfold setup_cache, exec, bind, history. unfold_prims. simpl.
    destruct (fs_fails _ (OpEnsureDir _)); simpl.
    - exists false, []. split; [reflexivity | done].
    - exists true.
      repeat (case_match; simpl in *; simplify_eq);
        rewrite <- ?app_assoc; (eexists; split; [reflexivity | intros _; set_solver]). }
  unfold exec at 1 2. rewrite runScraper_run.
  destruct (outcome setup_cache s); [|by eauto..].
  cbv zeta.
  set (wl := window_loop _ _ _ _ _ _ _ _).
  set (s3 := add_event (EvNow _) _).
  assert (dirs_grow s3 (exec wl s3)) as Hgrow by apply window_loop_dirs_grow.
  assert (ok = true -> PDF_ROOT ∈ fs_dirs (exec wl s3)) as Hd'
    by (intros Hok; apply Hgrow, (Hd Hok)).
  assert (extends (fun _ => True) s3 (exec wl s3)) as Hx
    by apply window_loop_extends.
  apply extends_history in Hx as (evs&Hh&_).
  assert (exists mid, history s3 = history s ++ EvEnsureDir PDF_ROOT ok :: mid)
    as (mid&Hs3).
  { eexists. unfold s3, history. simpl. fold (history (exec setup_cache s)).
    rewrite Hs, <- !app_assoc. reflexivity. }
  rewrite Hs3 in Hh.
  destruct (outcome wl s3); simpl; unfold history; simpl;
    fold (history (exec wl s3)); rewrite Hh, <- ?app_assoc; simpl;
    eexists ok, _; (split; [reflexivity | exact Hd']).
Qed.

(** C9 as amended: an empty credential and a date that is not two
    digits, a dash, two digits, a dash and four digits are turned down by
    the validators of the prompt, which lets through exactly the answers
    with a non-empty cookie and two dates of that form.  [runScraper]
    itself checks nothing: whatever the answers, its first action is to
    create the output root directory, and the only exceptions that leave
    it are storage errors. *)
Theorem C9_validated_at_prompt_only :
  (forall input, validate_cookie input = None <-> input <> EmptyString)
  /\ (forall input, validate_date input = None <-> date_format_test input = true)
  /\ (forall a, prompt_accepts a = true <->
                cookie a <> EmptyString
                /\ date_format_test (fromDate a) = true
                /\ date_format_test (toDate a) = true)
  /\ (forall fuel answers s,
        exists ok later,
          history (exec (runScraper fuel answers) s)
          = history s ++ EvEnsureDir PDF_ROOT ok :: later
          /\ (ok = true -> PDF_ROOT ∈ fs_dirs (exec (runScraper fuel answers) s)))
  /\ (forall fuel answers s e,
        outcome (runScraper fuel answers) s = Throw e -> is_storage_error e).
Proof.
  split; [apply validate_cookie_None|]. split; [apply validate_date_None|].
  split; [apply prompt_accepts_true|]. split; [apply runScraper_first_event|].
  intros fuel answers s e. apply runScraper_throws.
Qed.

End Config.

(* ===================================================================== *)
(** * Running again over the same log *)
(* ===================================================================== *)

Section LogLines.
Import JsString.

Lemma split_no_newline s : has_newline s = false -> split newline s = [s].
Proof.
  induction s as [|c s IH]; [reflexivity|]. simpl.
  intros [Hc Hs]%orb_false_iff. rewrite Hc, (IH Hs). reflexivity.
Qed.

Lemma cache_lines_app log x :
  log_terminated log -> cache_lines (log +:+ x) = cache_lines log ++ cache_lines x.
Proof.
  intros [->|[l ->]]; [reflexivity|].
  unfold cache_lines, newline_str.
  rewrite append_assoc, append_cons, append_nil_l, !split_app_sep.
  rewrite !map_app, !List.filter_app. simpl.
  rewrite app_nil_r. reflexivity.
Qed.

Lemma cache_lines_line id : clean_id id -> cache_lines (cache_line id) = [id].
Proof.
  intros (Htrim&Hnl&Hne). unfold cache_lines, cache_line, newline_str.
  rewrite split_app_sep, (split_no_newline _ Hnl). simpl.
  rewrite Htrim. destruct id; [done | reflexivity].
Qed.

Lemma log_terminated_line log id : log_terminated (log +:+ cache_line id).
Proof.
  right. exists (log +:+ id). unfold cache_line. by rewrite append_assoc.
Qed.

Lemma load_cache_app log x :
  log_terminated log -> load_cache (log +:+ x) = load_cache log ∪ load_cache x.
Proof.
  intros Ht. unfold load_cache. rewrite (cache_lines_app _ _ Ht).
  apply list_to_set_app_L.
Qed.

End LogLines.

Section Rerun.
Context `{Env}.

#[local] Instance keeps_log_cover_refl : Reflexive keeps_log_cover.
Proof. intros s. unfold keeps_log_cover. auto. Qed.

#[local] Instance keeps_log_cover_trans : Transitive keeps_log_cover.
Proof. intros a b c. unfold keeps_log_cover. auto. Qed.

(** *** The first run leaves a log that covers its cache set *)

Lemma record_step_keeps_cover outputDir id pdf :
  preserves keeps_log_cover
    (fs_writeFile (pdf_path outputDir id) pdf ;;
     fs_appendFile CACHE_FILE (cache_line id) ;;
     cachedIds_add id ;;
     incr_downloaded).
Proof.
  intros s [Ht Hc]. unfold exec, bind. unfold_prims. simpl.
  destruct (fs_fails _ (OpWriteFile _ _)); simpl; [by split|].
  assert (<[pdf_path outputDir id:=pdf]> (fs_files s) !! CACHE_FILE
          = fs_files s !! CACHE_FILE) as Hlook
    by apply lookup_insert_ne, pdf_path_not_cache.
  destruct (fs_fails _ (OpAppendFile _ _)); simpl.
  - unfold log_covers_cache, cache_log in *. simpl. rewrite Hlook. by split.
  - unfold log_covers_cache, cache_log in *. simpl.
    rewrite lookup_insert_eq, Hlook. simpl.
    split; [apply log_terminated_line|].
    intros id' Hin Hclean. rewrite (load_cache_app _ _ Ht).
    apply elem_of_union in Hin as [Hin|Hin].
    + apply elem_of_singleton in Hin as ->. apply elem_of_union_r.
      unfold load_cache. rewrite (cache_lines_line _ Hclean). set_solver.
    + apply elem_of_union_l. by apply Hc.
Qed.

Lemma setup_cache_files s : fs_files (exec setup_cache s) = fs_files s.
Proof.
  unfold setup_cache, exec, bind. unfold_prims. simpl.
  repeat (case_match; simpl in *; simplify_eq); reflexivity.
Qed.

Lemma setup_cache_keeps_cover : preserves keeps_log_cover setup_cache.
Proof.
  intros s [Ht _]. unfold log_covers_cache, cache_log.
  rewrite setup_cache_files, setup_cache_loaded. split; [exact Ht|].
  intros id Hin _. destruct (outcome setup_cache s); [exact Hin | set_solver..].
Qed.

Ltac same_log :=
  prim; unfold keeps_log_cover, log_covers_cache, cache_log; simpl; auto.

Lemma runScraper_keeps_cover fuel answers :
  preserves keeps_log_cover (runScraper fuel answers).
Proof.
  assert (forall client f t dir options n page,
    preserves keeps_log_cover (page_loop n client f t dir options page)) as Hp.
  { intros client f t dir options. induction n as [|n IHn]; intros page; simpl; [pres_step|].
    unfold scrape_page, process_contract, download_contract.
    repeat first
      [ apply record_step_keeps_cover | apply IHn | pres_step | solve [same_log] ]. }
  assert (forall pages client options repeat today n f t,
    preserves keeps_log_cover (window_loop n pages client options repeat today f t)) as Hw.
  { intros pages client options repeat today.
    induction n as [|n IHn]; intros f t; simpl; [pres_step|].
    unfold scrapeRange.
    repeat first [ apply Hp | apply IHn | pres_step | solve [same_log] ]. }
  unfold runScraper.
  repeat first
    [ apply setup_cache_keeps_cover | apply Hw | pres_step | solve [same_log] ].
Qed.

(** *** A run whose listed ids are all in the cache set *)

Lemma listed_ids_app a b : listed_ids (a ++ b) = listed_ids a ++ listed_ids b.
Proof. apply flat_map_app. Qed.

Lemma listed_ids_rev evs id : id ∈ listed_ids (rev evs) <-> id ∈ listed_ids evs.
Proof.
  unfold listed_ids. rewrite !list_elem_of_In, !in_flat_map.
  split; intros (e&He&Hid); exists e; (split; [|done]).
  - by apply in_rev.
  - by apply in_rev in He.
Qed.

#[local] Instance all_skipped_refl : Reflexive all_skipped.
Proof.
  intros s. exists []. split; [reflexivity|]. intros _.
  repeat split; auto.
Qed.

#[local] Instance all_skipped_trans : Transitive all_skipped.
Proof.
  intros a b c (e1&H1&Q1) (e2&H2&Q2). exists (e2 ++ e1). split.
  - rewrite H2, H1, app_assoc. reflexivity.
  - intros Hin.
    destruct Q1 as (C1&D1&F1&S1&R1).
    { intros id Hid. apply Hin. rewrite listed_ids_app. apply elem_of_app. by right. }
    destruct Q2 as (C2&D2&F2&S2&R2).
    { intros id Hid. rewrite C1. apply Hin. rewrite listed_ids_app.
      apply elem_of_app. by left. }
    split; [congruence|]. split; [congruence|]. split; [congruence|].
    split; [lia|]. apply Forall_app. done.
Qed.

Lemma for_of_cached client dir options ids : forall s,
  (forall id, id ∈ ids -> id ∈ cachedIds s) ->
  let s' := exec (for_of ids (process_contract client dir options)) s in
  trace s' = trace s
  /\ cachedIds s' = cachedIds s
  /\ downloaded (stats s') = downloaded (stats s)
  /\ failed (stats s') = failed (stats s)
  /\ (scraped (stats s') + skipped (stats s) = scraped (stats s) + skipped (stats s'))%nat.
Proof.
  induction ids as [|id ids IH]; intros s Hin; simpl.
  - repeat split; lia.
  - rewrite exec_bind, process_contract_ok.
    assert (id ∈ cachedIds s) as Hid by (apply Hin; left).
    pose proof (process_contract_cached client dir options id s Hid) as (Sk&Dl&Fl&Ca&_&_&Tr).
    pose proof (process_contract_counted client dir options id s) as [Sc _].
    destruct (IH (exec (process_contract client dir options id) s)) as (T&C&D&F&S).
    { intros id' Hid'. rewrite Ca. apply Hin. by right. }
    simpl in *. repeat split; try congruence. lia.
Qed.

Ltac skip_prim :=
  prim;
  (eexists [_] || eexists []);
  (split; [reflexivity|]; intros _; repeat split; auto;
   repeat constructor; simpl; tauto).

Lemma scrape_page_all_skipped client f t dir options page :
  preserves all_skipped (scrape_page client f t dir options page).
Proof.
  intros s. unfold exec. rewrite scrape_page_run.
  set (payload := listing_payload f t options page).
  destruct (post_contract_details (trace s) client payload) as [e|data] eqn:Hpost.
  { eexists [_]. split; [reflexivity|]. intros _.
    repeat split; auto; repeat constructor; simpl; tauto. }
  destruct (ends_walk (inr data)).
  { eexists [_]. split; [reflexivity|]. intros _.
    repeat split; auto; repeat constructor; simpl; tauto. }
  set (s1 := add_event (EvPostListing payload (inr data)) s).
  set (ids := contractsOnPage (block_header_onclicks data)).
  set (items := for_of ids (process_contract client dir options)).
  assert (extends (fun _ => True) s1 (exec items s1)) as (ievs&Hi&_).
  { apply preserves_for_of; try apply _. intros id _.
    unfold process_contract, download_contract.
    repeat first [ pres_step | solve [quiet] ]. }
  exists (EvSleep 1000 :: ievs ++ [EvPostListing payload (inr data)]). split.
  - simpl. rewrite Hi. unfold s1. simpl. rewrite <- app_assoc. reflexivity.
  - intros Hin.
    destruct (for_of_cached client dir options ids s1) as (T&C&D&F&S).
    { intros id Hid. apply Hin. simpl. rewrite listed_ids_app.
      apply elem_of_app. right. simpl. rewrite app_nil_r. exact Hid. }
    fold items in T, C, D, F, S.
    assert (ievs = []) as ->.
    { rewrite T in Hi. apply (f_equal length) in Hi. rewrite length_app in Hi.
      destruct ievs; [reflexivity | simpl in Hi; lia]. }
    simpl. unfold s1 in *. simpl in *.
    repeat split; try done; repeat constructor; simpl; tauto.
Qed.

Lemma window_loop_all_skipped pages client options repeat today fuel : forall f t,
  preserves all_skipped (window_loop fuel pages client options repeat today f t).
Proof.
  assert (forall f t dir n page,
    preserves all_skipped (page_loop n client f t dir options page)) as Hp.
  { intros f t dir. induction n as [|n IHn]; intros page; simpl; [pres_step|].
    repeat first
      [ apply scrape_page_all_skipped | apply IHn | pres_step | solve [skip_prim] ]. }
  induction fuel as [|n IHn]; intros f t; simpl; [pres_step|].
  unfold scrapeRange.
  repeat first [ apply Hp | apply IHn | pres_step | solve [skip_prim] ].
Qed.

Lemma setup_cache_no_resolver :
  preserves (extends (fun e => ~ is_resolver_event e)) setup_cache.
Proof.
  unfold setup_cache. repeat first [ pres_step | solve [quiet] ].
Qed.

Lemma events_since_extends s s' new :
  trace s' = new ++ trace s -> events_since s s' = rev new.
Proof.
  intros Ht. unfold events_since, history. rewrite Ht, rev_app_distr.
  rewrite <- (length_rev (trace s)). apply drop_app_length.
Qed.

(** C8 as amended: run the crawl, then run it again over what the first
    run left on disk.  Suppose the log the first run started from was
    missing, empty or newline-terminated, and every id the second run
    extracts was in the first run's cache set at its end (it was
    downloaded or skipped by the first run) and is read back unchanged by
    the loader (no white space around it, no newline inside).  Then the
    second run never reaches the resolver: no token exchange, no fetch,
    no write, no append; and once past its start-up it ends with
    [downloaded = 0], [failed = 0] and [skipped = scraped]. *)
Theorem C8_rerun_skips_cached fuel1 fuel2 answers dirs files :
  log_terminated (default EmptyString (files !! CACHE_FILE)) ->
  let s1 := exec (runScraper fuel1 answers) (boot dirs files) in
  let s2 := exec (runScraper fuel2 answers) s1 in
  (forall id, id ∈ listed_ids (events_since s1 s2) -> id ∈ cachedIds s1 /\ clean_id id) ->
  Forall (fun e => ~ is_resolver_event e) (events_since s1 s2)
  /\ (outcome setup_cache s1 = Ok tt ->
      downloaded (stats s2) = 0%nat
      /\ failed (stats s2) = 0%nat
      /\ skipped (stats s2) = scraped (stats s2)).
Proof.
  intros Hterm. cbv zeta.
  set (s1 := exec (runScraper fuel1 answers) (boot dirs files)).
  assert (log_covers_cache s1) as [_ Hcover].
  { apply runScraper_keeps_cover. split; [exact Hterm|]. intros id Hin. set_solver. }
  pose proof (setup_cache_loaded s1) as Hload.
  destruct (setup_cache_no_resolver s1) as (pre&Hpre&Hq).
  remember (exec (runScraper fuel2 answers) s1) as final eqn:Hfin.
  unfold exec in Hfin. rewrite runScraper_run in Hfin.
  destruct (outcome setup_cache s1) as [[]| |] eqn:Hsetup.
  2,3: (intros _; simpl in Hfin; subst final;
        rewrite (events_since_extends _ _ _ Hpre);
        split; [by apply Forall_rev | done]).
  cbv zeta in Hfin. revert Hfin.
  set (line := loaded_line _).
  set (s2 := set_stats (fun _ => zero_stats) (add_event (EvLog line) (exec setup_cache s1))).
  set (today := clock (trace s2)).
  set (s3 := add_event (EvNow today) s2).
  set (wl := window_loop _ _ _ _ _ _ _ _).
  assert (all_skipped s3 (exec wl s3)) as (evs&Hevs&Hskip)
    by apply window_loop_all_skipped.
  assert (trace s3 = [EvNow today; EvLog line] ++ pre ++ trace s1) as Hs3
    by (unfold s3, s2; simpl; by rewrite Hpre).
  intros Hfin.
  assert (forall sf extra,
            trace sf = extra ++ trace (exec wl s3) ->
            Forall (fun e => ~ is_resolver_event e) extra ->
            stats sf = stats (exec wl s3) ->
            (forall id, id ∈ listed_ids (events_since s1 sf) ->
                        id ∈ cachedIds s1 /\ clean_id id) ->
            Forall (fun e => ~ is_resolver_event e) (events_since s1 sf)
            /\ (Ok tt = Ok tt ->
                downloaded (stats sf) = 0%nat /\ failed (stats sf) = 0%nat
                /\ skipped (stats sf) = scraped (stats sf))) as Hfinal.
  { intros sf extra Hf Hextra Hst Hids.
    assert (trace sf = (extra ++ evs ++ [EvNow today; EvLog line] ++ pre) ++ trace s1)
      as Hall by (rewrite Hf, Hevs, Hs3, <- !app_assoc; reflexivity).
    rewrite (events_since_extends _ _ _ Hall) in Hids |- *.
    destruct Hskip as (_&D&F&S&R).
    { intros id Hid. unfold s3, s2. simpl. rewrite Hload.
      destruct (Hids id) as [Hin Hclean].
      - apply listed_ids_rev. rewrite !listed_ids_app.
        apply elem_of_app. right. apply elem_of_app. by left.
      - by apply Hcover. }
    split.
    - apply Forall_rev, Forall_app. split; [exact Hextra|].
      apply Forall_app. split; [exact R|].
      apply Forall_app. split; [|exact Hq]. repeat constructor; simpl; tauto.
    - intros _. rewrite Hst.
      assert (stats s3 = zero_stats) as Hz by reflexivity.
      rewrite Hz in D, F, S. simpl in D, F, S.
      repeat split; lia. }
  destruct (outcome wl s3) as [[]| |]; simpl in Hfin; subst final.
  - apply (Hfinal _ [EvLogStats (stats (exec wl s3)); EvLog all_done_line]);
      [reflexivity | | reflexivity].
    repeat constructor; simpl; tauto.
  - intros Hids.
    destruct (Hfinal (exec wl s3) []) as [Hr Hs];
      [reflexivity | constructor | reflexivity | exact Hids |].
    split; [exact Hr|]. intros _. auto.
  - intros Hids.
    destruct (Hfinal (exec wl s3) []) as [Hr Hs];
      [reflexivity | constructor | reflexivity | exact Hids |].
    split; [exact Hr|]. intros _. auto.
Qed.

End Rerun.
Section CalendarSteps.
Local Open Scope Z_scope.
Import JsDate.
#[local] Arguments days_in_month : simpl never.

Lemma roll_S fuel m d :
  roll (S fuel) m d =
    if d <? 1 then roll fuel (m - 1) (d + days_in_month (m - 1))
    else if days_in_month m <? d then roll fuel (m + 1) (d - days_in_month m)
    else (m, d).
Proof. reflexivity. Qed.

(** More fuel than the distance needs changes nothing. *)
Lemma roll_stable fuel : forall m d,
  1 <= d <= days_in_month m \/ (- 28 * Z.of_nat fuel < d <= 28 * Z.of_nat fuel) ->
  roll (S fuel) m d = roll fuel m d.
Proof.
  induction fuel as [|fuel IH]; intros m d Hd.
  - destruct Hd as [Hd|Hd]; [|lia]. by rewrite roll_in_range.
  - rewrite (roll_S (S fuel) m d), (roll_S fuel m d).
    pose proof (days_in_month_bounds m). pose proof (days_in_month_bounds (m - 1)).
    destruct (d <? 1) eqn:E1.
    + apply Z.ltb_lt in E1. apply IH.
      destruct Hd as [Hd|Hd]; [lia|].
      destruct (Z_le_gt_dec 1 (d + days_in_month (m - 1))); [left; lia | right; lia].
    + apply Z.ltb_ge in E1.
      destruct (days_in_month m <? d) eqn:E2; [|reflexivity].
      apply Z.ltb_lt in E2. apply IH. right. lia.
Qed.

Lemma roll_more k fuel m d :
  1 <= d <= days_in_month m \/ (- 28 * Z.of_nat fuel < d <= 28 * Z.of_nat fuel) ->
  roll (k + fuel) m d = roll fuel m d.
Proof.
  intros Hd. induction k as [|k IH]; [reflexivity|].
  cbn [Nat.add]. rewrite roll_stable; [exact IH|].
  destruct Hd as [Hd|Hd]; [by left | right; lia].
Qed.

(** [make_day] does not depend on how its fuel is chosen. *)
Lemma make_day_roll fuel m d :
  (Z.to_nat (Z.abs d) < fuel)%nat -> make_day m d = roll fuel m d.
Proof.
  intros Hf. unfold make_day.
  replace fuel with ((fuel - S (Z.to_nat (Z.abs d))) + S (Z.to_nat (Z.abs d)))%nat by lia.
  symmetry. apply roll_more. right. lia.
Qed.

Lemma roll_succ fuel : forall m d,
  1 <= d -> d + 1 <= 28 * Z.of_nat fuel ->
  roll fuel m (d + 1) = next_pair (roll fuel m d).
Proof.
  induction fuel as [|fuel IH]; intros m d Hd Hf; [lia|].
  pose proof (days_in_month_bounds m). pose proof (days_in_month_bounds (m + 1)).
  cbn [roll].
  destruct (d + 1 <? 1) eqn:E0; [apply Z.ltb_lt in E0; lia|].
  destruct (d <? 1) eqn:E1; [apply Z.ltb_lt in E1; lia|].
  destruct (days_in_month m <? d) eqn:E2.
  - apply Z.ltb_lt in E2.
    destruct (days_in_month m <? d + 1) eqn:E3; [|apply Z.ltb_ge in E3; lia].
    replace (d + 1 - days_in_month m) with (d - days_in_month m + 1) by lia.
    apply IH; lia.
  - apply Z.ltb_ge in E2. unfold next_pair. cbn [fst snd].
    destruct (days_in_month m <? d + 1) eqn:E3.
    + apply Z.ltb_lt in E3.
      destruct (d <? days_in_month m) eqn:E4; [apply Z.ltb_lt in E4; lia|].
      replace (d + 1 - days_in_month m) with 1 by lia.
      destruct fuel as [|fuel]; [reflexivity|]. apply roll_in_range. lia.
    + apply Z.ltb_ge in E3.
      destruct (d <? days_in_month m) eqn:E4; [reflexivity|apply Z.ltb_ge in E4; lia].
Qed.

Lemma roll_pred fuel : forall m d,
  d <= days_in_month m -> - 28 * Z.of_nat fuel < d - 1 ->
  roll fuel m (d - 1) = prev_pair (roll fuel m d).
Proof.
  induction fuel as [|fuel IH]; intros m d Hd Hf.
  - cbn [roll]. unfold prev_pair. cbn [fst snd].
    destruct (1 <? d) eqn:E; [reflexivity | apply Z.ltb_ge in E; lia].
  - pose proof (days_in_month_bounds m). pose proof (days_in_month_bounds (m - 1)).
    cbn [roll].
    destruct (days_in_month m <? d) eqn:E2; [apply Z.ltb_lt in E2; lia|].
    destruct (d <? 1) eqn:E1.
    + apply Z.ltb_lt in E1.
      destruct (d - 1 <? 1) eqn:E0; [|apply Z.ltb_ge in E0; lia].
      replace (d - 1 + days_in_month (m - 1)) with (d + days_in_month (m - 1) - 1) by lia.
      apply IH; lia.
    + apply Z.ltb_ge in E1. unfold prev_pair. cbn [fst snd].
      destruct (d - 1 <? 1) eqn:E0.
      * apply Z.ltb_lt in E0.
        destruct (1 <? d) eqn:E4; [apply Z.ltb_lt in E4; lia|].
        replace (d - 1 + days_in_month (m - 1)) with (days_in_month (m - 1)) by lia.
        destruct fuel as [|fuel]; [reflexivity|]. apply roll_in_range. lia.
      * apply Z.ltb_ge in E0.
        destruct (days_in_month m <? d - 1) eqn:E5; [apply Z.ltb_lt in E5; lia|].
        destruct (1 <? d) eqn:E4; [reflexivity|apply Z.ltb_ge in E4; lia].
Qed.

Lemma make_day_succ m d :
  1 <= d -> make_day m (d + 1) = next_pair (make_day m d).
Proof.
  intros Hd.
  rewrite (make_day_roll (S (S (Z.to_nat (d + 1)))) m (d + 1)) by lia.
  rewrite (make_day_roll (S (S (Z.to_nat (d + 1)))) m d) by lia.
  apply roll_succ; lia.
Qed.

Lemma make_day_pred m d :
  d <= days_in_month m -> make_day m (d - 1) = prev_pair (make_day m d).
Proof.
  intros Hd. pose proof (days_in_month_bounds m).
  rewrite (make_day_roll (S (S (Z.to_nat (Z.abs d) + 1))) m (d - 1)) by lia.
  rewrite (make_day_roll (S (S (Z.to_nat (Z.abs d) + 1))) m d) by lia.
  apply roll_pred; lia.
Qed.

Lemma prev_day_wf x : wf x -> wf (prev_day x).
Proof.
  intros [Hd Ht]. unfold prev_day, wf.
  pose proof (days_in_month_bounds (ym x - 1)).
  destruct (1 <? dom x) eqn:E; cbn [ym dom tod];
    [apply Z.ltb_lt in E | apply Z.ltb_ge in E]; lia.
Qed.

Lemma prev_next_day x : wf x -> prev_day (next_day x) = x.
Proof.
  intros [Hd Ht]. unfold prev_day, next_day. destruct x as [m d ms]. cbn [ym dom tod] in *.
  destruct (d <? days_in_month m) eqn:E; cbn [ym dom tod].
  - apply Z.ltb_lt in E.
    destruct (1 <? d + 1) eqn:E'; [|apply Z.ltb_ge in E'; lia].
    f_equal; lia.
  - apply Z.ltb_ge in E. rewrite Z.ltb_irrefl.
    replace (m + 1 - 1) with m by lia. f_equal; lia.
Qed.

Lemma next_prev_day x : wf x -> next_day (prev_day x) = x.
Proof.
  intros [Hd Ht]. unfold prev_day, next_day. destruct x as [m d ms]. cbn [ym dom tod] in *.
  destruct (1 <? d) eqn:E; cbn [ym dom tod].
  - apply Z.ltb_lt in E.
    destruct (d - 1 <? days_in_month m) eqn:E'; [|apply Z.ltb_ge in E'; lia].
    f_equal; lia.
  - apply Z.ltb_ge in E. rewrite Z.ltb_irrefl.
    replace (m - 1 + 1) with m by lia. f_equal; lia.
Qed.

Lemma iter_next_wf n x : wf x -> wf (Nat.iter n next_day x).
Proof. intros Hx. induction n as [|n IH]; [done|]. rewrite Nat.iter_succ. by apply next_day_wf. Qed.

Lemma iter_prev_wf n x : wf x -> wf (Nat.iter n prev_day x).
Proof. intros Hx. induction n as [|n IH]; [done|]. rewrite Nat.iter_succ. by apply prev_day_wf. Qed.

Lemma shift_days_wf x k : wf x -> wf (shift_days x k).
Proof.
  intros Hx. unfold shift_days.
  destruct (0 <=? k); [by apply iter_next_wf | by apply iter_prev_wf].
Qed.

Lemma setDate_pair x d :
  setDate x d = mk (fst (make_day (ym x) d)) (snd (make_day (ym x) d)) (tod x).
Proof. unfold setDate, of_fields. by destruct (make_day (ym x) d). Qed.

Lemma iter_next_fields n : forall x,
  ym (Nat.iter n next_day x) = fst (Nat.iter n next_pair (ym x, dom x))
  /\ dom (Nat.iter n next_day x) = snd (Nat.iter n next_pair (ym x, dom x))
  /\ tod (Nat.iter n next_day x) = tod x.
Proof.
  induction n as [|n IH]; intros x; [done|].
  rewrite !Nat.iter_succ. destruct (IH x) as (E1 & E2 & E3).
  generalize dependent (Nat.iter n next_pair (ym x, dom x)). intros p E1 E2.
  generalize dependent (Nat.iter n next_day x). intros y E3 E1 E2.
  unfold next_day, next_pair. rewrite <- E1, <- E2.
  destruct (dom y <? days_in_month (ym y)); cbn [ym dom tod fst snd]; by rewrite ?E3.
Qed.

Lemma iter_prev_fields n : forall x,
  ym (Nat.iter n prev_day x) = fst (Nat.iter n prev_pair (ym x, dom x))
  /\ dom (Nat.iter n prev_day x) = snd (Nat.iter n prev_pair (ym x, dom x))
  /\ tod (Nat.iter n prev_day x) = tod x.
Proof.
  induction n as [|n IH]; intros x; [done|].
  rewrite !Nat.iter_succ. destruct (IH x) as (E1 & E2 & E3).
  generalize dependent (Nat.iter n prev_pair (ym x, dom x)). intros p E1 E2.
  generalize dependent (Nat.iter n prev_day x). intros y E3 E1 E2.
  unfold prev_day, prev_pair. rewrite <- E1, <- E2.
  destruct (1 <? dom y); cbn [ym dom tod fst snd]; by rewrite ?E3.
Qed.

Lemma make_day_forward m d n :
  1 <= d <= days_in_month m ->
  make_day m (d + Z.of_nat n) = Nat.iter n next_pair (m, d).
Proof.
  intros Hd. induction n as [|n IH].
  - rewrite Z.add_0_r. by apply make_day_in_range.
  - replace (d + Z.of_nat (S n)) with (d + Z.of_nat n + 1) by lia.
    rewrite make_day_succ by lia. by rewrite IH, Nat.iter_succ.
Qed.

Lemma make_day_backward m d n :
  1 <= d <= days_in_month m ->
  make_day m (d - Z.of_nat n) = Nat.iter n prev_pair (m, d).
Proof.
  intros Hd. induction n as [|n IH].
  - rewrite Z.sub_0_r. by apply make_day_in_range.
  - replace (d - Z.of_nat (S n)) with (d - Z.of_nat n - 1) by lia.
    rewrite make_day_pred by lia. by rewrite IH, Nat.iter_succ.
Qed.

Lemma addDays_shift x k : wf x -> addDays (Some x) k = Some (shift_days x k).
Proof.
  intros [Hd Ht]. unfold addDays, getDate, shift_days. f_equal. rewrite setDate_pair.
  destruct (0 <=? k) eqn:E.
  - apply Z.leb_le in E. destruct (iter_next_fields (Z.to_nat k) x) as (E1 & E2 & E3).
    replace k with (Z.of_nat (Z.to_nat k)) at 1 2 by lia.
    rewrite make_day_forward by done.
    destruct (Nat.iter (Z.to_nat k) next_day x) as [m d ms]. cbn [ym dom tod] in *.
    by subst.
  - apply Z.leb_gt in E. destruct (iter_prev_fields (Z.to_nat (- k)) x) as (E1 & E2 & E3).
    replace (dom x + k) with (dom x - Z.of_nat (Z.to_nat (- k))) by lia.
    rewrite make_day_backward by done.
    destruct (Nat.iter (Z.to_nat (- k)) prev_day x) as [m d ms]. cbn [ym dom tod] in *.
    by subst.
Qed.

Lemma shift_days_succ x k : wf x -> shift_days x (k + 1) = next_day (shift_days x k).
Proof.
  intros Hx. unfold shift_days.
  destruct (0 <=? k) eqn:E.
  - apply Z.leb_le in E. destruct (0 <=? k + 1) eqn:E'; [|apply Z.leb_gt in E'; lia].
    replace (Z.to_nat (k + 1)) with (S (Z.to_nat k)) by lia. by rewrite Nat.iter_succ.
  - apply Z.leb_gt in E. destruct (0 <=? k + 1) eqn:E'.
    + apply Z.leb_le in E'. assert (k = -1) as -> by lia. simpl.
      by rewrite next_prev_day.
    + apply Z.leb_gt in E'.
      replace (Z.to_nat (- k)) with (S (Z.to_nat (- (k + 1)))) by lia.
      rewrite Nat.iter_succ, next_prev_day; [done|]. by apply iter_prev_wf.
Qed.

Lemma shift_days_pred x k : wf x -> shift_days x (k - 1) = prev_day (shift_days x k).
Proof.
  intros Hx.
  rewrite <- (prev_next_day (shift_days x (k - 1))) by (by apply shift_days_wf).
  rewrite <- shift_days_succ by done. do 2 f_equal. lia.
Qed.

Lemma shift_days_add x a b :
  wf x -> shift_days (shift_days x a) b = shift_days x (a + b).
Proof.
  intros Hx.
  assert (forall n, shift_days (shift_days x a) (Z.of_nat n) = shift_days x (a + Z.of_nat n)) as Hpos.
  { induction n as [|n IH].
    - rewrite Z.add_0_r. reflexivity.
    - replace (Z.of_nat (S n)) with (Z.of_nat n + 1) by lia.
      rewrite shift_days_succ by (by apply shift_days_wf).
      rewrite IH, Z.add_assoc. by rewrite shift_days_succ. }
  assert (forall n, shift_days (shift_days x a) (- Z.of_nat n) = shift_days x (a - Z.of_nat n)) as Hneg.
  { induction n as [|n IH].
    - rewrite Z.sub_0_r. reflexivity.
    - replace (- Z.of_nat (S n)) with (- Z.of_nat n - 1) by lia.
      rewrite shift_days_pred by (by apply shift_days_wf).
      rewrite IH. replace (a - Z.of_nat (S n)) with (a - Z.of_nat n - 1) by lia.
      by rewrite shift_days_pred. }
  destruct (Z_le_gt_dec 0 b).
  - specialize (Hpos (Z.to_nat b)). by replace (Z.of_nat (Z.to_nat b)) with b in Hpos by lia.
  - specialize (Hneg (Z.to_nat (- b))).
    replace (- Z.of_nat (Z.to_nat (- b))) with b in Hneg by lia.
    replace (a - Z.of_nat (Z.to_nat (- b))) with (a + b) in Hneg by lia. done.
Qed.

End CalendarSteps.
Section PlannerBounds.
Local Open Scope Z_scope.
Import JsDate.
#[local] Arguments days_in_month : simpl never.

(** The window [next_window] gives after a to-date that reads as [x]:
    what is printed into it and how its end reads back. *)
Lemma next_window_shape today to x f' t' :
  parseDate to = Some x -> wf today -> year_from_100 today ->
  next_window today to = Some (f', t') ->
  exists e,
    f' = formatDate (Some (next_day x))
    /\ parseDate t' = Some e
    /\ gtb (next_day x) e = false
    /\ gtb e today = false
    /\ JsDate.lt e (mk (ym (next_day x) + 3)
                       (Z.min (dom (next_day x)) (days_in_month (ym (next_day x) + 3))) 0)
    /\ ((ym e = ym today /\ dom e = dom today) \/ ym x + 2 <= ym e).
Proof.
  intros Hp Htoday Hytoday. destruct (parseDate_wf _ _ Hp) as [Hx Hx0].
  pose proof (parseDate_lower _ _ Hp) as Hxl.
  unfold next_window. rewrite Hp, (addDays_next x Hx). fold (next_day x).
  destruct (next_day_wf x Hx) as [Hnx Hlt].
  set (nx := next_day x) in *.
  assert (tod nx = 0) as Hnx0.
  { unfold nx, next_day. destruct (_ <? _); simpl; exact Hx0. }
  assert (ym x <= ym nx) as Hym.
  { unfold nx, next_day. destruct (_ <? _); simpl; lia. }
  cbn [gt]. destruct (gtb nx today) eqn:Hgt; [discriminate|].
  rewrite (addMonths_clamped nx 3 Hnx). rewrite Hnx0.
  set (am := mk (ym nx + 3) (Z.min (dom nx) (days_in_month (ym nx + 3))) 0).
  assert (wf am) as Ham.
  { unfold am, wf. simpl. pose proof (days_in_month_bounds (ym nx + 3)).
    destruct Hnx as [? ?]. lia. }
  rewrite (addDays_prev am Ham).
  set (pe := if 1 <? dom am then mk (ym am) (dom am - 1) (tod am)
             else mk (ym am - 1) (days_in_month (ym am - 1)) (tod am)).
  assert (wf pe /\ ym nx + 2 <= ym pe /\ JsDate.lt pe am /\ tod pe = 0)
    as (Hpe & Hpe_ym & Hpe_lt & Hpe0).
  { unfold pe, JsDate.lt. destruct (1 <? dom am) eqn:E; unfold wf; simpl.
    - apply Z.ltb_lt in E. destruct Ham as [? ?]. simpl in *. lia.
    - pose proof (days_in_month_bounds (ym nx + 3 - 1)).
      destruct Ham as [? ?]. simpl in *. lia. }
  destruct Htoday as [Htd Htt].
  cbn [gt]. destruct (gtb pe today) eqn:Hcap; cbn [gt].
  - rewrite Hgt. intros [= <- <-].
    exists (mk (ym today) (dom today) 0).
    split; [reflexivity|]. split; [by apply parseDate_formatDate|].
    apply gtb_false in Hgt.
    split; [apply gtb_false; cbn [ym dom tod]; lia|].
    split; [apply gtb_false; cbn [ym dom tod]; lia|].
    split; [|left; done].
    assert (gtb today pe = false) as Hle.
    { apply gtb_false. unfold gtb in Hcap.
      rewrite !orb_true_iff, !andb_true_iff, !orb_true_iff, !andb_true_iff,
        !Z.ltb_lt, !Z.eqb_eq in Hcap. lia. }
    apply gtb_false in Hle. unfold JsDate.lt in *. cbn [ym dom tod] in *.
    unfold gtb in Hcap.
    rewrite !orb_true_iff, !andb_true_iff, !orb_true_iff, !andb_true_iff,
      !Z.ltb_lt, !Z.eqb_eq in Hcap. lia.
  - destruct (gtb nx pe) eqn:Hge; [discriminate|]. intros [= <- <-].
    exists pe.
    split; [reflexivity|]. split.
    { etransitivity;
        [apply (parseDate_formatDate pe); [done | unfold year_from_100; lia]|].
      f_equal. destruct pe as [a b c]. simpl in *. by subst. }
    split; [done|]. split; [done|]. split; [exact Hpe_lt|]. right. lia.
Qed.



Lemma addMonths_limit x :
  wf x -> tod x = 0 ->
  addMonths (Some x) 3 = Some (mk (ym x + 3) (Z.min (dom x) (days_in_month (ym x + 3))) 0).
Proof. intros Hx H0. rewrite (addMonths_clamped x 3 Hx). by rewrite H0. Qed.

Lemma window_chain_within today :
  wf today -> year_from_100 today ->
  forall ws w x,
    parseDate (snd w) = Some x ->
    window_chain today w ws ->
    forall i w', ws !! S i = Some w' -> window_within today w'.
Proof.
  intros Htoday Hy. induction ws as [|w0 ws IH]; intros w x Hp Hc i w' Hi; [done|].
  destruct Hc as [-> [->|(w2 & Hnext & Hc)]]; [done|].
  destruct w as [f t], w2 as [f' t']. cbn [snd] in *.
  destruct (next_window_shape today t x f' t' Hp Htoday Hy Hnext)
    as (e & Hf & Pe & Hse & Hle & Hlim & _).
  cbn [lookup list_lookup] in Hi.
  destruct i as [|i].
  - destruct ws as [|w3 ws]; [done|]. destruct Hc as [-> _].
    cbn in Hi. injection Hi as <-.
    destruct (parseDate_wf _ _ Hp) as [Hx Hx0].
    destruct (next_day_wf x Hx) as [Hnx _].
    assert (tod (next_day x) = 0) as Hnx0.
    { unfold next_day. destruct (_ <? _); simpl; exact Hx0. }
    exists (next_day x), e, (mk (ym (next_day x) + 3)
                     (Z.min (dom (next_day x)) (days_in_month (ym (next_day x) + 3))) 0).
    cbn [fst snd]. split; [exact Hf|]. split; [exact Pe|]. split; [exact Hse|].
    split; [exact Hle|]. split; [by apply addMonths_limit | exact Hlim].
  - apply (IH (f', t') e Pe Hc i w'). exact Hi.
Qed.

End PlannerBounds.
Lemma elem_of_rev {A} (x : A) (l : list A) : x ∈ rev l <-> x ∈ l.
Proof. rewrite !list_elem_of_In. symmetry. apply in_rev. Qed.

Section PlannerRuns.
Context `{Env}.

Lemma page_loop_no_now fuel client f t dir options : forall page,
  preserves (extends (fun e => ~ is_now e)) (page_loop fuel client f t dir options page).
Proof.
  induction fuel as [|fuel IH]; intros page; simpl.
  - pres_step.
  - unfold scrape_page, process_contract, download_contract.
    repeat first [ apply IH | pres_step | solve [quiet] ].
Qed.

Lemma window_loop_no_now fuel pages client options repeat today : forall f t,
  preserves (extends (fun e => ~ is_now e))
    (window_loop fuel pages client options repeat today f t).
Proof.
  induction fuel as [|fuel IH]; intros f t; simpl.
  - pres_step.
  - unfold scrapeRange.
    repeat first [ apply page_loop_no_now | apply IH | pres_step | solve [quiet] ].
Qed.

Lemma setup_cache_no_now :
  preserves (extends (fun e => ~ is_now e)) setup_cache.
Proof.
  unfold setup_cache. repeat first [ pres_step | solve [quiet] ].
Qed.

(** Without [repeatTillDate] the loop opens one window. *)
Lemma window_loop_single pages client options today fuel f t s :
  exists evs,
    history (exec (window_loop fuel pages client options false today f t) s)
      = history s ++ evs
    /\ (length (periods evs) <= 1)%nat.
Proof.
  destruct fuel as [|fuel].
  - exists []. simpl. rewrite app_nil_r. split; [done | lia].
  - simpl window_loop. rewrite exec_bind.
    destruct (scrapeRange_periods pages client f t options s) as (evs&Hh&Hp).
    exists evs.
    destruct (outcome (scrapeRange pages client f t options) s) as [[]| |];
      (split; [exact Hh|]); destruct Hp as [->|[-> _]]; simpl; lia.
Qed.

(** With [repeatTillDate], a to-date that does not read as a date is
    followed by a window of two printed invalid dates, whose to-date does
    not read as a date either. *)
Lemma next_window_invalid today to :
  parseDate to = None ->
  next_window today to = Some (invalid_date_str, invalid_date_str)
  /\ parseDate invalid_date_str = None.
Proof.
  intros Hp. unfold next_window. rewrite Hp. split; [reflexivity|].
  vm_compute. reflexivity.
Qed.

Lemma window_loop_invalid pages client options today fuel : forall f t s,
  parseDate t = None ->
  outcome (window_loop fuel pages client options true today f t) s <> Ok tt.
Proof.
  induction fuel as [|fuel IH]; intros f t s Hp; [done|].
  simpl window_loop. rewrite outcome_bind.
  destruct (outcome (scrapeRange pages client f t options) s) as [[]| |]; [|done..].
  destruct (next_window_invalid today t Hp) as [-> Hinv]. cbn [negb].
  by apply IH.
Qed.

Lemma window_chain_invalid today : forall ws w,
  parseDate (snd w) = None ->
  window_chain today w ws ->
  forall i w', ws !! S i = Some w' -> w' = (invalid_date_str, invalid_date_str).
Proof.
  induction ws as [|w0 ws IH]; intros w Hp Hc i w' Hi; [done|].
  destruct Hc as [-> [->|(w2 & Hnext & Hc)]]; [done|].
  destruct (next_window_invalid today (snd w) Hp) as [Hn Hinv].
  rewrite Hn in Hnext. injection Hnext as <-.
  cbn [lookup list_lookup] in Hi. destruct i as [|i].
  - destruct ws as [|w3 ws]; [done|]. destruct Hc as [-> _]. cbn in Hi. by injection Hi.
  - by apply (IH (invalid_date_str, invalid_date_str) Hinv Hc i w').
Qed.

(** The clock is read once in a run, before the first window, and the
    windows are those of the planner for that reading. *)
Lemma runScraper_periods_today fuel answers dirs files :
  let h := history (exec (runScraper fuel answers) (boot dirs files)) in
  exists t,
    window_chain (clock t) (fromDate answers, toDate answers) (periods h)
    /\ (forall d, EvNow d ∈ h -> d = clock t)
    /\ (periods h <> [] -> EvNow (clock t) ∈ h)
    /\ (repeatTillDate answers = false -> (length (periods h) <= 1)%nat).
Proof.
  set (s0 := boot dirs files). cbv zeta.
  remember (exec (runScraper fuel answers) s0) as final eqn:Hfin.
  unfold exec in Hfin. rewrite runScraper_run in Hfin.
  destruct (extends_history _ _ _ (setup_cache_no_period s0)) as (pre&Hpre&Hq).
  destruct (setup_cache_no_now s0) as (pre'&Hpre'&Hq').
  change (history s0) with (@nil Event) in Hpre. rewrite app_nil_l in Hpre.
  change (trace s0) with (@nil Event) in Hpre'. rewrite app_nil_r in Hpre'.
  rewrite Forall_forall in Hq'.
  destruct (outcome setup_cache s0) as [[]| |].
  2,3: (simpl in Hfin; subst final; exists []; rewrite Hpre, (periods_none _ Hq);
        split; [exact I|]; split; [|split; [done | simpl; lia]];
        intros d Hd; rewrite <- Hpre in Hd; unfold history in Hd;
        rewrite elem_of_rev, Hpre' in Hd; by destruct (Hq' _ Hd)).
  cbv zeta in Hfin.
  set (s1 := exec setup_cache s0) in *.
  set (s2 := set_stats _ (add_event _ s1)) in *.
  set (today := clock (trace s2)) in *.
  set (s3 := add_event (EvNow today) s2) in *.
  set (wl := window_loop _ _ _ _ _ _ _ _) in *.
  exists (trace s2). fold today.
  destruct (window_loop_periods fuel {| client_cookie := cookie answers |}
              {| opt_throttleTime := throttleTime answers;
                 opt_department := department answers;
                 opt_bno := bno answers;
                 opt_buyer_category := buyer_category answers |}
              (repeatTillDate answers) today fuel (fromDate answers) (toDate answers) s3)
    as (evs&Hh&Hc).
  fold wl in Hh.
  destruct (window_loop_no_now fuel fuel {| client_cookie := cookie answers |}
              {| opt_throttleTime := throttleTime answers;
                 opt_department := department answers;
                 opt_bno := bno answers;
                 opt_buyer_category := buyer_category answers |}
              (repeatTillDate answers) today (fromDate answers) (toDate answers) s3)
    as (evs'&Ht&Hn).
  fold wl in Ht. rewrite Forall_forall in Hn.
  assert (periods (history s3) = []) as Hs3.
  { unfold s3, s2, history. simpl. fold (history s1).
    rewrite !periods_app, Hpre, (periods_none _ Hq). reflexivity. }
  assert (periods (history (exec wl s3)) = periods evs) as Hw.
  { rewrite Hh, periods_app, Hs3. reflexivity. }
  assert (forall d, EvNow d ∈ trace (exec wl s3) -> d = today) as Honce.
  { intros d Hd. rewrite Ht in Hd. apply elem_of_app in Hd as [Hd|Hd].
    - by destruct (Hn _ Hd).
    - unfold s3, s2 in Hd. simpl in Hd.
      apply elem_of_cons in Hd as [Hd|Hd]; [by injection Hd|].
      apply elem_of_cons in Hd as [Hd|Hd]; [discriminate|].
      fold s1 in Hd. rewrite Hpre' in Hd. by destruct (Hq' _ Hd). }
  assert (EvNow today ∈ trace (exec wl s3)) as Hin.
  { rewrite Ht. apply elem_of_app. right. unfold s3. simpl. left. }
  assert (repeatTillDate answers = false -> (length (periods evs) <= 1)%nat) as Hone.
  { intros Hr. unfold wl in Hh. rewrite Hr in Hh.
    destruct (window_loop_single fuel {| client_cookie := cookie answers |}
                {| opt_throttleTime := throttleTime answers;
                   opt_department := department answers;
                   opt_bno := bno answers;
                   opt_buyer_category := buyer_category answers |}
                today fuel (fromDate answers) (toDate answers) s3) as (evs1&Hh1&Hl).
    rewrite Hh in Hh1. apply app_inv_head in Hh1. by subst evs1. }
  destruct (outcome wl s3); simpl in Hfin; subst final.
  - split; [|split; [|split]].
    4:{ unfold history. simpl. fold (history (exec wl s3)).
        rewrite !periods_app, Hw. simpl. rewrite !app_nil_r. exact Hone. }
    + unfold history. simpl. fold (history (exec wl s3)).
      rewrite !periods_app, Hw. simpl. rewrite !app_nil_r. exact Hc.
    + intros d Hd. unfold history in Hd. rewrite elem_of_rev in Hd. simpl in Hd.
      apply elem_of_cons in Hd as [Hd|Hd]; [discriminate|].
      apply elem_of_cons in Hd as [Hd|Hd]; [discriminate|]. by apply Honce.
    + intros _. unfold history. rewrite elem_of_rev. simpl. right. right. exact Hin.
  - split; [by rewrite Hw|]. split; [|split; [|by rewrite Hw]].
    + intros d Hd. unfold history in Hd. rewrite elem_of_rev in Hd. by apply Honce.
    + intros _. unfold history. by rewrite elem_of_rev.
  - split; [by rewrite Hw|]. split; [|split; [|by rewrite Hw]].
    + intros d Hd. unfold history in Hd. rewrite elem_of_rev in Hd. by apply Honce.
    + intros _. unfold history. by rewrite elem_of_rev.
Qed.

End PlannerRuns.
(* ===================================================================== *)
(** * Further properties of the date helpers and of the planner *)
(* ===================================================================== *)

Section DateProperties.
Local Open Scope Z_scope.
Import JsDate.

(** X1: reading back a printed date.  For a real date of a year from
    100 to 275759, [parseDate (formatDate x)] falls on the same calendar
    day: the day and the month are padded to two digits, the three
    fields are split at the dashes and read as numbers again; printing
    it once more gives the same string. *)
Theorem X1_parse_format_roundtrip (x : JsDate.t) :
  wf x -> year_from_100 x -> in_date_range x ->
  same_day (parseDate (formatDate (Some x))) (Some x)
  /\ formatDate (parseDate (formatDate (Some x))) = formatDate (Some x).
Proof.
  intros Hx Hy _. rewrite (parseDate_formatDate x Hx Hy). by split.
Qed.

(** X2: a date string the prompt accepts always reads as a real calendar
    day, never as the Invalid Date, whatever its digits: a day or a
    month that does not exist is carried over into the following months,
    as the 31st of February 2024 into the 2nd of March. *)
Theorem X2_validated_date_is_a_day (s : string) :
  date_format_test s = true ->
  (exists x, parseDate s = Some x /\ 1 <= dom x <= days_in_month (ym x))
  /\ formatDate (parseDate s) <> invalid_date_str
  /\ formatDate (parseDate "31-02-2024") = "02-03-2024".
Proof.
  intros Hs. destruct (validated_date_parses s Hs) as [x Hp].
  destruct (parseDate_wf s x Hp) as [[Hd _] _].
  split; [by exists x|]. split; [|vm_compute; reflexivity].
  rewrite Hp. unfold formatDate, invalid_date_str.
  pose proof (days_in_month_bounds (ym x)).
  assert (0 <= getDate x) as Hd0 by (unfold getDate; lia).
  rewrite (String_of_Z_digits _ Hd0).
  destruct (digits_spec _ Hd0) as (_ & Ad & Nd).
  destruct (padStart2_digits _ Nd Ad) as (Np & Ap & _).
  destruct (JsString.padStart2 (JsString.digits (getDate x))) as [|c r]; [done|].
  cbn [JsString.all_digits] in Ap. apply andb_true_iff in Ap as [Hc _].
  rewrite append_cons. intros [= -> _]. discriminate.
Qed.

(** X3: [addDays] counts calendar days.  On a real date, [addDays x k]
    falls on the calendar day reached by stepping [k] times to the next
    calendar day (to the previous one for a negative [k]), across month
    and year ends and leap days, as long as that day is within the years
    a [Date] can hold.  The calendar is that of the model: the one of a
    time zone that skips no day. *)
Theorem X3_addDays_steps (x : JsDate.t) (k : Z) :
  wf x -> in_date_range x -> in_date_range (shift_days x k) ->
  same_day (addDays (Some x) k) (Some (shift_days x k))
  /\ 1 <= dom (shift_days x k) <= days_in_month (ym (shift_days x k)).
Proof.
  intros Hx _ _. rewrite (addDays_shift x k Hx). split; [by split|].
  by destruct (shift_days_wf x k Hx).
Qed.

(** X4: day offsets add up.  On a real date, and as long as the days
    [a] and [a + b] days away are within the years a [Date] can hold,
    adding [a] days and then [b] days falls on the same calendar day as
    adding [a + b] days; in particular adding [k] days and then [-k]
    days leads back to the day one started from.  The calendar is that
    of the model: the one of a time zone that skips no day. *)
Theorem X4_addDays_additive (x : JsDate.t) (a b : Z) :
  wf x -> in_date_range x ->
  in_date_range (shift_days x a) -> in_date_range (shift_days x (a + b)) ->
  same_day (addDays (addDays (Some x) a) b) (addDays (Some x) (a + b))
  /\ same_day (addDays (addDays (Some x) a) (- a)) (Some x).
Proof.
  intros Hx _ _ _. rewrite (addDays_shift x a Hx).
  rewrite !(addDays_shift (shift_days x a)) by (by apply shift_days_wf).
  rewrite (addDays_shift x (a + b) Hx), !shift_days_add by done.
  split; [by split|]. rewrite Z.add_opp_diag_r. by split.
Qed.

End DateProperties.

Section PlannerProperties.
Context `{Env}.


(** X6: no window reaches into the future or spans three months.  Under
    the same hypotheses, every window after the first has as from-string
    a printed date, and its to-string reads as a date that is not before
    that start, not after the moment the clock was read, and before the
    day three months after the start. *)
Theorem X6_windows_within fuel answers dirs files :
  date_format_test (toDate answers) = true ->
  (forall t, clock_reading (clock t)) ->
  let h := history (exec (runScraper fuel answers) (boot dirs files)) in
  forall today i w,
    EvNow today ∈ h -> periods h !! S i = Some w -> window_within today w.
Proof.
  intros Hfmt Hclock. cbv zeta. intros today i w Hd Hi.
  destruct (validated_date_parses _ Hfmt) as [x Hp].
  destruct (runScraper_periods_today fuel answers dirs files) as (t & Hc & Honce & _).
  rewrite (Honce today Hd). destruct (Hclock t) as (Hwf & Hy & _).
  by apply (window_chain_within (clock t) Hwf Hy _ (fromDate answers, toDate answers) x Hp Hc i).
Qed.

(** X7: the first window is the one that was typed in.  The first window
    a run opens carries the from- and to-strings of the answers as they
    are, without any date arithmetic, and without [repeatTillDate] it is
    the only one. *)
Theorem X7_first_window_verbatim fuel answers dirs files :
  let h := history (exec (runScraper fuel answers) (boot dirs files)) in
  (forall w, periods h !! 0%nat = Some w -> w = (fromDate answers, toDate answers))
  /\ (repeatTillDate answers = false -> (length (periods h) <= 1)%nat).
Proof.
  cbv zeta.
  destruct (runScraper_periods_today fuel answers dirs files) as (t & Hc & _ & _ & Hone).
  split; [|exact Hone].
  intros w Hw. destruct (periods _) as [|w0 ws]; [done|].
  destruct Hc as [-> _]. cbn in Hw. by injection Hw.
Qed.

(** X8: an end date with fewer than three fields keeps the loop going
    for ever.  With [repeatTillDate], when the to-string has fewer than
    three fields between dashes (which the prompt would have turned
    down), its year is undefined and it reads as the Invalid Date; every
    comparison with the Invalid Date is false, so every later window is
    the pair of printed invalid dates and the run never comes to its
    end: whatever the fuel, it does not return normally. *)
Theorem X8_unreadable_end_never_returns fuel answers dirs files :
  lacks_fields (toDate answers) ->
  repeatTillDate answers = true ->
  outcome (runScraper fuel answers) (boot dirs files) <> Ok tt
  /\ forall i w,
       periods (history (exec (runScraper fuel answers) (boot dirs files))) !! S i = Some w ->
       w = (invalid_date_str, invalid_date_str).
Proof.
  intros Hfew Hr.
  assert (parseDate (toDate answers) = None) as Hp.
  { unfold lacks_fields in Hfew. unfold parseDate.
    destruct (JsString.split "-" (toDate answers)) as [|a [|b [|c l]]];
      [reflexivity| | |simpl in Hfew; lia].
    - simpl. by destruct (JsString.Number a).
    - simpl. by destruct (JsString.Number a), (JsString.Number b). }
  split.
  - unfold outcome. rewrite runScraper_run. cbv zeta.
    destruct (outcome setup_cache _) as [[]| |]; [|done..].
    rewrite Hr.
    match goal with
    | |- context [outcome (window_loop ?a ?b ?c ?d true ?e ?f ?g) ?s] =>
        pose proof (window_loop_invalid b c d e a f g s Hp) as Hw;
        destruct (outcome (window_loop a b c d true e f g) s) as [[]| |]
    end; done.
  - intros i w Hi.
    destruct (runScraper_periods_today fuel answers dirs files) as (t & Hc & _).
    by apply (window_chain_invalid (clock t) _ (fromDate answers, toDate answers) Hp Hc i).
Qed.

End PlannerProperties.
(* ===================================================================== *)
(** * Pacing of the requests *)
(* ===================================================================== *)

Section Pacing.
Context `{Env}.

#[local] Instance keeps_pace_refl thr : Reflexive (keeps_pace thr).
Proof. intros s. unfold keeps_pace. auto. Qed.

#[local] Instance keeps_pace_trans thr : Transitive (keeps_pace thr).
Proof. intros a b c. unfold keeps_pace. auto. Qed.

Lemma download_contract_keeps_pace client dir options id :
  preserves (keeps_pace (opt_throttleTime options))
    (download_contract client dir options id).
Proof.
  intros s Hs. unfold download_contract, exec, bind. unfold_prims. simpl.
  repeat step_oracle; simpl; eauto 10.
Qed.

Ltac no_request := prim; unfold keeps_pace; simpl; auto.

Lemma process_contract_keeps_pace client dir options id :
  preserves (keeps_pace (opt_throttleTime options))
    (process_contract client dir options id).
Proof.
  unfold process_contract.
  repeat first
    [ apply download_contract_keeps_pace | pres_step | solve [no_request] ].
Qed.

Lemma page_loop_paced client f t dir options fuel : forall page s,
  paced (opt_throttleTime options) (trace s) ->
  listing_ready page (trace s) ->
  paced (opt_throttleTime options)
    (trace (exec (page_loop fuel client f t dir options page) s)).
Proof.
  induction fuel as [|fuel IH]; intros page s Hs Hready; [exact Hs|].
  unfold exec. rewrite page_loop_step. cbv zeta.
  set (payload := listing_payload f t options page).
  assert (paced (opt_throttleTime options)
            (EvPostListing payload (post_contract_details (trace s) client payload)
               :: trace s)) as Hs1.
  { simpl. split; [|exact Hs].
    destruct Hready as [(d & older & -> & ->)|(older & ->)]; [left|right]; eauto. }
  destruct (post_contract_details (trace s) client payload) as [e|data]; [exact Hs1|].
  destruct (ends_walk (inr data)); [exact Hs1|].
  apply IH.
  - simpl. apply (preserves_for_of (keeps_pace (opt_throttleTime options))).
    + intros id _. apply process_contract_keeps_pace.
    + exact Hs1.
  - right. simpl. eauto.
Qed.

Lemma scrapeRange_keeps_pace fuel client f t options :
  preserves (keeps_pace (opt_throttleTime options)) (scrapeRange fuel client f t options).
Proof.
  intros s Hs. unfold exec. rewrite scrapeRange_run. cbv zeta.
  destruct (fs_fails _ _); [exact Hs|].
  apply page_loop_paced; [exact Hs|]. left. simpl. eauto.
Qed.

Lemma runScraper_keeps_pace fuel answers :
  preserves (keeps_pace (throttleTime answers)) (runScraper fuel answers).
Proof.
  assert (forall fuel pages client options repeat today f t,
    preserves (keeps_pace (opt_throttleTime options))
      (window_loop fuel pages client options repeat today f t)) as Hloop.
  { clear fuel. induction fuel as [|fuel IH]; intros; simpl.
    - pres_step.
    - repeat first
        [ apply scrapeRange_keeps_pace | apply IH | pres_step | solve [no_request] ]. }
  unfold runScraper, setup_cache.
  repeat first
    [ apply (Hloop fuel fuel _
               {| opt_throttleTime := throttleTime answers;
                  opt_department := department answers;
                  opt_bno := bno answers;
                  opt_buyer_category := buyer_category answers |})
    | pres_step | solve [no_request] ].
Qed.

(** Reading [paced] at any request of a run. *)
Lemma paced_captcha thr later oid r earlier :
  paced thr (later ++ EvPostCaptcha oid r :: earlier) ->
  exists older, earlier = EvSleep thr :: older.
Proof.
  induction later as [|e later IH]; simpl.
  - intros [Hw _]. exact Hw.
  - destruct e; try (intros [_ Hr]); auto.
Qed.

Lemma paced_listing thr later p r earlier :
  paced thr (later ++ EvPostListing p r :: earlier) ->
  (exists dir older, earlier = EvLog (saving_line dir) :: older /\ pl_page p = "0")
  \/ (exists older, earlier = EvSleep 1000 :: older).
Proof.
  induction later as [|e later IH]; simpl.
  - intros [Hw _]. exact Hw.
  - destruct e; try (intros [_ Hr]); auto.
Qed.

(** X9: the requests of a run are paced.  In every run, whatever the
    portal answers, each token exchange comes right after a delay of the
    throttle time of the answers, and each listing request comes right
    after the line that announces the window's folder (and then asks for
    page 0) or right after the one-second delay that ends a page. *)
Theorem X9_requests_paced fuel answers dirs files :
  let h := history (exec (runScraper fuel answers) (boot dirs files)) in
  (forall before oid r after,
      h = before ++ EvPostCaptcha oid r :: after ->
      exists before', before = before' ++ [EvSleep (throttleTime answers)])
  /\ (forall before p r after,
        h = before ++ EvPostListing p r :: after ->
        (exists before' dir,
            before = before' ++ [EvLog (saving_line dir)] /\ pl_page p = "0")
        \/ (exists before', before = before' ++ [EvSleep 1000])).
Proof.
  cbv zeta.
  pose proof (runScraper_keeps_pace fuel answers (boot dirs files) I) as Hp.
  split.
  - intros before oid r after Hh. apply history_split in Hh. rewrite Hh in Hp.
    apply paced_captcha in Hp as (older & Ho).
    apply rev_eq_cons1 in Ho. eauto.
  - intros before p r after Hh. apply history_split in Hh. rewrite Hh in Hp.
    apply paced_listing in Hp as [(dir & older & Ho & Hpage)|(older & Ho)];
      apply rev_eq_cons1 in Ho; eauto.
Qed.

End Pacing.
(* ===================================================================== *)
(** * What a run records and what it leaves alone *)
(* ===================================================================== *)

Lemma append_nil_r (a : string) : a +:+ EmptyString = a.
Proof. induction a as [|c a IH]; [reflexivity|]. rewrite append_cons. by f_equal. Qed.

Lemma added_ids_app a b : added_ids (a ++ b) = added_ids a ++ added_ids b.
Proof. apply omap_app. Qed.

Lemma log_lines_app a b : log_lines (a ++ b) = log_lines a +:+ log_lines b.
Proof.
  induction a as [|id a IH]; [reflexivity|].
  simpl. by rewrite IH, append_assoc.
Qed.

Lemma added_ids_none evs :
  Forall (fun e => ~ is_resolver_event e) evs -> added_ids evs = [].
Proof.
  induction 1 as [|e evs He _ IH]; [reflexivity|].
  destruct e; simpl in *; try exact IH; tauto.
Qed.

Lemma added_ids_rev_length evs : length (added_ids (rev evs)) = length (added_ids evs).
Proof.
  induction evs as [|e evs IH]; [reflexivity|].
  simpl rev. rewrite added_ids_app, length_app, IH.
  destruct e; simpl; lia.
Qed.

Section Records.
Context `{Env}.

#[local] Instance records_grow_refl : Reflexive records_grow.
Proof.
  intros s. exists []. simpl. rewrite append_nil_r.
  repeat split; lia.
Qed.

#[local] Instance records_grow_trans : Transitive records_grow.
Proof.
  intros a b c (e1 & T1 & L1 & D1 & S1) (e2 & T2 & L2 & D2 & S2).
  exists (e2 ++ e1). split; [by rewrite T2, T1, app_assoc|].
  rewrite rev_app_distr, !added_ids_app, log_lines_app, length_app.
  split; [by rewrite L2, L1, append_assoc|]. split; lia.
Qed.

Lemma cache_log_write dir id pdf s :
  cache_log (set_files (insert (pdf_path dir id) pdf) s) = cache_log s.
Proof.
  unfold cache_log. simpl. by rewrite lookup_insert_ne by apply pdf_path_not_cache.
Qed.

Ltac grow_finish :=
  split; [reflexivity|]; unfold cache_log; simpl;
  rewrite ?lookup_insert_eq, ?append_nil_r;
  rewrite ?(lookup_insert_ne _ _ _ _ (pdf_path_not_cache _ _));
  rewrite ?append_nil_r;
  split; [reflexivity|]; split; [lia|].

Ltac grow :=
  first [ exists (@nil Event); grow_finish
        | eexists [_]; grow_finish
        | eexists [_; _]; grow_finish
        | eexists [_; _; _]; grow_finish
        | eexists [_; _; _; _]; grow_finish
        | eexists [_; _; _; _; _]; grow_finish
        | eexists [_; _; _; _; _; _]; grow_finish ].

Lemma process_contract_records client dir options id :
  preserves records_grow (process_contract client dir options id).
Proof.
  intros s. unfold process_contract, download_contract, exec, bind, try_catch.
  unfold_prims. simpl.
  destruct (bool_decide (id ∈ cachedIds s)) eqn:Hin; simpl; [grow; lia|].
  apply bool_decide_eq_false in Hin.
  repeat step_oracle; grow; try lia.
  rewrite size_union by set_solver. rewrite size_singleton. lia.
Qed.

Ltac no_add := prim; grow; lia.

Lemma window_loop_records fuel pages client options repeat today : forall f t,
  preserves records_grow (window_loop fuel pages client options repeat today f t).
Proof.
  assert (forall fuel f t dir page,
    preserves records_grow (page_loop fuel client f t dir options page)) as Hpages.
  { clear fuel. induction fuel as [|fuel IH]; intros f t dir page; simpl.
    - pres_step.
    - unfold scrape_page.
      repeat first
        [ apply process_contract_records | apply IH | pres_step | solve [no_add] ]. }
  induction fuel as [|fuel IH]; intros f t; simpl.
  - pres_step.
  - unfold scrapeRange.
    repeat first [ apply Hpages | apply IH | pres_step | solve [no_add] ].
Qed.

End Records.
Section Files.
Context `{Env}.

#[local] Instance files_kept_refl : Reflexive files_kept.
Proof. intros s. split; auto. Qed.

#[local] Instance files_kept_trans : Transitive files_kept.
Proof.
  intros a b c [S1 K1] [S2 K2]. split; [auto|].
  intros p Hc Hd. rewrite K2, K1; auto.
Qed.

Lemma endsWith_suffix a b : endsWith (a +:+ b) b = true.
Proof.
  induction a as [|c a IH].
  - rewrite append_nil_l. destruct b; cbn [endsWith]; by rewrite String.eqb_refl.
  - rewrite append_cons. cbn [endsWith]. rewrite IH. apply orb_true_r.
Qed.

Lemma pdf_path_extension dir id : endsWith (pdf_path dir id) ".pdf" = true.
Proof.
  unfold pdf_path, path_join. rewrite <- !append_assoc. apply endsWith_suffix.
Qed.

Ltac kept :=
  prim; unfold files_kept; simpl;
  (split;
   [ intros p Hp; rewrite ?lookup_insert_is_Some'; auto
   | intros p Hc Hd; rewrite ?lookup_insert_ne; auto;
     intros E; symmetry in E;
     first [ by apply Hc in E
           | by (rewrite E, pdf_path_extension in Hd) ] ]).

Lemma process_contract_files client dir options id :
  preserves files_kept (process_contract client dir options id).
Proof.
  unfold process_contract, download_contract.
  repeat first [ pres_step | solve [kept] ].
Qed.

Lemma runScraper_files fuel answers : preserves files_kept (runScraper fuel answers).
Proof.
  assert (forall fuel client options f t dir page,
    preserves files_kept (page_loop fuel client f t dir options page)) as Hpages.
  { clear fuel. induction fuel as [|fuel IH]; intros client options f t dir page; simpl.
    - pres_step.
    - unfold scrape_page.
      repeat first
        [ apply process_contract_files | apply IH | pres_step | solve [kept] ]. }
  assert (forall fuel pages client options repeat today f t,
    preserves files_kept (window_loop fuel pages client options repeat today f t)) as Hloop.
  { clear fuel. induction fuel as [|fuel IH]; intros; simpl.
    - pres_step.
    - unfold scrapeRange.
      repeat first [ apply Hpages | apply IH | pres_step | solve [kept] ]. }
  unfold runScraper, setup_cache.
  repeat first [ apply Hloop | pres_step | solve [kept] ].
Qed.

End Files.
Section RunRecords.
Context `{Env}.

Lemma runScraper_records fuel answers dirs files :
  let s0 := boot dirs files in
  let final := exec (runScraper fuel answers) s0 in
  cache_log final = cache_log s0 +:+ log_lines (added_ids (history final))
  /\ downloaded (stats final) = length (added_ids (history final))
  /\ (outcome (runScraper fuel answers) s0 = Ok tt ->
      size (cachedIds final)
      = (size (load_cache (cache_log s0)) + downloaded (stats final))%nat).
Proof.
  set (s0 := boot dirs files). cbv zeta.
  remember (exec (runScraper fuel answers) s0) as final eqn:Hfin.
  remember (outcome (runScraper fuel answers) s0) as out eqn:Hout.
  unfold exec in Hfin. unfold outcome in Hout. rewrite runScraper_run in Hfin, Hout.
  destruct (setup_cache_no_resolver s0) as (pre & Hpre & Hq).
  change (trace s0) with (@nil Event) in Hpre. rewrite app_nil_r in Hpre.
  pose proof (setup_cache_files s0) as Hfiles.
  pose proof (setup_cache_loaded s0) as Hloaded.
  assert (stats (exec setup_cache s0) = stats s0) as Hstats.
  { unfold setup_cache, exec, bind. unfold_prims. simpl.
    repeat (case_match; simpl in *; simplify_eq); reflexivity. }
  assert (added_ids (rev pre) = []) as Hnone.
  { apply added_ids_none. by apply Forall_rev. }
  destruct (outcome setup_cache s0) as [[]| |].
  2,3: (simpl in Hfin, Hout; subst final out; unfold history; rewrite Hpre, Hnone;
        unfold cache_log; rewrite Hfiles, Hstats; simpl; rewrite append_nil_r; done).
  cbv zeta in Hfin, Hout.
  set (s1 := exec setup_cache s0) in *.
  set (s2 := set_stats _ (add_event _ s1)) in *.
  set (today := clock (trace s2)) in *.
  set (s3 := add_event (EvNow today) s2) in *.
  set (wl := window_loop _ _ _ _ _ _ _ _) in *.
  destruct (window_loop_records fuel fuel {| client_cookie := cookie answers |}
              {| opt_throttleTime := throttleTime answers;
                 opt_department := department answers;
                 opt_bno := bno answers;
                 opt_buyer_category := buyer_category answers |}
              (repeatTillDate answers) today (fromDate answers) (toDate answers) s3)
    as (evs & Ht & Hl & Hd & Hs).
  fold wl in Ht, Hl, Hd, Hs.
  assert (cache_log s3 = cache_log s0) as Hl3.
  { unfold cache_log, s3, s2. simpl. fold s1. by rewrite Hfiles. }
  assert (added_ids (history (exec wl s3)) = added_ids (rev evs)) as Hadd.
  { unfold history. rewrite Ht, rev_app_distr, added_ids_app.
    unfold s3, s2. simpl. fold s1. rewrite Hpre.
    rewrite !added_ids_app, Hnone. reflexivity. }
  assert (downloaded (stats (exec wl s3)) = length (added_ids (rev evs))) as Hd'.
  { rewrite Hd, added_ids_rev_length. reflexivity. }
  assert (size (cachedIds (exec wl s3))
          = (size (load_cache (cache_log s0)) + downloaded (stats (exec wl s3)))%nat) as Hs'.
  { rewrite Hs, Hd. unfold s3, s2. simpl. fold s1. by rewrite Hloaded. }
  destruct (outcome wl s3); simpl in Hfin, Hout; subst final out.
  - unfold history. simpl. fold (history (exec wl s3)).
    rewrite !added_ids_app. simpl. rewrite !app_nil_r.
    unfold cache_log at 1. simpl. fold (cache_log (exec wl s3)).
    rewrite Hadd, Hl, Hl3. done.
  - rewrite Hadd, Hl, Hl3. done.
  - rewrite Hadd, Hl, Hl3. done.
Qed.


(** X11: the cache set grows by the downloads.  When a run returns, the
    number of ids in the cache set is the number of ids read from the log
    at start-up plus the [downloaded] counter: every download adds a new
    id, and nothing else changes the set. *)
Theorem X11_cache_set_size fuel answers dirs files :
  let s0 := boot dirs files in
  let final := exec (runScraper fuel answers) s0 in
  outcome (runScraper fuel answers) s0 = Ok tt ->
  size (cachedIds final)
  = (size (load_cache (cache_log s0)) + downloaded (stats final))%nat.
Proof.
  cbv zeta. intros Hok.
  destruct (runScraper_records fuel answers dirs files) as (_ & _ & Hs). by apply Hs.
Qed.

(** X12: the files a run leaves alone.  From any state of the disk, a
    run removes no file, and a file that is neither the cache log nor
    named with the extension [.pdf] has after the run the content it had
    before: only the log and documents are ever written. *)
Theorem X12_other_files_untouched fuel answers (s : State) :
  let final := exec (runScraper fuel answers) s in
  (forall p, is_Some (fs_files s !! p) -> is_Some (fs_files final !! p))
  /\ (forall p,
        p <> CACHE_FILE -> endsWith p ".pdf" = false ->
        fs_files final !! p = fs_files s !! p).
Proof. cbv zeta. apply (runScraper_files fuel answers s). Qed.

End RunRecords.
(* ===================================================================== *)
(** * The scanners of [scrapeRange] and the loader of the log *)
(* ===================================================================== *)

Section Scanners.
Import JsString.

Lemma take_until_spec stop : forall s run rest,
  take_until stop s = Some (run, rest) ->
  s = run +:+ String stop rest /\ has_char stop run = false.
Proof.
  induction s as [|c s IH]; intros run rest; simpl; [discriminate|].
  destruct (Ascii.eqb c stop) eqn:E.
  - intros [= <- <-]. apply Ascii.eqb_eq in E as ->. done.
  - destruct (take_until stop s) as [[run' rest']|]; [|discriminate].
    intros [= <- <-]. destruct (IH run' rest' eq_refl) as [-> Hno].
    rewrite append_cons. simpl. by rewrite E, Hno.
Qed.

Lemma take_until_app stop : forall run rest,
  has_char stop run = false ->
  take_until stop (run +:+ String stop rest) = Some (run, rest).
Proof.
  induction run as [|c run IH]; intros rest; simpl.
  - intros _. rewrite ?append_nil_l. simpl. by rewrite Ascii.eqb_refl.
  - intros [Hc Hr]%orb_false_iff. rewrite ?append_cons. simpl.
    by rewrite Hc, (IH rest Hr).
Qed.

Lemma match_quoted_sound : forall s id,
  match_quoted s = Some id ->
  id <> EmptyString /\ has_char "'" id = false
  /\ exists pre post, s = pre +:+ String "'" (id +:+ String "'" post).
Proof.
  induction s as [|c s IH]; intros id; simpl; [discriminate|].
  assert (match_quoted s = Some id ->
          id <> EmptyString /\ has_char "'" id = false
          /\ exists pre post, String c s = pre +:+ String "'" (id +:+ String "'" post))
    as Hrest.
  { intros Hm. destruct (IH id Hm) as (Hne & Hno & pre & post & ->).
    split; [exact Hne|]. split; [exact Hno|]. by exists (String c pre), post. }
  destruct (Ascii.eqb c "'") eqn:E; [|exact Hrest].
  apply Ascii.eqb_eq in E as ->.
  destruct (take_until "'" s) as [[[|a run] rest]|] eqn:Ht; try exact Hrest.
  intros [= <-]. destruct (take_until_spec _ _ _ _ Ht) as [-> Hno].
  split; [done|]. split; [exact Hno|]. by exists EmptyString, rest.
Qed.

Lemma match_quoted_first : forall pre id post,
  has_char "'" pre = false -> id <> EmptyString -> has_char "'" id = false ->
  match_quoted (pre +:+ String "'" (id +:+ String "'" post)) = Some id.
Proof.
  induction pre as [|c pre IH]; intros id post Hpre Hne Hid.
  - rewrite append_nil_l. simpl. rewrite (take_until_app _ _ _ Hid).
    by destruct id.
  - simpl in Hpre. apply orb_false_iff in Hpre as [Hc Hpre].
    rewrite append_cons. simpl. rewrite Hc. by apply IH.
Qed.

Lemma strip_prefix_app p s : strip_prefix p (p +:+ s) = Some s.
Proof.
  induction p as [|c p IH]; [reflexivity|].
  rewrite append_cons. simpl. by rewrite Ascii.eqb_refl.
Qed.

(** Before its first equals sign a text holds no link. *)
Lemma match_href_here_no_equals p r :
  p <> EmptyString -> has_char "=" p = false ->
  match_href_here (p +:+ ("href=" +:+ r)) = None.
Proof.
  intros Hne Hp. unfold match_href_here.
  assert (strip_prefix "href=" (p +:+ ("href=" +:+ r)) = None) as ->; [|reflexivity].
  destruct p as [|c1 p]; [done|]. clear Hne.
  rewrite append_cons. cbn [strip_prefix].
  destruct (Ascii.eqb "h" c1); [|reflexivity].
  simpl in Hp. apply orb_false_iff in Hp as [_ Hp].
  destruct p as [|c2 p]; [reflexivity|].
  rewrite append_cons. cbn [strip_prefix].
  destruct (Ascii.eqb "r" c2); [|reflexivity].
  simpl in Hp. apply orb_false_iff in Hp as [_ Hp].
  destruct p as [|c3 p]; [reflexivity|].
  rewrite append_cons. cbn [strip_prefix].
  destruct (Ascii.eqb "e" c3); [|reflexivity].
  simpl in Hp. apply orb_false_iff in Hp as [_ Hp].
  destruct p as [|c4 p]; [reflexivity|].
  rewrite append_cons. cbn [strip_prefix].
  destruct (Ascii.eqb "f" c4); [|reflexivity].
  simpl in Hp. apply orb_false_iff in Hp as [_ Hp].
  destruct p as [|c5 p]; [reflexivity|].
  rewrite append_cons. cbn [strip_prefix].
  simpl in Hp. apply orb_false_iff in Hp as [Hc5 _].
  rewrite Ascii.eqb_sym, Hc5. reflexivity.
Qed.

Lemma match_href_skip : forall p r,
  has_char "=" p = false ->
  match_href (p +:+ ("href=" +:+ r)) = match_href ("href=" +:+ r).
Proof.
  induction p as [|c p IH]; intros r Hp; [reflexivity|].
  pose proof (match_href_here_no_equals (String c p) r) as Hhere.
  rewrite append_cons in *. cbn [match_href].
  rewrite Hhere by done.
  simpl in Hp. apply orb_false_iff in Hp as [_ Hp]. by apply IH.
Qed.

Lemma match_href_here_sound s m :
  match_href_here s = Some m -> m <> EmptyString /\ has_char dquote m = false.
Proof.
  unfold match_href_here.
  destruct (strip_prefix "href=" s) as [r|]; [|discriminate].
  set (r' := match r with
             | String c q => if Ascii.eqb c backslash then q else r
             | EmptyString => r
             end).
  destruct r' as [|c q]; [discriminate|].
  destruct (Ascii.eqb c dquote); [|discriminate].
  destruct (take_until dquote q) as [[[|a run] rest]|] eqn:Ht; try discriminate.
  intros [= <-]. by destruct (take_until_spec _ _ _ _ Ht) as [_ Hno].
Qed.

Lemma match_href_sound : forall s m,
  match_href s = Some m -> m <> EmptyString /\ has_char dquote m = false.
Proof.
  induction s as [|c s IH]; intros m; cbn [match_href].
  - destruct (match_href_here EmptyString) eqn:E; [|discriminate].
    intros [= <-]. by apply (match_href_here_sound EmptyString).
  - destruct (match_href_here (String c s)) eqn:E.
    + intros [= <-]. by apply (match_href_here_sound (String c s)).
    + apply IH.
Qed.

Lemma match_href_plain url post :
  url <> EmptyString -> has_char dquote url = false ->
  match_href ("href=" +:+ String dquote (url +:+ String dquote post)) = Some url.
Proof.
  intros Hne Hno.
  assert (match_href_here ("href=" +:+ String dquote (url +:+ String dquote post))
          = Some url) as Hhere.
  { unfold match_href_here. rewrite strip_prefix_app. cbn.
    rewrite (take_until_app _ _ _ Hno). by destruct url. }
  destruct ("href=" +:+ String dquote (url +:+ String dquote post)) eqn:E;
    cbn [match_href]; by rewrite Hhere.
Qed.

Lemma has_char_app c a b : has_char c (a +:+ b) = has_char c a || has_char c b.
Proof.
  induction a as [|x a IH]; [reflexivity|].
  rewrite append_cons. simpl. by rewrite IH, orb_assoc.
Qed.

Lemma match_href_escaped url post :
  has_char dquote url = false ->
  match_href ("href=" +:+ String backslash (String dquote
                (url +:+ String backslash (String dquote post))))
  = Some (url +:+ String backslash EmptyString).
Proof.
  intros Hno.
  assert (match_href_here
            ("href=" +:+ String backslash (String dquote
                (url +:+ String backslash (String dquote post))))
          = Some (url +:+ String backslash EmptyString)) as Hhere.
  { unfold match_href_here. rewrite strip_prefix_app. cbn.
    replace (url +:+ String backslash (String dquote post))
      with ((url +:+ String backslash EmptyString) +:+ String dquote post)
      by (by rewrite append_assoc).
    rewrite take_until_app.
    - destruct url; reflexivity.
    - rewrite has_char_app, Hno. reflexivity. }
  destruct ("href=" +:+ _) eqn:E; cbn [match_href]; by rewrite Hhere.
Qed.

Lemma unescape_no_backslash : forall s,
  has_char backslash s = false -> unescape_slashes s = s.
Proof.
  induction s as [|c s IH]; [reflexivity|].
  simpl. intros [Hc Hs]%orb_false_iff.
  rewrite Hc. destruct s as [|d s']; [reflexivity|].
  assert (unescape_slashes (String d s') = String d s') as Hs' by (by apply IH).
  destruct (Ascii.eqb d "/") eqn:E.
  - apply Ascii.eqb_eq in E as ->. by rewrite Hs'.
  - destruct d as [[] [] [] [] [] [] [] []]; try (by rewrite Hs'); discriminate.
Qed.

Lemma escape_no_leading_slash s :
  match escape_slashes s with String "/" _ => False | _ => True end.
Proof.
  destruct s as [|c s]; [exact I|]. simpl.
  destruct (Ascii.eqb c "/") eqn:E; [exact I|].
  destruct c as [[] [] [] [] [] [] [] []]; try exact I; discriminate.
Qed.

Lemma unescape_escape : forall s, unescape_slashes (escape_slashes s) = s.
Proof.
  induction s as [|c s IH]; [reflexivity|].
  simpl. destruct (Ascii.eqb c "/") eqn:E.
  - apply Ascii.eqb_eq in E as ->. simpl. by rewrite IH.
  - pose proof (escape_no_leading_slash s) as Hlead.
    cbn [unescape_slashes]. rewrite IH.
    destruct (escape_slashes s) as [|d r]; [reflexivity|].
    destruct d as [[] [] [] [] [] [] [] []]; try reflexivity. done.
Qed.

End Scanners.
Section Loader.
Import JsString.

Lemma trimEnd_cons c s :
  is_white_space c = false -> trimEnd (String c s) = String c (trimEnd s).
Proof. intros Hc. simpl. rewrite Hc. by destruct (trimEnd s). Qed.

Lemma trimEnd_idem : forall s, trimEnd (trimEnd s) = trimEnd s.
Proof.
  induction s as [|c s IH]; [reflexivity|]. simpl.
  destruct (trimEnd s) as [|a r] eqn:E.
  - destruct (is_white_space c) eqn:Hc; [reflexivity|]. simpl. by rewrite Hc.
  - change (trimEnd (String c (String a r))) with
      (match trimEnd (String a r) with
       | EmptyString => if is_white_space c then EmptyString else String c EmptyString
       | r' => String c r'
       end).
    by rewrite IH.
Qed.

Lemma trimStart_head : forall s,
  match trimStart s with
  | EmptyString => True
  | String c _ => is_white_space c = false
  end.
Proof.
  induction s as [|c s IH]; [exact I|]. simpl.
  destruct (is_white_space c) eqn:Hc; [exact IH | exact Hc].
Qed.

Lemma trim_idem s : trim (trim s) = trim s.
Proof.
  unfold trim. pose proof (trimStart_head s) as Hh.
  destruct (trimStart s) as [|c r]; [reflexivity|].
  rewrite (trimEnd_cons c r Hh). cbn [trimStart]. rewrite Hh.
  by rewrite (trimEnd_cons c _ Hh), trimEnd_idem.
Qed.

Lemma has_newline_char s : has_newline s = has_char newline s.
Proof. induction s as [|c s IH]; [reflexivity|]. simpl. by rewrite IH. Qed.

Lemma trimStart_no_char x : forall s,
  has_char x s = false -> has_char x (trimStart s) = false.
Proof.
  induction s as [|c s IH]; [done|]. simpl.
  intros [Hc Hs]%orb_false_iff.
  destruct (is_white_space c); [by apply IH|]. simpl. by rewrite Hc, Hs.
Qed.

Lemma trimEnd_no_char x : forall s,
  has_char x s = false -> has_char x (trimEnd s) = false.
Proof.
  induction s as [|c s IH]; [done|]. simpl.
  intros [Hc Hs]%orb_false_iff. specialize (IH Hs).
  destruct (trimEnd s) as [|a r].
  - destruct (is_white_space c); [done|]. simpl. by rewrite Hc.
  - simpl in *. by rewrite Hc, IH.
Qed.

Lemma split_no_sep sep : forall s,
  Forall (fun x => has_char sep x = false) (split sep s).
Proof.
  induction s as [|c s IH]; simpl; [by repeat constructor|].
  destruct (Ascii.eqb c sep) eqn:E; [by constructor|].
  destruct (split sep s) as [|h t]; [by repeat constructor; simpl; rewrite E|].
  apply Forall_cons in IH as [Hh Ht]. constructor; [|exact Ht].
  simpl. by rewrite E, Hh.
Qed.

(** What the loader gives are ids it would give again. *)
Lemma cache_lines_clean content id : id ∈ cache_lines content -> clean_id id.
Proof.
  unfold cache_lines. rewrite list_elem_of_In, filter_In, <- list_elem_of_In.
  intros [Hin Ht]. apply list_elem_of_fmap in Hin as (line & -> & Hline).
  pose proof (split_no_sep newline content) as Hs.
  rewrite Forall_forall in Hs. specialize (Hs line Hline).
  split; [apply trim_idem|]. split.
  - rewrite has_newline_char. unfold trim.
    by apply trimEnd_no_char, trimStart_no_char.
  - intros E. by rewrite E in Ht.
Qed.

Lemma log_lines_terminated ids : log_terminated (log_lines ids).
Proof.
  induction ids as [|id ids IH]; [by left|]. simpl.
  right. destruct IH as [->|[l ->]].
  - exists id. unfold cache_line. by rewrite append_nil_r.
  - exists (cache_line id +:+ l). by rewrite append_assoc.
Qed.

Lemma cache_lines_log_lines ids :
  Forall clean_id ids -> cache_lines (log_lines ids) = ids.
Proof.
  induction 1 as [|id ids Hid _ IH]; [reflexivity|]. simpl.
  rewrite cache_lines_app by (right; by exists id).
  by rewrite (cache_lines_line _ Hid), IH.
Qed.

End Loader.

Section ScannerProperties.
Context `{Env}.
Import JsString.

(** X13: the contract id of a listing block.  From an [onclick] text
    that holds a non-empty run without quotes between two single quotes,
    with no quote before it, that run is extracted as it is; and
    whatever is extracted is non-empty, holds no single quote, and stood
    between two single quotes in the text.  A block without an [onclick]
    attribute or with an empty one gives nothing, so a page never yields
    more ids than it has blocks. *)
Theorem X13_contract_id_extraction :
  (forall pre id post,
      has_char "'" pre = false -> id <> EmptyString -> has_char "'" id = false ->
      extract_contract_id (Some (pre +:+ String "'" (id +:+ String "'" post))) = Some id)
  /\ (forall onclick id,
        extract_contract_id onclick = Some id ->
        id <> EmptyString /\ has_char "'" id = false
        /\ exists pre post,
             onclick = Some (pre +:+ String "'" (id +:+ String "'" post)))
  /\ extract_contract_id None = None
  /\ extract_contract_id (Some EmptyString) = None
  /\ (forall contractNodes,
        (length (contractsOnPage contractNodes) <= length contractNodes)%nat).
Proof.
  split; [|split; [|split; [|split]]].
  - intros pre id post Hpre Hne Hid. unfold extract_contract_id.
    rewrite (match_quoted_first pre id post Hpre Hne Hid).
    destruct pre; reflexivity.
  - intros [oc|] id; [|discriminate]. unfold extract_contract_id.
    destruct (truthy oc); [|discriminate].
    intros Hm. destruct (match_quoted_sound oc id Hm) as (Hne & Hno & pre & post & ->).
    eauto.
  - reflexivity.
  - reflexivity.
  - intros nodes. unfold contractsOnPage. induction nodes as [|n nodes IH]; [done|].
    change (omap extract_contract_id (n :: nodes))
      with (match extract_contract_id n with
            | Some id => id :: omap extract_contract_id nodes
            | None => omap extract_contract_id nodes
            end).
    destruct (extract_contract_id n); cbn [length]; lia.
Qed.

(** X14: the link in the answer of the token exchange.  When the text
    before the first [href=] holds no equals sign and the attribute value
    is a non-empty run without double quotes between two double quotes,
    the download URL is that run with every backslash-slash pair turned
    into a slash.  When the quotes are written backslash-quote, the
    backslash before the closing quote stays in the match, so the URL
    ends with a backslash.  Whatever the pattern matches is non-empty and
    holds no double quote; only when it matches nowhere is the first
    anchor of the parsed markup used. *)
Theorem X14_link_extraction :
  (forall pre url post,
      has_char "=" pre = false -> url <> EmptyString -> has_char dquote url = false ->
      extract_downloadUrl
        (pre +:+ ("href=" +:+ String dquote (url +:+ String dquote post)))
      = Some (unescape_slashes url))
  /\ (forall pre url post,
        has_char "=" pre = false -> has_char dquote url = false ->
        match_href
          (pre +:+ ("href=" +:+ String backslash (String dquote
                      (url +:+ String backslash (String dquote post)))))
        = Some (url +:+ String backslash EmptyString))
  /\ (forall code m,
        match_href code = Some m -> m <> EmptyString /\ has_char dquote m = false)
  /\ (forall code,
        match_href code = None -> extract_downloadUrl code = first_anchor_href code).
Proof.
  split; [|split; [|split]].
  - intros pre url post Hpre Hne Hno. unfold extract_downloadUrl.
    by rewrite (match_href_skip pre _ Hpre), (match_href_plain url post Hne Hno).
  - intros pre url post Hpre Hno.
    by rewrite (match_href_skip pre _ Hpre), (match_href_escaped url post Hno).
  - apply match_href_sound.
  - intros code Hm. unfold extract_downloadUrl. by rewrite Hm.
Qed.

(** X15: undoing the slash escapes.  Turning every backslash-slash pair
    into a slash gives back any string whose slashes had each been
    written backslash-slash, whatever else the string holds, and leaves
    a string without backslashes as it is. *)
Theorem X15_unescape_slashes_inverts (s : string) :
  unescape_slashes (escape_slashes s) = s
  /\ (has_char backslash s = false -> unescape_slashes s = s).
Proof. split; [apply unescape_escape | apply unescape_no_backslash]. Qed.

(** X16: the ids the loader reads.  Every id read from a cache log,
    whatever the log holds, is non-empty, has no white space around it
    and no newline inside; so an id recorded with white space around it
    is never found in the loaded set. *)
Theorem X16_loaded_ids_are_clean (content id : string) :
  (id ∈ load_cache content ->
   id <> EmptyString /\ trim id = id /\ has_newline id = false)
  /\ (trim id <> id -> id ∉ load_cache content).
Proof.
  assert (id ∈ load_cache content -> clean_id id) as Hc.
  { unfold load_cache. rewrite elem_of_list_to_set. apply cache_lines_clean. }
  split.
  - intros Hin. destruct (Hc Hin) as (Ht & Hn & Hne). done.
  - intros Hne Hin. destruct (Hc Hin) as (Ht & _). done.
Qed.

(** X17: what a later run finds in the log.  When the log a run started
    from was missing, empty or ended with a newline, and the ids the run
    inserted into the cache set are ids the loader gives back unchanged,
    then reading the log the run leaves gives the ids of the old log
    followed by the ids the run inserted, in the order of insertion,
    each once per insertion. *)
Theorem X17_log_reads_back fuel answers dirs files :
  let s0 := boot dirs files in
  let final := exec (runScraper fuel answers) s0 in
  log_terminated (cache_log s0) ->
  Forall clean_id (added_ids (history final)) ->
  cache_lines (cache_log final)
  = cache_lines (cache_log s0) ++ added_ids (history final).
Proof.
  cbv zeta. intros Ht Hclean.
  destruct (runScraper_records fuel answers dirs files) as (Hl & _).
  rewrite Hl, (cache_lines_app _ _ Ht). f_equal. by apply cache_lines_log_lines.
Qed.

End ScannerProperties.
(* ===================================================================== *)
(** * The throttle filter and the text helpers of the extractor *)
(* ===================================================================== *)

Section ThrottleFilter.
Local Open Scope Z_scope.
Import JsString.

Lemma is_digit_not_plus c : is_digit c = true -> Ascii.eqb c "+" = false.
Proof.
  destruct c as [[] [] [] [] [] [] [] []]; try reflexivity; discriminate.
Qed.

Lemma leading_digits_all s : all_digits s = true -> leading_digits s = s.
Proof.
  induction s as [|c s IH]; [reflexivity|]. simpl.
  intros [Hc Hs]%andb_true_iff. by rewrite Hc, IH.
Qed.

Lemma leading_digits_app z rest :
  all_digits z = true ->
  match rest with String c _ => is_digit c = false | EmptyString => True end ->
  leading_digits (z +:+ rest) = z.
Proof.
  intros Hz Hrest. induction z as [|c z IH].
  - rewrite ?append_nil_l. destruct rest as [|d r]; [reflexivity|]. simpl. by rewrite Hrest.
  - simpl in Hz. apply andb_true_iff in Hz as [Hc Hz].
    rewrite ?append_cons. simpl. by rewrite Hc, IH.
Qed.

Lemma nearest_double_exact n : 0 <= n <= 2 ^ 53 -> nearest_double n = Some n.
Proof.
  intros Hn. unfold nearest_double.
  destruct (Z.eq_dec n (2 ^ 53)) as [->|Hne]; [vm_compute; reflexivity|].
  assert (Z.log2 n + 1 <= 53) as Hb.
  { destruct (Z.eq_dec n 0) as [->|H0]; [vm_compute; discriminate|].
    assert (Z.log2 n < 53) by (apply Z.log2_lt_pow2; lia). lia. }
  apply Z.leb_le in Hb. by rewrite Hb.
Qed.

(** What [nearest_double] gives is a double, a significand of at most
    53 bits times a power of two, and no further from the integer than
    half a unit of its last place. *)
Lemma nearest_double_nearest n v :
  0 <= n -> nearest_double n = Some v ->
  exists m e,
    v = m * 2 ^ e /\ 0 <= e /\ 0 <= m <= 2 ^ 53 /\ (e = 0 \/ 2 ^ 52 <= m)
    /\ 2 * Z.abs (v - n) <= 2 ^ e.
Proof.
  intros Hn. unfold nearest_double.
  destruct (Z.log2 n + 1 <=? 53) eqn:Hb.
  { apply Z.leb_le in Hb. intros [= <-]. exists n, 0.
    rewrite Z.sub_diag, Z.mul_1_r. simpl.
    assert (n < 2 ^ 53).
    { destruct (Z.eq_dec n 0) as [->|]; [reflexivity|].
      apply Z.log2_lt_pow2; lia. }
    split; [reflexivity|]. split; [lia|]. split; [lia|]. split; [by left | lia]. }
  apply Z.leb_gt in Hb.
  assert (0 < n) as Hpos.
  { destruct (Z.eq_dec n 0) as [->|]; [|lia]. change (Z.log2 0) with 0 in Hb. lia. }
  set (sh := Z.log2 n + 1 - 53) in *.
  assert (0 < sh) as Hsh by lia.
  rewrite Z.shiftr_div_pow2 by lia.
  set (q := n / 2 ^ sh).
  assert (0 < 2 ^ sh) as Hp by (apply Z.pow_pos_nonneg; lia).
  assert (2 ^ sh = 2 * 2 ^ (sh - 1)) as Hhalf.
  { rewrite <- Z.pow_succ_r by lia. f_equal. lia. }
  rewrite !Z.shiftl_mul_pow2 by lia. rewrite Z.mul_1_l.
  set (half := 2 ^ (sh - 1)) in *.
  assert (0 < half) as Hh by (apply Z.pow_pos_nonneg; lia).
  pose proof (Z.div_mod n (2 ^ sh) ltac:(lia)) as Hdm.
  pose proof (Z.mod_pos_bound n (2 ^ sh) Hp) as Hmod. fold q in Hdm.
  set (r := n - q * 2 ^ sh).
  assert (r = n mod 2 ^ sh) as Hr by (unfold r; lia).
  assert (2 ^ 52 <= q < 2 ^ 53) as Hq.
  { destruct (Z.log2_spec n Hpos) as [Hlo Hhi].
    replace (Z.log2 n) with (52 + sh) in Hlo by (unfold sh; lia).
    replace (Z.succ (Z.log2 n)) with (53 + sh) in Hhi by (unfold sh; lia).
    rewrite Z.pow_add_r in Hlo, Hhi by lia. split.
    - apply Z.div_le_lower_bound; lia.
    - apply Z.div_lt_upper_bound; lia. }
  destruct ((half <? r) || ((r =? half) && Z.odd q)) eqn:Hup;
    destruct (_ <? 2 ^ 1024); try discriminate; intros [= <-].
  - assert (half <= r) as Hge.
    { apply orb_true_iff in Hup as [Hup|Hup].
      - apply Z.ltb_lt in Hup. lia.
      - apply andb_true_iff in Hup as [Hup _]. apply Z.eqb_eq in Hup. lia. }
    exists (q + 1), sh. split; [reflexivity|]. split; [lia|]. split; [lia|].
    split; [right; lia|].
    replace ((q + 1) * 2 ^ sh - n) with (2 ^ sh - r) by (unfold r; lia).
    rewrite Z.abs_eq by lia. lia.
  - assert (r <= half) as Hle.
    { apply orb_false_iff in Hup as [Hup _]. apply Z.ltb_ge in Hup. lia. }
    exists q, sh. split; [reflexivity|]. split; [lia|]. split; [lia|].
    split; [right; lia|].
    replace (q * 2 ^ sh - n) with (- r) by (unfold r; lia).
    rewrite Z.abs_opp, Z.abs_eq by lia. lia.
Qed.

Lemma parseInt_digits z rest :
  z <> EmptyString -> all_digits z = true ->
  match rest with String c _ => is_digit c = false | EmptyString => True end ->
  parseInt (z +:+ rest) =
    match nearest_double (digits_value 0 z) with
    | Some v => IntVal v
    | None => IntInfinity false
    end.
Proof.
  intros Hne Hz Hrest. unfold parseInt.
  destruct z as [|c z]; [done|]. clear Hne.
  pose proof Hz as Hz'. simpl in Hz'. apply andb_true_iff in Hz' as [Hc _].
  rewrite ?append_cons. cbn [trimStart].
  rewrite (is_digit_not_space c Hc), (is_digit_not_dash c Hc), (is_digit_not_plus c Hc).
  change (String c (z +:+ rest)) with (String c z +:+ rest).
  rewrite (leading_digits_app _ _ Hz Hrest). reflexivity.
Qed.

(** X18: the throttle answer, read as an integer.  [parseInt(input, 10)]
    reads back the decimal form of every integer up to 2^53 in absolute
    value, so the default answer and any such number typed in give that
    number; text after the digits is ignored.  A finite result for a run
    of digits is always a nearest double: a significand of at most 53
    bits times a power of two, within half a unit of its last place of
    the integer the digits spell, as 9007199254740993 gives
    9007199254740992.  An answer that is empty or starts (after white
    space) with anything but a sign or a digit gives [NaN]. *)
Theorem X18_throttle_filter :
  (forall n, - 2 ^ 53 <= n <= 2 ^ 53 -> throttle_filter (String_of_Z n) = IntVal n)
  /\ (forall z rest,
        z <> EmptyString -> all_digits z = true ->
        match rest with String c _ => is_digit c = false | EmptyString => True end ->
        digits_value 0 z <= 2 ^ 53 ->
        throttle_filter (z +:+ rest) = IntVal (digits_value 0 z))
  /\ (forall z rest v,
        z <> EmptyString -> all_digits z = true ->
        match rest with String c _ => is_digit c = false | EmptyString => True end ->
        throttle_filter (z +:+ rest) = IntVal v ->
        exists m e,
          v = m * 2 ^ e /\ 0 <= e /\ 0 <= m <= 2 ^ 53 /\ (e = 0 \/ 2 ^ 52 <= m)
          /\ 2 * Z.abs (v - digits_value 0 z) <= 2 ^ e)
  /\ throttle_filter "9007199254740993" = IntVal 9007199254740992
  /\ throttle_filter EmptyString = IntNaN
  /\ (forall c r,
        is_white_space c = false -> is_digit c = false ->
        Ascii.eqb c "-" = false -> Ascii.eqb c "+" = false ->
        throttle_filter (String c r) = IntNaN).
Proof.
  unfold throttle_filter. split; [|split; [|split; [|split; [|split]]]].
  - intros n Hn. unfold String_of_Z. destruct (n <? 0) eqn:E.
    + apply Z.ltb_lt in E. destruct (digits_spec (- n)) as (Hv & Ha & Hne); [lia|].
      unfold parseInt. cbn [trimStart].
      change (is_white_space "-") with false. cbn [Ascii.eqb Bool.eqb].
      rewrite (leading_digits_all _ Ha).
      destruct (digits (- n)) as [|c z]; [done|]. rewrite Hv.
      rewrite nearest_double_exact by lia. f_equal. lia.
    + apply Z.ltb_ge in E. destruct (digits_spec n E) as (Hv & Ha & Hne).
      rewrite <- (append_nil_r (digits n)).
      rewrite (parseInt_digits (digits n) EmptyString Hne Ha I), Hv.
      by rewrite nearest_double_exact by lia.
  - intros z rest Hne Hz Hrest Hv. rewrite (parseInt_digits z rest Hne Hz Hrest).
    rewrite nearest_double_exact; [reflexivity|].
    split; [|exact Hv]. apply digits_value_nonneg; [exact Hz | lia].
  - intros z rest v Hne Hz Hrest. rewrite (parseInt_digits z rest Hne Hz Hrest).
    destruct (nearest_double (digits_value 0 z)) as [w|] eqn:Hw; [|discriminate].
    intros [= <-]. apply nearest_double_nearest; [|exact Hw].
    apply digits_value_nonneg; [exact Hz | lia].
  - vm_compute. reflexivity.
  - reflexivity.
  - intros c r Hw Hd Hm Hp. unfold parseInt. cbn [trimStart]. rewrite Hw, Hm, Hp.
    cbn [leading_digits]. by rewrite Hd.
Qed.

End ThrottleFilter.
Section CleanText.
Import JsString.

Lemma space_is_white_space c : Ascii.eqb c " " = true -> is_white_space c = true.
Proof. intros E. apply Ascii.eqb_eq in E as ->. reflexivity. Qed.

Lemma not_white_space_not_space c : is_white_space c = false -> Ascii.eqb c " " = false.
Proof.
  intros Hw. destruct (Ascii.eqb c " ") eqn:E; [|reflexivity].
  by rewrite (space_is_white_space c E) in Hw.
Qed.

(** The two replacements leave a single-spaced text, which after a run
    of white space does not start with a space. *)
Lemma collapse_single_spaced : forall text in_run,
  single_spaced (collapse_white_space in_run (remove_non_ascii text)) = true
  /\ (in_run = true ->
      match collapse_white_space in_run (remove_non_ascii text) with
      | String d _ => Ascii.eqb d " " = false
      | EmptyString => True
      end).
Proof.
  induction text as [|c text IH]; intros in_run; [by split|].
  cbn [remove_non_ascii]. destruct (is_ascii c) eqn:Ha; [|apply IH].
  cbn [collapse_white_space]. destruct (is_white_space c) eqn:Hw.
  - destruct in_run.
    + apply IH.
    + destruct (IH true) as [Hs Hh]. split; [|done].
      cbn [single_spaced]. rewrite !andb_true_iff. specialize (Hh eq_refl).
      repeat split; try done.
      destruct (collapse_white_space true (remove_non_ascii text)) as [|d r];
        [reflexivity|].
      by rewrite Hh.
  - destruct (IH false) as [Hs _].
    pose proof (not_white_space_not_space c Hw) as Hc.
    split; [|by intros _].
    cbn [single_spaced]. rewrite !andb_true_iff. repeat split; try done.
    + by rewrite Hw.
    + rewrite Hc. by destruct (collapse_white_space false (remove_non_ascii text)).
Qed.

Lemma single_spaced_tail c r : single_spaced (String c r) = true -> single_spaced r = true.
Proof. cbn [single_spaced]. rewrite !andb_true_iff. tauto. Qed.

Lemma trimStart_single_spaced : forall s,
  single_spaced s = true -> single_spaced (trimStart s) = true.
Proof.
  induction s as [|c s IH]; [done|]. intros Hs. cbn [trimStart].
  destruct (is_white_space c); [|exact Hs].
  apply IH. by apply (single_spaced_tail c).
Qed.

Lemma trimEnd_head_eq : forall s a r,
  trimEnd s = String a r -> exists r', s = String a r'.
Proof.
  intros [|c s] a r; [discriminate|]. cbn [trimEnd].
  destruct (trimEnd s); [destruct (is_white_space c)|]; intros [= <- _]; eauto.
Qed.

Lemma trimEnd_single_spaced : forall s,
  single_spaced s = true -> single_spaced (trimEnd s) = true.
Proof.
  induction s as [|c s IH]; [done|]. intros Hs.
  pose proof (IH (single_spaced_tail c s Hs)) as Hr.
  cbn [single_spaced] in Hs. rewrite !andb_true_iff in Hs.
  destruct Hs as [[[Ha Hw] Hn] _].
  cbn [trimEnd]. destruct (trimEnd s) as [|a r] eqn:E.
  - destruct (is_white_space c) eqn:Hc; [reflexivity|].
    cbn [single_spaced]. rewrite Hc, !andb_true_iff. done.
  - destruct (trimEnd_head_eq s a r E) as [r' ->].
    cbn [single_spaced] in *. rewrite !andb_true_iff in *. tauto.
Qed.

Lemma remove_non_ascii_id : forall s, single_spaced s = true -> remove_non_ascii s = s.
Proof.
  induction s as [|c s IH]; [reflexivity|]. intros Hs.
  pose proof (IH (single_spaced_tail c s Hs)) as Hr.
  cbn [single_spaced] in Hs. rewrite !andb_true_iff in Hs.
  destruct Hs as [[[Ha _] _] _]. cbn [remove_non_ascii]. by rewrite Ha, Hr.
Qed.

Lemma collapse_id : forall s in_run,
  single_spaced s = true ->
  (in_run = true ->
   match s with String d _ => is_white_space d = false | EmptyString => True end) ->
  collapse_white_space in_run s = s.
Proof.
  induction s as [|c s IH]; intros in_run Hs Hrun; [reflexivity|].
  pose proof (single_spaced_tail c s Hs) as Hr.
  cbn [single_spaced] in Hs. rewrite !andb_true_iff in Hs.
  destruct Hs as [[[_ Hw] Hn] _].
  cbn [collapse_white_space]. destruct (is_white_space c) eqn:Hc.
  - destruct in_run; [by specialize (Hrun eq_refl)|].
    cbn in Hw. apply Ascii.eqb_eq in Hw as ->.
    f_equal. apply IH; [exact Hr|]. intros _.
    destruct s as [|d s']; [exact I|].
    cbn in Hn. destruct (is_white_space d) eqn:Hd; [|reflexivity].
    cbn [single_spaced] in Hr. rewrite !andb_true_iff in Hr.
    destruct Hr as [[[_ Hwd] _] _]. rewrite Hd in Hwd. cbn in Hwd.
    by rewrite Hwd in Hn.
  - f_equal. apply IH; [exact Hr | discriminate].
Qed.

(** X19: cleaned text.  [cleanText] gives a text of code units up to 127
    with single spaces as its only white space and none at either end;
    a text of that form is left as it is, so cleaning twice is cleaning
    once. *)
Theorem X19_cleanText_normal_form (text : string) :
  single_spaced (cleanText text) = true
  /\ trim (cleanText text) = cleanText text
  /\ cleanText (cleanText text) = cleanText text
  /\ (single_spaced text = true -> trim text = text -> cleanText text = text).
Proof.
  assert (forall s, single_spaced s = true -> trim s = s -> cleanText s = s) as Hfix.
  { intros s Hs Ht. unfold cleanText.
    rewrite (remove_non_ascii_id s Hs), (collapse_id s false Hs); [exact Ht | discriminate]. }
  assert (single_spaced (cleanText text) = true) as Hform.
  { unfold cleanText, trim.
    apply trimEnd_single_spaced, trimStart_single_spaced, collapse_single_spaced. }
  assert (trim (cleanText text) = cleanText text) as Htrim
    by (unfold cleanText; apply trim_idem).
  split; [exact Hform|]. split; [exact Htrim|]. split; [|apply Hfix].
  by apply Hfix.
Qed.

End CleanText.
Section ExtractBetween.
Import JsString.

Lemma strip_prefix_Some : forall p s r, strip_prefix p s = Some r -> s = p +:+ r.
Proof.
  induction p as [|c p IH]; intros s r; simpl.
  - by intros [= ->].
  - destruct s as [|d s]; [discriminate|].
    destruct (Ascii.eqb c d) eqn:E; [|discriminate].
    apply Ascii.eqb_eq in E as ->. intros Hs. rewrite append_cons. f_equal. by apply IH.
Qed.

Lemma strip_prefix_app_l : forall p s r b,
  strip_prefix p s = Some r -> strip_prefix p (s +:+ b) = Some (r +:+ b).
Proof.
  intros p s r b Hs. rewrite (strip_prefix_Some _ _ _ Hs), append_assoc.
  apply strip_prefix_app.
Qed.

(** A prefix test that fails on [s] but succeeds once more text follows
    ran out of text on [s]. *)
Lemma strip_prefix_short : forall p s b r,
  strip_prefix p s = None -> strip_prefix p (s +:+ b) = Some r ->
  (String.length s < String.length p)%nat.
Proof.
  induction p as [|c p IH]; intros s b r; simpl; [discriminate|].
  destruct s as [|d s]; [simpl; lia|].
  rewrite append_cons. destruct (Ascii.eqb c d); [|discriminate].
  intros Hn Hs. specialize (IH s b r Hn Hs). simpl. lia.
Qed.

Lemma string_drop_app : forall a b, string_drop (String.length a) (a +:+ b) = b.
Proof. induction a as [|c a IH]; intros b; [reflexivity|]. rewrite append_cons. apply IH. Qed.

Lemma string_take_app : forall a b, string_take (String.length a) (a +:+ b) = a.
Proof.
  induction a as [|c a IH]; intros b; [reflexivity|].
  rewrite append_cons. simpl. by rewrite IH.
Qed.

Lemma string_take_drop : forall n s, string_take n s +:+ string_drop n s = s.
Proof.
  induction n as [|n IH]; intros s; [reflexivity|].
  destruct s as [|c s]; [reflexivity|]. simpl. rewrite append_cons. by rewrite IH.
Qed.

Lemma string_take_length : forall n s, (String.length (string_take n s) <= n)%nat.
Proof.
  induction n as [|n IH]; intros s; [simpl; lia|].
  destruct s as [|c s]; simpl; [lia|]. specialize (IH s). lia.
Qed.

(** The first occurrence is an occurrence, and no occurrence starts
    before it. *)
Lemma indexOf_Some pat : forall s i,
  indexOf pat s = Some i ->
  exists a b, s = a +:+ (pat +:+ b) /\ String.length a = i.
Proof.
  induction s as [|c s IH]; intros i; cbn [indexOf].
  - destruct (strip_prefix pat EmptyString) as [r|] eqn:E; [|discriminate].
    intros [= <-]. exists EmptyString, r. split; [|reflexivity].
    rewrite append_nil_l. by apply strip_prefix_Some.
  - destruct (strip_prefix pat (String c s)) as [r|] eqn:E.
    + intros [= <-]. exists EmptyString, r. split; [|reflexivity].
      rewrite append_nil_l. by apply strip_prefix_Some.
    + destruct (indexOf pat s) as [j|] eqn:Ej; [|discriminate].
      intros [= <-]. destruct (IH j eq_refl) as (a & b & -> & <-).
      by exists (String c a), b.
Qed.

Lemma indexOf_occurrence pat : forall a b,
  exists i, indexOf pat (a +:+ (pat +:+ b)) = Some i /\ (i <= String.length a)%nat.
Proof.
  induction a as [|c a IH]; intros b.
  - exists 0%nat. rewrite append_nil_l. split; [|simpl; lia].
    destruct (pat +:+ b) eqn:E; cbn [indexOf]; rewrite <- ?E; by rewrite strip_prefix_app.
  - rewrite append_cons. cbn [indexOf].
    destruct (strip_prefix pat (String c (a +:+ (pat +:+ b)))).
    + exists 0%nat. split; [reflexivity | simpl; lia].
    + destruct (IH b) as (i & -> & Hi). exists (S i). split; [reflexivity | simpl; lia].
Qed.

Lemma indexOf_None pat s : indexOf pat s = None <-> ~ occurs pat s.
Proof.
  split.
  - intros Hn (a & b & ->). destruct (indexOf_occurrence pat a b) as (i & Hi & _).
    by rewrite Hi in Hn.
  - intros Hno. destruct (indexOf pat s) as [i|] eqn:E; [|reflexivity].
    destruct (indexOf_Some pat s i E) as (a & b & -> & _). destruct Hno. by exists a, b.
Qed.

(** Text after the first occurrence does not move it. *)
Lemma indexOf_app pat : forall a b i,
  indexOf pat a = Some i -> indexOf pat (a +:+ b) = Some i.
Proof.
  induction a as [|c a IH]; intros b i; cbn [indexOf].
  - destruct (strip_prefix pat EmptyString) as [r|] eqn:E; [|discriminate].
    intros [= <-]. rewrite append_nil_l.
    pose proof (strip_prefix_app_l _ _ _ b E) as E'. rewrite append_nil_l in E'.
    destruct b; cbn [indexOf]; by rewrite E'.
  - destruct (strip_prefix pat (String c a)) as [r|] eqn:E.
    + intros [= <-]. rewrite append_cons.
      pose proof (strip_prefix_app_l _ _ _ b E) as E'. rewrite append_cons in E'.
      cbn [indexOf]. by rewrite E'.
    + destruct (indexOf pat a) as [j|] eqn:Ej; [|discriminate].
      intros [= <-]. rewrite append_cons. cbn [indexOf].
      destruct (strip_prefix pat (String c (a +:+ b))) as [r|] eqn:E'.
      * change (String c (a +:+ b)) with (String c a +:+ b) in E'.
        pose proof (strip_prefix_short _ _ _ _ E E') as Hlen.
        destruct (indexOf_Some pat a j Ej) as (x & y & -> & _).
        cbn [String.length] in Hlen. rewrite !length_append in Hlen. lia.
      * by rewrite (IH b j eq_refl).
Qed.

Lemma trimStart_suffix : forall s, exists a, s = a +:+ trimStart s.
Proof.
  induction s as [|c s [a IH]]; [by exists EmptyString|]. cbn [trimStart].
  destruct (is_white_space c); [|by exists EmptyString].
  exists (String c a). rewrite append_cons. by f_equal.
Qed.

Lemma trimEnd_prefix : forall s, exists b, s = trimEnd s +:+ b.
Proof.
  induction s as [|c s [b IH]]; [by exists EmptyString|]. cbn [trimEnd].
  destruct (trimEnd s) as [|a r].
  - destruct (is_white_space c).
    + by exists (String c s).
    + exists s. reflexivity.
  - exists b. rewrite append_cons. by f_equal.
Qed.

Lemma occurs_trim pat s : occurs pat (trim s) -> occurs pat s.
Proof.
  unfold trim. intros (a & b & Ho).
  destruct (trimStart_suffix s) as [x Hx]. destruct (trimEnd_prefix (trimStart s)) as [y Hy].
  exists (x +:+ a), (b +:+ y). rewrite Hx at 1. rewrite Hy at 1. rewrite Ho.
  by rewrite !append_assoc.
Qed.

Lemma no_occurrence_before pat s j :
  pat <> EmptyString -> indexOf pat s = Some j -> ~ occurs pat (string_take j s).
Proof.
  intros Hne Hj (a & b & Ho).
  pose proof (string_take_drop j s) as Hs. rewrite Ho in Hs.
  rewrite !append_assoc in Hs.
  destruct (indexOf_occurrence pat a (b +:+ string_drop j s)) as (i & Hi & Hle).
  rewrite Hs, Hj in Hi. injection Hi as <-.
  pose proof (string_take_length j s) as Hlen. rewrite Ho, !length_append in Hlen.
  destruct pat; [done|]. simpl in Hlen. lia.
Qed.

(** X20: the text between two markers.  When [startStr] first occurs in
    the text right after [pre], and [endStr], not empty, first occurs
    after that right after [mid], [extractBetween] gives [mid] without
    the white space around it.  Without the start marker it gives the
    empty text.  And whatever it gives, for a non-empty end marker, does
    not hold the end marker. *)
Theorem X20_extractBetween :
  (forall pre startStr mid endStr post,
      indexOf startStr (pre +:+ startStr) = Some (String.length pre) ->
      endStr <> EmptyString ->
      indexOf endStr (mid +:+ endStr) = Some (String.length mid) ->
      extractBetween (pre +:+ (startStr +:+ (mid +:+ (endStr +:+ post)))) startStr endStr
      = trim mid)
  /\ (forall text startStr endStr,
        indexOf startStr text = None ->
        extractBetween text startStr endStr = EmptyString)
  /\ (forall text startStr endStr,
        endStr <> EmptyString ->
        indexOf endStr (extractBetween text startStr endStr) = None).
Proof.
  split; [|split].
  - intros pre startStr mid endStr post Hs Hne He. unfold extractBetween.
    rewrite <- (append_assoc pre startStr), (indexOf_app _ _ _ _ Hs).
    rewrite <- length_append. unfold substring_from. rewrite string_drop_app.
    destruct endStr as [|c e]; [done|]. cbn [truthy negb].
    rewrite <- (append_assoc mid (String c e)), (indexOf_app _ _ _ _ He).
    unfold substring. rewrite Nat.max_0_l, Nat.min_0_l, Nat.sub_0_r. cbn [string_drop].
    rewrite append_assoc. by rewrite string_take_app.
  - intros text startStr endStr Hn. unfold extractBetween. by rewrite Hn.
  - intros text startStr endStr Hne. unfold extractBetween.
    destruct (indexOf startStr text) as [i|].
    2:{ destruct endStr; [done | reflexivity]. }
    destruct endStr as [|c e] eqn:Ee; [done|]. cbn [truthy negb]. rewrite <- Ee in *.
    destruct (indexOf endStr (substring_from (i + String.length startStr) text))
      as [j|] eqn:Ej; [|exact Ej].
    apply indexOf_None. intros Ho. apply occurs_trim in Ho.
    unfold substring in Ho. rewrite Nat.max_0_l, Nat.min_0_l, Nat.sub_0_r in Ho.
    cbn [string_drop] in Ho.
    by apply (no_occurrence_before endStr _ j Hne Ej).
Qed.

End ExtractBetween.
Section Traverse.

Lemma toLowerCase_app a b : toLowerCase (a +:+ b) = toLowerCase a +:+ toLowerCase b.
Proof.
  induction a as [|c a IH]; [reflexivity|].
  rewrite append_cons. simpl. rewrite append_cons. by f_equal.
Qed.

Lemma endsWith_app a b suffix : endsWith b suffix = true -> endsWith (a +:+ b) suffix = true.
Proof.
  intros Hb. induction a as [|c a IH]; [by rewrite append_nil_l|].
  rewrite append_cons. cbn [endsWith]. rewrite IH. apply orb_true_r.
Qed.

Lemma collected_ok_file dir f :
  endsWith (toLowerCase f) ".pdf" = true -> collected_ok dir (path_join dir f).
Proof.
  intros Hf. split; [by exists f|].
  unfold path_join. rewrite !toLowerCase_app. by apply endsWith_app, endsWith_app.
Qed.

Lemma collected_ok_below dir f p :
  collected_ok (path_join dir f) p -> collected_ok dir p.
Proof.
  intros [[rel ->] Hp]. split; [|exact Hp].
  exists (path_join f rel). unfold path_join. by rewrite !append_assoc.
Qed.

Lemma traverse_entries_collected :
  forall files dir, Forall (collected_ok dir) (traverse_entries dir files).
Proof.
  fix IH 1. intros [|f child rest] dir; cbn [traverse_entries]; [constructor|].
  pose proof (IH rest dir) as Hrest.
  destruct child as [| | |files].
  - apply Forall_app. split; [|exact Hrest].
    destruct (endsWith (toLowerCase f) ".pdf") eqn:Hf; [|constructor].
    constructor; [|constructor]. by apply collected_ok_file.
  - constructor.
  - apply Forall_app. split; [constructor | exact Hrest].
  - apply Forall_app. split; [|exact Hrest]. cbn [traverse].
    pose proof (IH files (path_join dir f)) as Hsub.
    eapply Forall_impl; [exact Hsub|]. intros p. apply collected_ok_below.
Qed.

Lemma traverse_collected found dir : Forall (collected_ok dir) (traverse dir found).
Proof.
  destruct found as [| | |files]; cbn [traverse]; try constructor.
  apply traverse_entries_collected.
Qed.

Lemma traverse_entries_app dir before after :
  readable_entries (entries_of before) = true ->
  traverse_entries dir (entries_of (before ++ after))
  = traverse_entries dir (entries_of before) ++ traverse_entries dir (entries_of after).
Proof.
  induction before as [|[f child] before IH]; [reflexivity|].
  cbn [entries_of readable_entries app]. intros [Hc Hb]%andb_true_iff.
  cbn [traverse_entries]. rewrite (IH Hb).
  destruct child; try discriminate; by rewrite app_assoc.
Qed.

(** X21: the search for documents.  Every path [traverse] collects lies
    under the directory it was started on and has a name that ends in
    [.pdf] whatever the case of its letters.  An entry [fs.stat] throws
    on ends the loop over its directory: the documents found before it
    are kept, those listed after it in that directory are not looked
    at.  A sub-directory that cannot be read only loses what is under
    it.  Started on something that is not a readable directory, the
    search finds nothing. *)
Theorem X21_traverse_collects :
  (forall dir found, Forall (collected_ok dir) (traverse dir found))
  /\ (forall dir before f after,
        readable_entries (entries_of before) = true ->
        traverse dir (FsDir (entries_of (before ++ (f, FsBroken) :: after)))
        = traverse dir (FsDir (entries_of before)))
  /\ (forall dir before f after,
        readable_entries (entries_of before) = true ->
        traverse dir (FsDir (entries_of (before ++ (f, FsUnreadable) :: after)))
        = traverse dir (FsDir (entries_of (before ++ after))))
  /\ (forall dir names,
        traverse dir (FsDir (entries_of (map (fun f => (f, FsFile)) names)))
        = map (path_join dir)
            (List.filter (fun f => endsWith (toLowerCase f) ".pdf") names))
  /\ (forall dir, traverse dir FsFile = [] /\ traverse dir FsBroken = []
                  /\ traverse dir FsUnreadable = []).
Proof.
  split; [|split; [|split; [|split]]].
  - intros dir found. apply traverse_collected.
  - intros dir before f after Hb. cbn [traverse].
    rewrite (traverse_entries_app dir before _ Hb). cbn [entries_of traverse_entries].
    by rewrite app_nil_r.
  - intros dir before f after Hb. cbn [traverse].
    rewrite !(traverse_entries_app dir before _ Hb). cbn [entries_of traverse_entries traverse].
    reflexivity.
  - intros dir names. cbn [traverse]. induction names as [|f names IH]; [reflexivity|].
    cbn [map entries_of traverse_entries List.filter]. rewrite IH.
    by destruct (endsWith (toLowerCase f) ".pdf").
  - intros dir. done.
Qed.

End Traverse.
(* ===================================================================== *)
(** * The connection to the database *)
(* ===================================================================== *)

Section DbProperties.
Context `{Database}.
Local Open Scope db_scope.

(** A connection taken around a body is given back, whatever the body
    does; what the body returns or throws is what comes out. *)
Lemma connection_bracket {A} (body : D A) t :
  (db_connect ;; d_finally body db_release) t =
    match pool_connect t with
    | Some e => (DbConnect false :: t, inl e)
    | None => (DbRelease :: fst (body (DbConnect true :: t)),
               snd (body (DbConnect true :: t)))
    end.
Proof.
  unfold d_bind, db_connect, d_finally, db_release, d_emit.
  destruct (pool_connect t) as [e|]; [reflexivity|].
  by destruct (body (DbConnect true :: t)) as [t' [e|a]].
Qed.








End DbProperties.

Section InitDb.
Context `{Database}.
Local Open Scope db_scope.

Lemma run_queries_cons sql sqls t :
  run_queries (sql :: sqls) t =
    match client_query t sql [] with
    | inl e => (DbQuery sql [] (inl e) :: t, inl e)
    | inr rows => run_queries sqls (DbQuery sql [] (inr rows) :: t)
    end.
Proof.
  cbn [run_queries]. unfold d_bind, db_query.
  destruct (client_query t sql []); reflexivity.
Qed.

(** The statements go out in order, up to the first that fails. *)
Lemma run_queries_shape : forall sqls t,
  exists statements failure,
    sent_in_order sqls statements failure
    /\ run_queries sqls t
       = (rev statements ++ t,
          match failure with Some e => inl e | None => inr tt end).
Proof.
  induction sqls as [|sql sqls IH]; intros t.
  - exists [], None. done.
  - rewrite run_queries_cons.
    destruct (client_query t sql []) as [e|rows] eqn:Hq.
    + exists [DbQuery sql [] (inl e)], (Some e). split; [|reflexivity].
      simpl. eexists _, _. split; [reflexivity|]. done.
    + destruct (IH (DbQuery sql [] (inr rows) :: t)) as (sts & failure & Hs & Hr).
      exists (DbQuery sql [] (inr rows) :: sts), failure. split.
      * simpl. eexists _, _. split; [reflexivity|]. exact Hs.
      * rewrite Hr. simpl. by rewrite <- app_assoc.
Qed.

(** X23: creating the schema.  [initDB] takes one connection and always
    gives it back as its last action.  In between it sends the six
    [CREATE TABLE] statements in the order organisations, buyers,
    sellers, contracts, products, consignees, one after the other, and
    stops at the first that fails: the failed statement is the last one
    sent, its error is logged and then thrown; [initDB] returns only
    when all six were sent and none failed, after the line that says
    so.  When no connection can be had that exception leaves the
    function and nothing else is done. *)
Theorem X23_initDB_schema (t : list DbEvent) :
  match pool_connect t with
  | Some e => initDB t = (DbConnect false :: t, inl e)
  | None =>
      exists statements failure,
        sent_in_order
          [create_organisations; create_buyers; create_sellers;
           create_contracts; create_products; create_consignees]
          statements failure
        /\ initDB t =
             match failure with
             | None =>
                 (DbRelease :: DbLog "Database Schema Initialized."
                    :: rev statements
                    ++ DbLog "Validating Database Schema..." :: DbConnect true :: t,
                  inr tt)
             | Some e =>
                 (DbRelease :: DbLogException "Error initializing DB:" e
                    :: rev statements
                    ++ DbLog "Validating Database Schema..." :: DbConnect true :: t,
                  inl e)
             end
  end.
Proof.
  unfold initDB. rewrite connection_bracket.
  destruct (pool_connect t) as [e|]; [reflexivity|].
  destruct (run_queries_shape schema
              (DbLog "Validating Database Schema..." :: DbConnect true :: t))
    as (sts & failure & Hs & Hr).
  exists sts, failure. split; [exact Hs|].
  unfold d_try_catch, d_bind, db_log, d_emit, d_throw. rewrite Hr.
  by destruct failure.
Qed.

End InitDb.
(* ===================================================================== *)
(** * Every listed id is counted *)
(* ===================================================================== *)

Section Listed.
Context `{Env}.

Lemma listed_ids_none evs :
  Forall (fun e => ~ is_listing e) evs -> listed_ids evs = [].
Proof.
  induction 1 as [|e evs He _ IH]; [reflexivity|].
  change (e :: evs) with ([e] ++ evs). rewrite listed_ids_app, IH, app_nil_r.
  destruct e; simpl in *; try reflexivity. tauto.
Qed.

Lemma listed_ids_rev_length evs :
  length (listed_ids (rev evs)) = length (listed_ids evs).
Proof.
  induction evs as [|e evs IH]; [reflexivity|].
  simpl rev. change (e :: evs) with ([e] ++ evs).
  rewrite !listed_ids_app, !length_app, IH. lia.
Qed.

#[local] Instance counts_listed_refl : Reflexive counts_listed.
Proof. intros s. exists []. simpl. split; [reflexivity | lia]. Qed.

#[local] Instance counts_listed_trans : Transitive counts_listed.
Proof.
  intros a b c (e1 & T1 & C1) (e2 & T2 & C2). exists (e2 ++ e1).
  rewrite T2, T1, app_assoc, listed_ids_app, length_app. split; [reflexivity | lia].
Qed.

Lemma ends_walk_no_ids data :
  ends_walk (inr data) = true -> contractsOnPage (block_header_onclicks data) = [].
Proof.
  unfold ends_walk. intros [Hn|Hi]%orb_true_iff.
  - apply Nat.eqb_eq in Hn. by destruct (block_header_onclicks data).
  - apply Nat.eqb_eq in Hi. by destruct (contractsOnPage _).
Qed.

Lemma scrape_page_counts client f t dir options page :
  preserves counts_listed (scrape_page client f t dir options page).
Proof.
  intros s. unfold exec. rewrite scrape_page_run.
  set (payload := listing_payload f t options page).
  destruct (post_contract_details (trace s) client payload) as [e|data] eqn:Hpost.
  { eexists [_]. split; [reflexivity|]. simpl. lia. }
  destruct (ends_walk (inr data)) eqn:Hend.
  { eexists [_]. split; [reflexivity|]. cbn [fst stats add_event].
    change (listed_ids [EvPostListing payload (inr data)])
      with (contractsOnPage (block_header_onclicks data) ++ []).
    rewrite (ends_walk_no_ids data Hend). simpl. lia. }
  set (s1 := add_event (EvPostListing payload (inr data)) s).
  set (ids := contractsOnPage (block_header_onclicks data)).
  set (items := for_of ids (process_contract client dir options)).
  assert (extends (fun e => ~ is_listing e) s1 (exec items s1)) as (ievs & Hi & Hq).
  { apply preserves_for_of; try apply _. intros id _. apply process_contract_no_listing. }
  destruct (for_of_process_counted client dir options ids s1) as [Hsc _].
  fold items in Hsc.
  exists (EvSleep 1000 :: ievs ++ [EvPostListing payload (inr data)]). split.
  - simpl. rewrite Hi. unfold s1. simpl. rewrite <- app_assoc. reflexivity.
  - cbn [fst stats add_event]. rewrite Hsc.
    change (EvSleep 1000 :: ievs ++ [EvPostListing payload (inr data)])
      with ([EvSleep 1000] ++ ievs ++ [EvPostListing payload (inr data)]).
    rewrite !listed_ids_app, (listed_ids_none _ Hq).
    change (listed_ids [EvPostListing payload (inr data)]) with (ids ++ []).
    simpl. rewrite app_nil_r. reflexivity.
Qed.

Ltac count_prim :=
  prim; (eexists [_] || eexists []); (split; [reflexivity|]; simpl; lia).

Lemma window_loop_counts pages client options repeat today fuel : forall f t,
  preserves counts_listed (window_loop fuel pages client options repeat today f t).
Proof.
  assert (forall f t dir n page,
    preserves counts_listed (page_loop n client f t dir options page)) as Hp.
  { intros f t dir. induction n as [|n IHn]; intros page; simpl; [pres_step|].
    repeat first
      [ apply scrape_page_counts | apply IHn | pres_step | solve [count_prim] ]. }
  induction fuel as [|n IHn]; intros f t; simpl; [pres_step|].
  unfold scrapeRange.
  repeat first [ apply Hp | apply IHn | pres_step | solve [count_prim] ].
Qed.

Lemma setup_cache_no_listing :
  preserves (extends (fun e => ~ is_listing e)) setup_cache.
Proof.
  unfold setup_cache. repeat first [ pres_step | solve [quiet] ].
Qed.

(** X24: every id met is counted.  In any run from a fresh process the
    [scraped] counter at the end is the number of contract ids extracted
    from all the listing pages the run received, over all its windows:
    each id of each page is counted once, and nothing else is. *)
Theorem X24_scraped_counts_listed fuel answers dirs files :
  let final := exec (runScraper fuel answers) (boot dirs files) in
  scraped (stats final) = length (listed_ids (history final)).
Proof.
  set (s0 := boot dirs files). cbv zeta.
  remember (exec (runScraper fuel answers) s0) as final eqn:Hfin.
  unfold exec in Hfin. rewrite runScraper_run in Hfin.
  destruct (setup_cache_no_listing s0) as (pre & Hpre & Hq).
  change (trace s0) with (@nil Event) in Hpre. rewrite app_nil_r in Hpre.
  assert (stats (exec setup_cache s0) = stats s0) as Hstats.
  { unfold setup_cache, exec, bind. unfold_prims. simpl.
    repeat (case_match; simpl in *; simplify_eq); reflexivity. }
  pose proof (listed_ids_none _ Hq) as Hnone.
  destruct (outcome setup_cache s0) as [[]| |].
  2,3: (simpl in Hfin; subst final; unfold history;
        by rewrite listed_ids_rev_length, Hpre, Hnone, Hstats).
  cbv zeta in Hfin.
  set (s1 := exec setup_cache s0) in *.
  set (s2 := set_stats _ (add_event _ s1)) in *.
  set (today := clock (trace s2)) in *.
  set (s3 := add_event (EvNow today) s2) in *.
  set (wl := window_loop _ _ _ _ _ _ _ _) in *.
  destruct (window_loop_counts fuel {| client_cookie := cookie answers |}
              {| opt_throttleTime := throttleTime answers;
                 opt_department := department answers;
                 opt_bno := bno answers;
                 opt_buyer_category := buyer_category answers |}
              (repeatTillDate answers) today fuel (fromDate answers) (toDate answers) s3)
    as (evs & Ht & Hc).
  fold wl in Ht, Hc.
  assert (scraped (stats (exec wl s3)) = length (listed_ids (trace (exec wl s3)))) as Hw.
  { rewrite Hc, Ht, listed_ids_app, length_app. unfold s3, s2. simpl. fold s1.
    rewrite Hpre, Hnone. simpl. lia. }
  destruct (outcome wl s3); simpl in Hfin; subst final;
    unfold history; rewrite listed_ids_rev_length; simpl; exact Hw.
Qed.

End Listed.
(* ===================================================================== *)
(** * No id is downloaded twice *)
(* ===================================================================== *)

Section Fresh.
Context `{Env}.

#[local] Instance adds_fresh_refl : Reflexive adds_fresh.
Proof.
  intros s. exists []. simpl. split; [reflexivity|]. split; [constructor|].
  split; [intros id Hid; by apply elem_of_nil in Hid|].
  by rewrite union_empty_l_L.
Qed.

#[local] Instance adds_fresh_trans : Transitive adds_fresh.
Proof.
  intros a b c (e1 & T1 & N1 & F1 & C1) (e2 & T2 & N2 & F2 & C2).
  exists (e2 ++ e1). rewrite T2, T1, app_assoc, added_ids_app.
  split; [reflexivity|]. split; [|split].
  - apply NoDup_app. split; [exact N2|]. split; [|exact N1].
    intros id H2 H1. apply (F2 id H2). rewrite C1.
    apply elem_of_union_l. by apply elem_of_list_to_set.
  - intros id Hin. apply elem_of_app in Hin as [Hin|Hin].
    + intros Ha. apply (F2 id Hin). rewrite C1. by apply elem_of_union_r.
    + by apply F1.
  - rewrite C2, C1, list_to_set_app_L. by rewrite (assoc_L (∪)).
Qed.








End Fresh.

(* ===================================================================== *)
(** * The model at work on the demo portals *)
(* ===================================================================== *)

(** The end-to-end scenario of the specification: two pages (five ids,
    then none), three of the ids already in the log. *)
Example end_to_end_stats :
  stats (exec (@runScraper Demo.portal 5 Demo.answers) (boot ∅ Demo.disk))
  = {| scraped := 5; downloaded := 1; skipped := 3; failed := 1 |}.
Proof. vm_compute. reflexivity. Qed.

Example end_to_end_pages :
  Demo.pages_requested
    (history (exec (@runScraper Demo.portal 5 Demo.answers) (boot ∅ Demo.disk)))
  = ["0"; "1"].
Proof. vm_compute. reflexivity. Qed.

Example end_to_end_log :
  cache_log (exec (@runScraper Demo.portal 5 Demo.answers) (boot ∅ Demo.disk))
  = Demo.log3 +:+ cache_line "C5".
Proof. vm_compute. reflexivity. Qed.

(** With [repeatTillDate] the windows run up to the day of the clock. *)
Example windows_until_today :
  periods (history (exec (@runScraper Demo.portal 10 Demo.answers_repeat) (boot ∅ Demo.disk)))
  = [("01-01-2023", "31-03-2023"); ("01-04-2023", "30-06-2023");
     ("01-07-2023", "30-09-2023"); ("01-10-2023", "31-12-2023");
     ("01-01-2024", "31-03-2024"); ("01-04-2024", "15-06-2024")].
Proof. vm_compute. reflexivity. Qed.

(** A portal that is down fails every window's first page, and the run
    still visits every window and returns. *)
Example offline_run :
  outcome (@runScraper Demo.offline 10 Demo.answers_repeat) (boot ∅ ∅) = Ok tt
  /\ length (periods (history (exec (@runScraper Demo.offline 10 Demo.answers_repeat)
                                 (boot ∅ ∅)))) = 6%nat
  /\ Demo.pages_requested
       (history (exec (@runScraper Demo.offline 10 Demo.answers_repeat) (boot ∅ ∅)))
     = ["0"; "0"; "0"; "0"; "0"; "0"].
Proof. vm_compute. auto. Qed.

(** Month arithmetic of the planner. *)
Example parse_overflowing_day : formatDate (parseDate "31-02-2024") = "02-03-2024".
Proof. vm_compute. reflexivity. Qed.

Example parse_two_digit_year : formatDate (parseDate "99-99-0050") = "07-06-1958".
Proof. vm_compute. reflexivity. Qed.

Example add_three_months_nov30 :
  formatDate (addMonths (parseDate "30-11-2023") 3) = "29-02-2024".
Proof. vm_compute. reflexivity. Qed.

Example add_days_back : formatDate (addDays (parseDate "01-03-2023") (-1)) = "28-02-2023".
Proof. vm_compute. reflexivity. Qed.

Example parse_not_a_date : formatDate (addDays (parseDate "tomorrow") 1) = "NaN-NaN-NaN".
Proof. vm_compute. reflexivity. Qed.

(** ** Witnesses *)

Lemma C2_windows_contiguous_witness :
  let ws := periods (history (exec (@runScraper Demo.portal 10 Demo.answers_repeat)
                                (boot ∅ Demo.disk))) in
  date_format_test (toDate Demo.answers_repeat) = true
  /\ (forall t, clock_reading (@clock Demo.portal t))
  /\ ws !! 0%nat = Some ("01-01-2023", "31-03-2023")
  /\ ws !! 1%nat = Some ("01-04-2023", "30-06-2023")
  /\ ("01-01-2023", "31-03-2023")
     = (fromDate Demo.answers_repeat, toDate Demo.answers_repeat)
  /\ follows ("01-01-2023", "31-03-2023") ("01-04-2023", "30-06-2023").
Proof.
  cbv zeta.
  assert (date_format_test (toDate Demo.answers_repeat) = true)
    as H1 by (vm_compute; reflexivity).
  assert (forall t, clock_reading (@clock Demo.portal t))
    as H2 by (intros t; vm_compute; repeat split; discriminate).
  assert (periods (history (exec (@runScraper Demo.portal 10 Demo.answers_repeat)
                              (boot ∅ Demo.disk))) !! 0%nat
          = Some ("01-01-2023", "31-03-2023")) as H3 by (vm_compute; reflexivity).
  assert (periods (history (exec (@runScraper Demo.portal 10 Demo.answers_repeat)
                              (boot ∅ Demo.disk))) !! 1%nat
          = Some ("01-04-2023", "30-06-2023")) as H4 by (vm_compute; reflexivity).
  split; [exact H1|]. split; [exact H2|]. split; [exact H3|]. split; [exact H4|].
  split.
  - exact (proj1 (@C2_windows_contiguous Demo.portal 10 Demo.answers_repeat ∅ Demo.disk
                    H1 H2) _ H3).
  - exact (proj2 (@C2_windows_contiguous Demo.portal 10 Demo.answers_repeat ∅ Demo.disk
                    H1 H2) 0%nat _ _ H3 H4).
Defined.


Lemma C4_addMonths_clamps_witness :
  JsDate.wf (JsDate.mk (12 * 2024 + 0) 31 0)
  /\ exists r,
      addMonths (Some (JsDate.mk (12 * 2024 + 0) 31 0)) 3 = Some r
      /\ JsDate.ym r = (JsDate.ym (JsDate.mk (12 * 2024 + 0) 31 0) + 3)%Z
      /\ JsDate.tod r = JsDate.tod (JsDate.mk (12 * 2024 + 0) 31 0)
      /\ ((JsDate.dom (JsDate.mk (12 * 2024 + 0) 31 0)
           <= JsDate.days_in_month (JsDate.ym (JsDate.mk (12 * 2024 + 0) 31 0) + 3))%Z ->
          JsDate.dom r = JsDate.dom (JsDate.mk (12 * 2024 + 0) 31 0))
      /\ ((JsDate.days_in_month (JsDate.ym (JsDate.mk (12 * 2024 + 0) 31 0) + 3)
           < JsDate.dom (JsDate.mk (12 * 2024 + 0) 31 0))%Z ->
          JsDate.dom r = JsDate.days_in_month (JsDate.ym (JsDate.mk (12 * 2024 + 0) 31 0) + 3))
      /\ formatDate (addMonths (parseDate "31-01-2024") 3) = "30-04-2024".
Proof.
  assert (JsDate.wf (JsDate.mk (12 * 2024 + 0) 31 0)) as Hwf
    by (vm_compute; repeat split; discriminate).
  split; [exact Hwf|].
  exact (C4_addMonths_clamps (JsDate.mk (12 * 2024 + 0) 31 0) 3 Hwf).
Defined.

Lemma C7_resolver_outcome_witness :
  ("C5" ∉ cachedIds (boot ∅ ∅))
  /\ (let s := boot ∅ ∅ in
      let s' := exec (@process_contract Demo.portal Demo.client "pdfs/w" Demo.options "C5") s in
      (exists data code url pdf,
          @resolves Demo.portal Demo.client "pdfs/w" Demo.options "C5" s data code url pdf
          /\ is_Downloaded "pdfs/w" Demo.options "C5" data url pdf s s')
      \/ ((forall data code url pdf,
             ~ @resolves Demo.portal Demo.client "pdfs/w" Demo.options "C5" s data code url pdf)
          /\ is_Failed "C5" s s')).
Proof.
  assert ("C5" ∉ cachedIds (boot ∅ ∅)) as Hnot by (simpl; set_solver).
  split; [exact Hnot|].
  exact (@C7_resolver_outcome Demo.portal Demo.client "pdfs/w" Demo.options "C5"
           (boot ∅ ∅) Hnot).
Defined.

Lemma C8_rerun_skips_cached_witness :
  let s1 := exec (@runScraper Demo.reliable 3 Demo.answers) (boot ∅ Demo.disk) in
  let s2 := exec (@runScraper Demo.reliable 3 Demo.answers) s1 in
  log_terminated (default EmptyString (Demo.disk !! CACHE_FILE))
  /\ (forall id, id ∈ @listed_ids Demo.reliable (events_since s1 s2) ->
                 id ∈ cachedIds s1 /\ clean_id id)
  /\ Forall (fun e => ~ is_resolver_event e) (events_since s1 s2)
  /\ (outcome (@setup_cache Demo.reliable) s1 = Ok tt ->
      downloaded (stats s2) = 0%nat
      /\ failed (stats s2) = 0%nat
      /\ skipped (stats s2) = scraped (stats s2)).
Proof.
  cbv zeta.
  assert (log_terminated (default EmptyString (Demo.disk !! CACHE_FILE))) as H1.
  { right. exists ("C1" +:+ newline_str +:+ "C2" +:+ newline_str +:+ "C3").
    vm_compute. reflexivity. }
  assert (forall id,
    id ∈ @listed_ids Demo.reliable
           (events_since (exec (@runScraper Demo.reliable 3 Demo.answers) (boot ∅ Demo.disk))
              (exec (@runScraper Demo.reliable 3 Demo.answers)
                 (exec (@runScraper Demo.reliable 3 Demo.answers) (boot ∅ Demo.disk)))) ->
    id ∈ cachedIds (exec (@runScraper Demo.reliable 3 Demo.answers) (boot ∅ Demo.disk))
    /\ clean_id id) as H2.
  { intros id Hid.
    assert (@listed_ids Demo.reliable
              (events_since (exec (@runScraper Demo.reliable 3 Demo.answers) (boot ∅ Demo.disk))
                 (exec (@runScraper Demo.reliable 3 Demo.answers)
                    (exec (@runScraper Demo.reliable 3 Demo.answers) (boot ∅ Demo.disk))))
            = ["C1"; "C6"]) as Hl by (vm_compute; reflexivity).
    rewrite Hl in Hid.
    apply elem_of_cons in Hid as [->|Hid]; [|apply elem_of_cons in Hid as [->|Hid]];
      [| |by apply elem_of_nil in Hid].
    - split; [refine (bool_decide_unpack _ _); vm_compute; exact I|].
      unfold clean_id. vm_compute. repeat split; discriminate.
    - split; [refine (bool_decide_unpack _ _); vm_compute; exact I|].
      unfold clean_id. vm_compute. repeat split; discriminate. }
  split; [exact H1|]. split; [exact H2|].
  exact (@C8_rerun_skips_cached Demo.reliable 3 3 Demo.answers ∅ Demo.disk H1 H2).
Defined.

(** ** Counterexamples *)

(** C2 as stated: the prompt lets through two dates the wrong way round.
    The first window of the run is then that pair, whose from-date is
    after its to-date, and the second window starts before the first
    one did. *)
Lemma C2_counterexample :
  let ws := periods (history (exec (@runScraper Demo.portal 10 DemoMore.answers_backwards)
                                (boot ∅ ∅))) in
  prompt_accepts DemoMore.answers_backwards = true
  /\ repeatTillDate DemoMore.answers_backwards = true
  /\ ws = [("31-12-2023", "01-01-2023"); ("02-01-2023", "01-04-2023");
           ("02-04-2023", "01-07-2023"); ("02-07-2023", "01-10-2023");
           ("02-10-2023", "01-01-2024"); ("02-01-2024", "01-04-2024");
           ("02-04-2024", "15-06-2024")]
  /\ JsDate.gt (parseDate "31-12-2023") (parseDate "01-01-2023") = true
  /\ JsDate.gt (parseDate "31-12-2023") (parseDate "02-01-2023") = true.
Proof. vm_compute. repeat split; reflexivity. Qed.

(** C8 as stated: on the flaky portal the first run fails [C4]; the second
    run, over the same dates and the log the first run left, downloads it:
    one new download, and an item that is not reported skipped. *)
Lemma C8_counterexample :
  let s1 := exec (@runScraper Demo.flaky 3 Demo.answers) (boot ∅ Demo.disk) in
  let s2 := exec (@runScraper Demo.flaky 3 Demo.answers) s1 in
  stats s1 = {| scraped := 5; downloaded := 1; skipped := 3; failed := 1 |}
  /\ stats s2 = {| scraped := 5; downloaded := 1; skipped := 4; failed := 0 |}
  /\ ~ (downloaded (stats s2) = 0%nat /\ skipped (stats s2) = scraped (stats s2)).
Proof.
  vm_compute. split; [reflexivity|]. split; [reflexivity|].
  intros [Hd _]. discriminate.
Qed.

(** C9 as stated: with an empty cookie and dates that are not dates,
    which the prompt would have turned down, [runScraper] raises nothing
    and crawls: directories are created, pages requested, documents
    written. *)
Lemma C9_counterexample :
  let s' := exec (@runScraper Demo.portal 3 Demo.answers_unchecked) (boot ∅ ∅) in
  prompt_accepts Demo.answers_unchecked = false
  /\ validate_cookie (cookie Demo.answers_unchecked) = Some "Cookie cannot be empty"
  /\ validate_date (fromDate Demo.answers_unchecked) = Some "Invalid format"
  /\ outcome (@runScraper Demo.portal 3 Demo.answers_unchecked) (boot ∅ ∅) = Ok tt
  /\ Demo.dirs_created (history s') = ["pdfs"; "pdfs/2024/01/01_to_tomorrow"]
  /\ Demo.pages_requested (history s') = ["0"; "1"]
  /\ Demo.files_written (history s')
     = ["pdfs/2024/01/01_to_tomorrow/C1.pdf"; "pdfs/2024/01/01_to_tomorrow/C2.pdf";
        "pdfs/2024/01/01_to_tomorrow/C3.pdf"; "pdfs/2024/01/01_to_tomorrow/C5.pdf"].
Proof. vm_compute. repeat split; reflexivity. Qed.
(* ===================================================================== *)
(** * The further models at work *)
(* ===================================================================== *)

Example addDays_over_leap_day :
  formatDate (addDays (parseDate "27-02-2024") 3) = "01-03-2024"
  /\ formatDate (addDays (parseDate "01-01-2024") (-1)) = "31-12-2023"
  /\ formatDate (addDays (parseDate "31-12-2023") 366) = "31-12-2024".
Proof. vm_compute. auto. Qed.

Example unreadable_end_windows :
  periods (history (exec (@runScraper Demo.portal 3 DemoMore.answers_unreadable)
                      (boot ∅ ∅)))
  = [("01-01-2024", "tomorrow"); ("NaN-NaN-NaN", "NaN-NaN-NaN");
     ("NaN-NaN-NaN", "NaN-NaN-NaN")]
  /\ outcome (@runScraper Demo.portal 3 DemoMore.answers_unreadable) (boot ∅ ∅)
     = OutOfFuel.
Proof. vm_compute. auto. Qed.

Example throttle_answers :
  throttle_filter "500" = IntVal 500
  /\ throttle_filter "  250ms" = IntVal 250
  /\ throttle_filter "-5" = IntVal (-5)
  /\ throttle_filter "fast" = IntNaN
  /\ throttle_filter EmptyString = IntNaN
  /\ throttle_filter "9007199254740993" = IntVal 9007199254740992
  /\ throttle_filter "-18014398509481987" = IntVal (-18014398509481988).
Proof. vm_compute. repeat split; reflexivity. Qed.

Example clean_a_line :
  cleanText ("  Contract   NO:" +:+ newline_str +:+ " GEMC-1  ") = "Contract NO: GEMC-1".
Proof. vm_compute. reflexivity. Qed.

Example between_markers :
  extractBetween "x Buyer Details  Designation : Clerk  Paying Authority Details y"
    "Buyer Details" "Paying Authority Details"
  = "Designation : Clerk"
  /\ extractBetween "no markers here" "Buyer Details" "Paying Authority Details"
     = EmptyString
  /\ extractBetween "Buyer Details and the rest " "Buyer Details" "Paying Authority Details"
     = " and the rest ".
Proof. vm_compute. auto. Qed.

Example documents_found :
  traverse "pdfs" DemoMore.tree = ["pdfs/a.pdf"; "pdfs/2024/B.PDF"; "pdfs/2024/c.Pdf"].
Proof. vm_compute. reflexivity. Qed.

Example stats_without_sellers :
  rev (fst (@showStats DemoMore.no_sellers []))
  = [ DbConnect true;
      DbLog stats_header;
      DbQuery "SELECT COUNT(*) FROM contracts" [] (inr [[("count", "7")]]);
      DbQuery "SELECT COUNT(*) FROM buyers" [] (inr [[("count", "7")]]);
      DbQuery "SELECT COUNT(*) FROM sellers" []
        (inl (TransportError "relation sellers does not exist"));
      DbLogError "Error fetching stats: relation sellers does not exist";
      DbRelease ]
  /\ snd (@showStats DemoMore.no_sellers []) = inr tt.
Proof. vm_compute. auto. Qed.

Example schema_without_sellers :
  queries_sent (fst (@initDB DemoMore.no_sellers []))
  = [create_organisations; create_buyers; create_sellers]
  /\ snd (@initDB DemoMore.no_sellers [])
     = inl (TransportError "relation sellers does not exist")
  /\ @initDB DemoMore.no_pool []
     = ([DbConnect false], inl (TransportError "ECONNREFUSED")).
Proof. vm_compute. auto. Qed.

Example search_without_term :
  rev (fst (@searchContracts DemoMore.no_pool []))
  = [DbLog search_header; DbPrompt EmptyString]
  /\ snd (@searchContracts DemoMore.no_pool []) = inr tt.
Proof. vm_compute. auto. Qed.

(** ** Witnesses *)

Lemma X1_parse_format_roundtrip_witness :
  JsDate.wf (JsDate.mk (12 * 2024 + 1) 29 36000000)
  /\ year_from_100 (JsDate.mk (12 * 2024 + 1) 29 36000000)
  /\ in_date_range (JsDate.mk (12 * 2024 + 1) 29 36000000)
  /\ same_day (parseDate (formatDate (Some (JsDate.mk (12 * 2024 + 1) 29 36000000))))
       (Some (JsDate.mk (12 * 2024 + 1) 29 36000000))
  /\ formatDate (parseDate (formatDate (Some (JsDate.mk (12 * 2024 + 1) 29 36000000))))
     = formatDate (Some (JsDate.mk (12 * 2024 + 1) 29 36000000)).
Proof.
  assert (JsDate.wf (JsDate.mk (12 * 2024 + 1) 29 36000000)) as Hwf
    by (vm_compute; repeat split; discriminate).
  assert (year_from_100 (JsDate.mk (12 * 2024 + 1) 29 36000000)) as Hy
    by (vm_compute; discriminate).
  assert (in_date_range (JsDate.mk (12 * 2024 + 1) 29 36000000)) as Hr
    by (vm_compute; split; [discriminate | reflexivity]).
  split; [exact Hwf|]. split; [exact Hy|]. split; [exact Hr|].
  exact (X1_parse_format_roundtrip (JsDate.mk (12 * 2024 + 1) 29 36000000) Hwf Hy Hr).
Defined.

Lemma X2_validated_date_is_a_day_witness :
  date_format_test "31-02-2024" = true
  /\ (exists x, parseDate "31-02-2024" = Some x
                /\ (1 <= JsDate.dom x <= JsDate.days_in_month (JsDate.ym x))%Z)
  /\ formatDate (parseDate "31-02-2024") <> invalid_date_str
  /\ formatDate (parseDate "31-02-2024") = "02-03-2024".
Proof.
  assert (date_format_test "31-02-2024" = true) as Hs by (vm_compute; reflexivity).
  split; [exact Hs|].
  exact (X2_validated_date_is_a_day "31-02-2024" Hs).
Defined.

Lemma X3_addDays_steps_witness :
  JsDate.wf (JsDate.mk (12 * 2024 + 1) 27 0)
  /\ in_date_range (JsDate.mk (12 * 2024 + 1) 27 0)
  /\ in_date_range (shift_days (JsDate.mk (12 * 2024 + 1) 27 0) 3)
  /\ same_day (addDays (Some (JsDate.mk (12 * 2024 + 1) 27 0)) 3)
       (Some (shift_days (JsDate.mk (12 * 2024 + 1) 27 0) 3))
  /\ (1 <= JsDate.dom (shift_days (JsDate.mk (12 * 2024 + 1) 27 0) 3)
       <= JsDate.days_in_month (JsDate.ym (shift_days (JsDate.mk (12 * 2024 + 1) 27 0) 3)))%Z.
Proof.
  assert (JsDate.wf (JsDate.mk (12 * 2024 + 1) 27 0)) as Hwf
    by (vm_compute; repeat split; discriminate).
  assert (in_date_range (JsDate.mk (12 * 2024 + 1) 27 0)) as Hr
    by (vm_compute; split; [discriminate | reflexivity]).
  assert (in_date_range (shift_days (JsDate.mk (12 * 2024 + 1) 27 0) 3)) as Hr'
    by (vm_compute; split; [discriminate | reflexivity]).
  split; [exact Hwf|]. split; [exact Hr|]. split; [exact Hr'|].
  exact (X3_addDays_steps (JsDate.mk (12 * 2024 + 1) 27 0) 3 Hwf Hr Hr').
Defined.

Lemma X4_addDays_additive_witness :
  JsDate.wf (JsDate.mk (12 * 2023 + 11) 31 0)
  /\ in_date_range (JsDate.mk (12 * 2023 + 11) 31 0)
  /\ in_date_range (shift_days (JsDate.mk (12 * 2023 + 11) 31 0) 1)
  /\ in_date_range (shift_days (JsDate.mk (12 * 2023 + 11) 31 0) (1 + 90))
  /\ same_day (addDays (addDays (Some (JsDate.mk (12 * 2023 + 11) 31 0)) 1) 90)
       (addDays (Some (JsDate.mk (12 * 2023 + 11) 31 0)) (1 + 90))
  /\ same_day (addDays (addDays (Some (JsDate.mk (12 * 2023 + 11) 31 0)) 1) (- 1))
       (Some (JsDate.mk (12 * 2023 + 11) 31 0)).
Proof.
  assert (JsDate.wf (JsDate.mk (12 * 2023 + 11) 31 0)) as Hwf
    by (vm_compute; repeat split; discriminate).
  assert (in_date_range (JsDate.mk (12 * 2023 + 11) 31 0)) as Hr
    by (vm_compute; split; [discriminate | reflexivity]).
  assert (in_date_range (shift_days (JsDate.mk (12 * 2023 + 11) 31 0) 1)) as Ha
    by (vm_compute; split; [discriminate | reflexivity]).
  assert (in_date_range (shift_days (JsDate.mk (12 * 2023 + 11) 31 0) (1 + 90))) as Hb
    by (vm_compute; split; [discriminate | reflexivity]).
  split; [exact Hwf|]. split; [exact Hr|]. split; [exact Ha|]. split; [exact Hb|].
  exact (X4_addDays_additive (JsDate.mk (12 * 2023 + 11) 31 0) 1 90 Hwf Hr Ha Hb).
Defined.


Lemma X6_windows_within_witness :
  let h := history (exec (@runScraper Demo.portal 10 Demo.answers_repeat)
                      (boot ∅ Demo.disk)) in
  date_format_test (toDate Demo.answers_repeat) = true
  /\ (forall t, clock_reading (@clock Demo.portal t))
  /\ EvNow (JsDate.mk (12 * 2024 + 5) 15 36000000) ∈ h
  /\ periods h !! 5%nat = Some ("01-04-2024", "15-06-2024")
  /\ window_within (JsDate.mk (12 * 2024 + 5) 15 36000000) ("01-04-2024", "15-06-2024").
Proof.
  cbv zeta.
  assert (date_format_test (toDate Demo.answers_repeat) = true)
    as H1 by (vm_compute; reflexivity).
  assert (forall t, clock_reading (@clock Demo.portal t))
    as H2 by (intros t; vm_compute; repeat split; discriminate).
  assert (EvNow (JsDate.mk (12 * 2024 + 5) 15 36000000)
          ∈ history (exec (@runScraper Demo.portal 10 Demo.answers_repeat)
                       (boot ∅ Demo.disk))) as H3.
  { apply (list_elem_of_lookup_2 _ 4%nat). vm_compute. reflexivity. }
  assert (periods (history (exec (@runScraper Demo.portal 10 Demo.answers_repeat)
                              (boot ∅ Demo.disk))) !! 5%nat
          = Some ("01-04-2024", "15-06-2024")) as H4 by (vm_compute; reflexivity).
  split; [exact H1|]. split; [exact H2|]. split; [exact H3|]. split; [exact H4|].
  exact (@X6_windows_within Demo.portal 10 Demo.answers_repeat ∅ Demo.disk
           H1 H2 _ 4%nat _ H3 H4).
Defined.

Lemma X8_unreadable_end_never_returns_witness :
  lacks_fields (toDate DemoMore.answers_unreadable)
  /\ repeatTillDate DemoMore.answers_unreadable = true
  /\ outcome (@runScraper Demo.portal 3 DemoMore.answers_unreadable) (boot ∅ ∅) <> Ok tt
  /\ forall i w,
       periods (history (exec (@runScraper Demo.portal 3 DemoMore.answers_unreadable)
                           (boot ∅ ∅))) !! S i = Some w ->
       w = (invalid_date_str, invalid_date_str).
Proof.
  assert (lacks_fields (toDate DemoMore.answers_unreadable)) as H1
    by (vm_compute; lia).
  assert (repeatTillDate DemoMore.answers_unreadable = true) as H2 by reflexivity.
  split; [exact H1|]. split; [exact H2|].
  exact (@X8_unreadable_end_never_returns Demo.portal 3 DemoMore.answers_unreadable
           ∅ ∅ H1 H2).
Defined.

Lemma X11_cache_set_size_witness :
  outcome (@runScraper Demo.portal 5 Demo.answers) (boot ∅ Demo.disk) = Ok tt
  /\ size (cachedIds (exec (@runScraper Demo.portal 5 Demo.answers) (boot ∅ Demo.disk)))
     = (size (load_cache (cache_log (boot ∅ Demo.disk)))
        + downloaded (stats (exec (@runScraper Demo.portal 5 Demo.answers)
                               (boot ∅ Demo.disk))))%nat.
Proof.
  assert (outcome (@runScraper Demo.portal 5 Demo.answers) (boot ∅ Demo.disk) = Ok tt)
    as Hok by (vm_compute; reflexivity).
  split; [exact Hok|].
  exact (@X11_cache_set_size Demo.portal 5 Demo.answers ∅ Demo.disk Hok).
Defined.

Lemma X17_log_reads_back_witness :
  let s0 := boot ∅ Demo.disk in
  let final := exec (@runScraper Demo.portal 5 Demo.answers) s0 in
  log_terminated (cache_log s0)
  /\ Forall clean_id (added_ids (history final))
  /\ cache_lines (cache_log final)
     = cache_lines (cache_log s0) ++ added_ids (history final).
Proof.
  cbv zeta.
  assert (log_terminated (cache_log (boot ∅ Demo.disk))) as H1.
  { right. exists ("C1" +:+ newline_str +:+ "C2" +:+ newline_str +:+ "C3").
    vm_compute. reflexivity. }
  assert (Forall clean_id
            (added_ids (history (exec (@runScraper Demo.portal 5 Demo.answers)
                                   (boot ∅ Demo.disk))))) as H2.
  { assert (added_ids (history (exec (@runScraper Demo.portal 5 Demo.answers)
                                  (boot ∅ Demo.disk))) = ["C5"]) as ->
      by (vm_compute; reflexivity).
    constructor; [|constructor]. unfold clean_id. vm_compute. repeat split; discriminate. }
  split; [exact H1|]. split; [exact H2|].
  exact (@X17_log_reads_back Demo.portal 5 Demo.answers ∅ Demo.disk H1 H2).
Defined.
